(** * Planetes: a shallow embedding of the level simulation core

    The development follows the Python sources file by file
    (enums.py, tiles.py, bullets.py, particles.py, character.py,
    level.py, save.py, game.py).  One Rocq module stands for one Python
    class or source file and keeps the names of its methods.

    Modelling conventions.
    - A Python [float] (and a component of a [pygame.math.Vector2], which
      is a C double) is a binary64 primitive float; an [int] is a [Z].
    - A [pygame.Rect] holds integers; assigning a float to one of its
      attributes truncates toward zero.  Coordinates are unbounded [Z]:
      the 32-bit range of the C struct is not modelled.
    - An image ([pygame.Surface]) is its size, the only part of a surface
      the simulation reads.  The images the game loads from disk are the
      fields of the record [Assets].
    - A raised exception is the [Raise] outcome of the result type; a method
      of the level returns how the call ended together with the level it
      left behind.
    - Python's [is] compares references: the objects a method can be handed
      are named by the type [Level.objref].
    - Drawing calls ([draw], [blit]) change no simulation state and are left
      out; [print] appends to the level's [stdout]; what the constructors
      print is left out. *)

From Stdlib Require Import ZArith Ascii String Floats.
From stdpp Require Import gmap strings list pretty.

Set Warnings "-inexact-float,-register-all,-clear-no-such-hyp".
Open Scope Z_scope.

(** ** Python numbers *)

Module PyNum.

(** [float(z)] for a Python int: the nearest binary64 value (exact for the
    integers of this program, which are far below 2^53). *)
Definition float_of_Z (z : Z) : float :=
  SF2Prim (binary_normalize prec emax z 0 false).

(** The integer part of a finite float, rounding toward zero (a C cast
    from double to int); [None] for NaN and the infinities. *)
Definition trunc (f : float) : option Z :=
  match Prim2SF f with
  | S754_zero _ => Some 0
  | S754_finite s m e =>
      let mag := Z.shiftl (Z.pos m) e in
      Some (if s then - mag else mag)
  | S754_infinity _ | S754_nan => None
  end.

(** The value of an [Enum] member of [Speeds]: an int or a float. *)
Inductive t :=
| PInt (z : Z)
| PFloat (f : float).

Definition to_float (n : t) : float :=
  match n with
  | PInt z => float_of_Z z
  | PFloat f => f
  end.

(** Python comparisons on floats: every comparison with NaN is false. *)
Definition lt (a b : float) : bool := (a <? b)%float.
Definition gt (a b : float) : bool := (b <? a)%float.
Definition le (a b : float) : bool := (a <=? b)%float.
Definition ge (a b : float) : bool := (b <=? a)%float.
Definition ne (a b : float) : bool := negb (a =? b)%float.

End PyNum.

Abbreviation float_of_Z := PyNum.float_of_Z.

(** ** Exceptions and results *)

Inductive exn :=
| GameOver
| ValueError
| IndexError
| TypeError
| AttributeError
| OverflowError
| KeyError
| ValidationError
| RequestException.

Inductive result (A : Type) :=
| Ok (a : A)
| Raise (e : exn).
Arguments Ok {A} a.
Arguments Raise {A} e.

#[global] Instance result_ret : MRet result := fun A a => Ok a.
#[global] Instance result_bind : MBind result := fun A B k r =>
  match r with
  | Ok a => k a
  | Raise e => Raise e
  end.

#[global] Instance result_fmap : FMap result := fun A B f r =>
  match r with
  | Ok a => Ok (f a)
  | Raise e => Raise e
  end.

Definition of_option {A} (e : exn) (o : option A) : result A :=
  match o with
  | Some a => Ok a
  | None => Raise e
  end.

(** [l[i]] for a Python list: a negative index counts from the end. *)
Definition index {A} (l : list A) (i : Z) : result A :=
  let j := if (i <? 0)%Z then Z.of_nat (length l) + i else i in
  if (j <? 0)%Z then Raise IndexError
  else of_option IndexError (l !! Z.to_nat j).

(** [int(f)] for a float: the integer part; [ValueError] for NaN and
    [OverflowError] for an infinity. *)
Definition int_of_float (f : float) : result Z :=
  match PyNum.trunc f with
  | Some z => Ok z
  | None => if PrimFloat.is_nan f then Raise ValueError else Raise OverflowError
  end.

(** [l[int(f)]] *)
Definition index_float {A} (l : list A) (f : float) : result A :=
  i ← int_of_float f;
  index l i.

(** ** enums.py *)

Inductive PlayerState := IDLE | RUN | JUMP | FALL.

(** [DUST_ANIMATION] and [ENEMY_ANIMATION] have the value of
    [PLAYER_ANIMATION], so Python makes them aliases of it; the code reads
    of a member its [value] only. *)
Inductive Speeds :=
| PLAYER_ANIMATION
| PARTICLE_ANIMATION
| DUST_ANIMATION
| PLAYER_MOVEMENT
| PLAYER_JUMP
| GRAVITY
| SHOOT_DELAY
| ENEMY_MOVEMENT
| ENEMY_ANIMATION
| BULLET_SPEED.

(** The int [Speeds.PLAYER_MOVEMENT.value]. *)
Definition PLAYER_MOVEMENT_value : Z := 8.

Definition Speeds_value (s : Speeds) : PyNum.t :=
  match s with
  | PLAYER_ANIMATION => PyNum.PFloat 0.15
  | PARTICLE_ANIMATION => PyNum.PFloat 0.5
  | DUST_ANIMATION => PyNum.PFloat 0.15
  | PLAYER_MOVEMENT => PyNum.PInt PLAYER_MOVEMENT_value
  | PLAYER_JUMP => PyNum.PInt (-16)
  | GRAVITY => PyNum.PFloat 0.8
  | SHOOT_DELAY => PyNum.PFloat 0.18
  | ENEMY_MOVEMENT => PyNum.PFloat 3.5
  | ENEMY_ANIMATION => PyNum.PFloat 0.15
  | BULLET_SPEED => PyNum.PInt 7
  end.

Inductive Orientation := RIGHT | LEFT.

Inductive Collisions := C_TOP | C_BOTTOM | C_LEFT | C_RIGHT.

Inductive AnimationType := A_JUMP | A_LAND.

Inductive CellType := EMPTY | WALL | PLAYER | ENEMY | COIN | DEATH_BOX.

Definition CellType_value (c : CellType) : ascii :=
  match c with
  | EMPTY => " "
  | WALL => "X"
  | PLAYER => "P"
  | ENEMY => "E"
  | COIN => "C"
  | DEATH_BOX => "D"
  end%char.

(** [CellType(cell)]: the member with that value, [ValueError] when there
    is none. *)
Definition CellType_of (cell : ascii) : result CellType :=
  if decide (cell = " "%char) then Ok EMPTY
  else if decide (cell = "X"%char) then Ok WALL
  else if decide (cell = "P"%char) then Ok PLAYER
  else if decide (cell = "E"%char) then Ok ENEMY
  else if decide (cell = "C"%char) then Ok COIN
  else if decide (cell = "D"%char) then Ok DEATH_BOX
  else Raise ValueError.

#[global] Instance PlayerState_eq_dec : EqDecision PlayerState.
Proof. solve_decision. Defined.
#[global] Instance Orientation_eq_dec : EqDecision Orientation.
Proof. solve_decision. Defined.
#[global] Instance CellType_eq_dec : EqDecision CellType.
Proof. solve_decision. Defined.
#[global] Instance Collisions_eq_dec : EqDecision Collisions.
Proof. solve_decision. Defined.

Definition Collisions_code (c : Collisions) : nat :=
  match c with C_TOP => 0 | C_BOTTOM => 1 | C_LEFT => 2 | C_RIGHT => 3 end%nat.
Definition Collisions_of_code (n : nat) : option Collisions :=
  match n with
  | 0 => Some C_TOP | 1 => Some C_BOTTOM | 2 => Some C_LEFT | 3 => Some C_RIGHT
  | _ => None
  end%nat.
#[global] Instance Collisions_countable : Countable Collisions.
Proof.
  apply (inj_countable Collisions_code Collisions_of_code).
  intros []; reflexivity.
Defined.

(** ** pygame: surfaces, rectangles, vectors *)

(** A surface, as far as the simulation reads it: [get_size()]. *)
Record Image := { img_w : Z; img_h : Z }.

Record Vector2 := { vx : float; vy : float }.

Module Rect.

Record t := { x : Z; y : Z; w : Z; h : Z }.

Definition left (r : t) : Z := x r.
Definition top (r : t) : Z := y r.
Definition right (r : t) : Z := x r + w r.
Definition bottom (r : t) : Z := y r + h r.
(** C integer division, as [pygame] computes the centre. *)
Definition centerx (r : t) : Z := x r + Z.quot (w r) 2.
Definition centery (r : t) : Z := y r + Z.quot (h r) 2.

Definition topleft (r : t) : Z * Z := (left r, top r).
Definition topright (r : t) : Z * Z := (right r, top r).
Definition bottomleft (r : t) : Z * Z := (left r, bottom r).
Definition bottomright (r : t) : Z * Z := (right r, bottom r).
Definition midtop (r : t) : Z * Z := (centerx r, top r).
Definition midbottom (r : t) : Z * Z := (centerx r, bottom r).

Definition set_x (v : Z) (r : t) : t := {| x := v; y := y r; w := w r; h := h r |}.
Definition set_y (v : Z) (r : t) : t := {| x := x r; y := v; w := w r; h := h r |}.
Definition set_left (v : Z) (r : t) : t := set_x v r.
Definition set_top (v : Z) (r : t) : t := set_y v r.
Definition set_right (v : Z) (r : t) : t := set_x (v - w r) r.
Definition set_bottom (v : Z) (r : t) : t := set_y (v - h r) r.
Definition set_centerx (v : Z) (r : t) : t := set_x (v - Z.quot (w r) 2) r.
Definition set_centery (v : Z) (r : t) : t := set_y (v - Z.quot (h r) 2) r.

(** [rect.x = f] for a Python float [f]: the value is cast to a C int;
    NaN and the infinities are refused. *)
Definition assign_x (f : float) (r : t) : result t :=
  v ← of_option TypeError (PyNum.trunc f); Ok (set_x v r).
Definition assign_y (f : float) (r : t) : result t :=
  v ← of_option TypeError (PyNum.trunc f); Ok (set_y v r).

(** [a.colliderect(b)]: the rectangles overlap on both axes; a rectangle
    of zero width or height collides with nothing, and touching edges do
    not collide. *)
Definition colliderect (a b : t) : bool :=
  if (w a =? 0) || (h a =? 0) || (w b =? 0) || (h b =? 0) then false
  else
    (Z.min (x a) (x a + w a) <? Z.max (x b) (x b + w b))
    && (Z.min (y a) (y a + h a) <? Z.max (y b) (y b + h b))
    && (Z.min (x b) (x b + w b) <? Z.max (x a) (x a + w a))
    && (Z.min (y b) (y b + h b) <? Z.max (y a) (y a + h a)).

End Rect.

(** [image.get_rect(anchor=(ax, ay))]: a rectangle of the image's size
    placed by one of its anchor points. *)
Inductive Anchor :=
| Topleft | Topright | Bottomleft | Bottomright | Midtop | Midbottom | Center.

Definition get_rect0 (img : Image) : Rect.t :=
  {| Rect.x := 0; Rect.y := 0; Rect.w := img_w img; Rect.h := img_h img |}.

Definition get_rect (img : Image) (a : Anchor) (p : Z * Z) : Rect.t :=
  let r := get_rect0 img in
  let '(px, py) := p in
  match a with
  | Topleft => Rect.set_top py (Rect.set_left px r)
  | Topright => Rect.set_top py (Rect.set_right px r)
  | Bottomleft => Rect.set_bottom py (Rect.set_left px r)
  | Bottomright => Rect.set_bottom py (Rect.set_right px r)
  | Midtop => Rect.set_top py (Rect.set_centerx px r)
  | Midbottom => Rect.set_bottom py (Rect.set_centerx px r)
  | Center => Rect.set_centery py (Rect.set_centerx px r)
  end.

(** [pygame.transform.scale(image, (w * sx, h * sy))]. *)
Definition transform_scale (img : Image) (sx sy : Z) : Image :=
  {| img_w := img_w img * sx; img_h := img_h img * sy |}.

(** The images loaded from disk. *)
Record Assets := {
  (** one tile of [MapTileSheet("tileset.png", 20, 12)] *)
  map_tile : Image;
  (** one tile of [BulletTileSheet("bullets2.png", 32, 24)] *)
  bullet_tile : Image;
  (** [character/idle/1.png] and [enemy/enemy_0.png] *)
  player_image : Image;
  enemy_image : Image;
  (** the folders [import_folder] reads *)
  player_frames : PlayerState -> list Image;
  dust_frames : list Image;
  enemy_frames : list Image;
  particle_frames : AnimationType -> list Image
}.

(** ** tiles.py *)

Module Square.

(** A [Square] after [__init__] and [scaled], before [with_rect] gives it
    a rectangle. *)
Record init := {
  i_image : Image;
  i_collides : bool;
  i_collectable : bool;
  i_kills : bool
}.

Record t := {
  image : Image;
  rect : Rect.t;
  collides : bool;
  collectable : bool;
  kills : bool
}.

(** [Square(surface, collides=True, collectable=False, kills=False)] *)
Definition new (surface : Image) (collides collectable kills : bool) : init :=
  {| i_image := surface; i_collides := collides;
     i_collectable := collectable; i_kills := kills |}.

Definition scaled (sx sy : Z) (s : init) : init :=
  {| i_image := transform_scale (i_image s) sx sy; i_collides := i_collides s;
     i_collectable := i_collectable s; i_kills := i_kills s |}.

Definition with_rect (x y : Z) (s : init) : t :=
  {| image := i_image s; rect := get_rect (i_image s) Topleft (x, y);
     collides := i_collides s; collectable := i_collectable s;
     kills := i_kills s |}.

(** [update(x_shift)]: [self.rect.x += x_shift] *)
Definition update (x_shift : Z) (s : t) : t :=
  {| image := image s; rect := Rect.set_x (Rect.x (rect s) + x_shift) (rect s);
     collides := collides s; collectable := collectable s; kills := kills s |}.

End Square.

(** ** bullets.py *)

Module Bullet.

(** [spawn] is the dict [{"x": x, "y": y}], read only at its key ["x"];
    [groups] counts the sprite groups the bullet belongs to
    ([pygame.sprite.Sprite.add] and [kill]). *)
Record t := {
  image : Image;
  rect : Rect.t;
  spawn_x : Z;
  spawn_y : Z;
  orientation : Orientation;
  speed : PyNum.t;
  is_alive : bool;
  groups : nat
}.

Definition new (x y : Z) (image : Image) (o : Orientation) (speed : PyNum.t) : t :=
  {| image := image;
     rect := Rect.set_y y (Rect.set_x x (get_rect0 image));
     spawn_x := x; spawn_y := y;
     orientation := o; speed := speed; is_alive := true; groups := 0 |}.

Definition set_rect (r : Rect.t) (b : t) : t :=
  {| image := image b; rect := r; spawn_x := spawn_x b; spawn_y := spawn_y b;
     orientation := orientation b; speed := speed b; is_alive := is_alive b;
     groups := groups b |}.

(** [group.add(bullet)] seen from the sprite. *)
Definition add_group (b : t) : t :=
  {| image := image b; rect := rect b; spawn_x := spawn_x b; spawn_y := spawn_y b;
     orientation := orientation b; speed := speed b; is_alive := is_alive b;
     groups := S (groups b) |}.

(** [self.kill()]: the sprite leaves every group. *)
Definition kill (b : t) : t :=
  {| image := image b; rect := rect b; spawn_x := spawn_x b; spawn_y := spawn_y b;
     orientation := orientation b; speed := speed b; is_alive := is_alive b;
     groups := 0 |}.

Definition set_is_alive (v : bool) (b : t) : t :=
  {| image := image b; rect := rect b; spawn_x := spawn_x b; spawn_y := spawn_y b;
     orientation := orientation b; speed := speed b; is_alive := v;
     groups := groups b |}.

(** [rect.x += n] and [rect.x -= n] for a number [n]: integer arithmetic
    for an int, float arithmetic and a cast back for a float. *)
Definition rect_x_add (n : PyNum.t) (r : Rect.t) : result Rect.t :=
  match n with
  | PyNum.PInt z => Ok (Rect.set_x (Rect.x r + z) r)
  | PyNum.PFloat f => Rect.assign_x (float_of_Z (Rect.x r) + f)%float r
  end.
Definition rect_x_sub (n : PyNum.t) (r : Rect.t) : result Rect.t :=
  match n with
  | PyNum.PInt z => Ok (Rect.set_x (Rect.x r - z) r)
  | PyNum.PFloat f => Rect.assign_x (float_of_Z (Rect.x r) - f)%float r
  end.

(** The horizontal distance from the spawn point. *)
Definition displacement (b : t) : Z := Z.abs (Rect.x (rect b) - spawn_x b).

Definition update (b : t) : result t :=
  r ← (if decide (orientation b = LEFT) then rect_x_sub (speed b) (rect b)
       else rect_x_add (speed b) (rect b));
  let b := set_rect r b in
  if (550 <? displacement b) then Ok (set_is_alive false (kill b))
  else Ok b.

(** [pygame.sprite.collide_rect(self, sprite)] *)
Definition hits (b : t) (sprite_rect : Rect.t) : bool :=
  Rect.colliderect (rect b) sprite_rect.

End Bullet.

(** ** particles.py *)

Module ParticleEffect.

Record t := {
  frame_index : float;
  animation_speed : float;
  frames : list Image;
  image : Image;
  rect : Rect.t
}.

Definition new (A : Assets) (pos : Z * Z) (ty : AnimationType) : result t :=
  let frames := particle_frames A ty in
  img ← index_float frames 0;
  Ok {| frame_index := 0; animation_speed := PyNum.to_float (Speeds_value PARTICLE_ANIMATION);
        frames := frames; image := img; rect := get_rect img Center pos |}.

(** [animate]: the second component is false when the effect killed
    itself. *)
Definition animate (p : t) : result (t * bool) :=
  let fi := (frame_index p + animation_speed p)%float in
  let p := {| frame_index := fi; animation_speed := animation_speed p;
              frames := frames p; image := image p; rect := rect p |} in
  if PyNum.ge fi (float_of_Z (Z.of_nat (length (frames p)))) then Ok (p, false)
  else
    img ← index_float (frames p) fi;
    Ok ({| frame_index := fi; animation_speed := animation_speed p;
           frames := frames p; image := img; rect := rect p |}, true).

Definition update (x_shift : Z) (p : t) : result (t * bool) :=
  '(p, alive) ← animate p;
  Ok ({| frame_index := frame_index p; animation_speed := animation_speed p;
         frames := frames p; image := image p;
         rect := Rect.set_x (Rect.x (rect p) + x_shift) (rect p) |}, alive).

End ParticleEffect.

(** ** character.py *)

(** The time source: each call of [time()] returns the next reading. *)
Abbreviation Time := float (only parsing).

Module Shooter.

(** The state the mixin adds to its host: [__init__] sets [bullets = []]
    and [last_shot = 0]. *)
Record t := {
  bullets : list Bullet.t;
  last_shot : Time
}.

Definition new : t := {| bullets := []; last_shot := 0 |}.

(** [time() - self.last_shot > Speeds.SHOOT_DELAY.value] *)
Definition cooled_down (now : Time) (s : t) : bool :=
  PyNum.gt (now - last_shot s)%float (PyNum.to_float (Speeds_value SHOOT_DELAY)).

(** [shoot(bullet_image, speed)].  [x], [y] and [o] are the host's abstract
    properties; [now] is the reading of [time()] in the test and [stamp]
    the later reading stored in [last_shot]. *)
Definition shoot (x y : Z) (o : Orientation) (now stamp : Time)
    (bullet_image : Image) (speed : Speeds) (s : t) : t :=
  if cooled_down now s then
    let bullet := Bullet.new x y bullet_image o (Speeds_value speed) in
    {| bullets := bullets s ++ [bullet]; last_shot := stamp |}
  else s.

(** One round of the loop of [display_bullets]: the bullet joins a fresh
    [GroupSingle], the group updates its sprite, and the group draws what
    it still holds. *)
Definition display_bullet (b : Bullet.t) : result Bullet.t :=
  Bullet.update (Bullet.add_group b).

(** Whether that group still holds the bullet, so that it is drawn. *)
Definition drawn (b : Bullet.t) : bool := negb (Nat.eqb (Bullet.groups b) 0).

Fixpoint display_each (bs : list Bullet.t) : result (list Bullet.t) :=
  match bs with
  | [] => Ok []
  | b :: bs =>
      b' ← display_bullet b;
      bs' ← display_each bs;
      Ok (b' :: bs')
  end.

(** [display_bullets]: the list [self.bullets] is iterated, never changed;
    its bullets are updated in place. *)
Definition display_bullets (s : t) : result t :=
  bs ← display_each (bullets s);
  Ok {| bullets := bs; last_shot := last_shot s |}.

End Shooter.

Module Character.

Record t := {
  image : Image;
  rect : Rect.t;
  speed : float;
  orientation : Orientation;
  collisions : gset Collisions;
  direction : Vector2
}.

Definition new (x y : Z) (image : Image) (speed : Speeds) : t :=
  {| image := image;
     rect := get_rect image Topleft (x, y);
     speed := PyNum.to_float (Speeds_value speed);
     orientation := RIGHT;
     collisions := ∅;
     direction := {| vx := 0; vy := 0 |} |}.

Definition set_image (v : Image) (c : t) : t :=
  {| image := v; rect := rect c; speed := speed c; orientation := orientation c;
     collisions := collisions c; direction := direction c |}.
Definition set_rect (v : Rect.t) (c : t) : t :=
  {| image := image c; rect := v; speed := speed c; orientation := orientation c;
     collisions := collisions c; direction := direction c |}.
Definition set_speed (v : float) (c : t) : t :=
  {| image := image c; rect := rect c; speed := v; orientation := orientation c;
     collisions := collisions c; direction := direction c |}.
Definition set_orientation (v : Orientation) (c : t) : t :=
  {| image := image c; rect := rect c; speed := speed c; orientation := v;
     collisions := collisions c; direction := direction c |}.
Definition set_collisions (v : gset Collisions) (c : t) : t :=
  {| image := image c; rect := rect c; speed := speed c; orientation := orientation c;
     collisions := v; direction := direction c |}.
Definition set_direction (v : Vector2) (c : t) : t :=
  {| image := image c; rect := rect c; speed := speed c; orientation := orientation c;
     collisions := collisions c; direction := v |}.

Definition set_dx (v : float) (c : t) : t :=
  set_direction {| vx := v; vy := vy (direction c) |} c.
Definition set_dy (v : float) (c : t) : t :=
  set_direction {| vx := vx (direction c); vy := v |} c.
Definition dx (c : t) : float := vx (direction c).
Definition dy (c : t) : float := vy (direction c).

(** [self.collisions.add(f)] and the guarded [remove] of the level. *)
Definition add_collision (f : Collisions) (c : t) : t :=
  set_collisions ({[ f ]} ∪ collisions c) c.
Definition remove_collision (f : Collisions) (c : t) : t :=
  set_collisions (collisions c ∖ {[ f ]}) c.
Definition touching (f : Collisions) (c : t) : bool :=
  bool_decide (f ∈ collisions c).

(** [pygame.sprite.collide_rect(self, sprite)] *)
Definition hits (c : t) (sprite_rect : Rect.t) : bool :=
  Rect.colliderect (rect c) sprite_rect.

(** [handle_collisions]: the rectangle takes the size of the current image
    and keeps the anchor point of the first matching flag combination. *)
Definition handle_collisions (c : t) : t :=
  let has f := touching f c in
  let r := rect c in
  if has C_BOTTOM && has C_RIGHT then
    set_rect (get_rect (image c) Bottomright (Rect.bottomright r)) c
  else if has C_BOTTOM && has C_LEFT then
    set_rect (get_rect (image c) Bottomleft (Rect.bottomleft r)) c
  else if has C_BOTTOM then
    set_rect (get_rect (image c) Midbottom (Rect.midbottom r)) c
  else if has C_TOP && has C_RIGHT then
    set_rect (get_rect (image c) Topright (Rect.topright r)) c
  else if has C_TOP && has C_LEFT then
    set_rect (get_rect (image c) Topleft (Rect.topleft r)) c
  else if has C_TOP then
    set_rect (get_rect (image c) Midtop (Rect.midtop r)) c
  else c.

(** [with_rect(width, height)]: [self.rect.size = (width, height)] *)
Definition with_rect (width height : Z) (c : t) : t :=
  set_rect {| Rect.x := Rect.x (rect c); Rect.y := Rect.y (rect c);
              Rect.w := width; Rect.h := height |} c.

End Character.

(** [pygame.key.get_pressed()], at the keys the game reads. *)
Record Keys := {
  K_RIGHT : bool;
  K_LEFT : bool;
  K_UP : bool;
  K_SPACE : bool;
  K_ESCAPE : bool;
  K_s : bool
}.

Module Player.

Record t := {
  base : Character.t;
  shooter : Shooter.t;
  frame_index : float;
  dust_frame_index : float;
  animations : PlayerState -> list Image;
  dust_run_particles : list Image;
  bullet_image : Image;
  status : PlayerState;
  score : Z
}.

Definition new (A : Assets) (x y : Z) (image bullet_image : Image) : t :=
  {| base := Character.new x y image PLAYER_MOVEMENT;
     shooter := Shooter.new;
     frame_index := 0;
     dust_frame_index := 0;
     animations := player_frames A;
     dust_run_particles := dust_frames A;
     bullet_image := bullet_image;
     status := IDLE;
     score := 0 |}.

Definition set_base (v : Character.t) (p : t) : t :=
  {| base := v; shooter := shooter p; frame_index := frame_index p;
     dust_frame_index := dust_frame_index p; animations := animations p;
     dust_run_particles := dust_run_particles p; bullet_image := bullet_image p;
     status := status p; score := score p |}.
Definition set_shooter (v : Shooter.t) (p : t) : t :=
  {| base := base p; shooter := v; frame_index := frame_index p;
     dust_frame_index := dust_frame_index p; animations := animations p;
     dust_run_particles := dust_run_particles p; bullet_image := bullet_image p;
     status := status p; score := score p |}.
Definition set_frame_index (v : float) (p : t) : t :=
  {| base := base p; shooter := shooter p; frame_index := v;
     dust_frame_index := dust_frame_index p; animations := animations p;
     dust_run_particles := dust_run_particles p; bullet_image := bullet_image p;
     status := status p; score := score p |}.
Definition set_dust_frame_index (v : float) (p : t) : t :=
  {| base := base p; shooter := shooter p; frame_index := frame_index p;
     dust_frame_index := v; animations := animations p;
     dust_run_particles := dust_run_particles p; bullet_image := bullet_image p;
     status := status p; score := score p |}.
Definition set_status (v : PlayerState) (p : t) : t :=
  {| base := base p; shooter := shooter p; frame_index := frame_index p;
     dust_frame_index := dust_frame_index p; animations := animations p;
     dust_run_particles := dust_run_particles p; bullet_image := bullet_image p;
     status := v; score := score p |}.
Definition set_score (v : Z) (p : t) : t :=
  {| base := base p; shooter := shooter p; frame_index := frame_index p;
     dust_frame_index := dust_frame_index p; animations := animations p;
     dust_run_particles := dust_run_particles p; bullet_image := bullet_image p;
     status := status p; score := v |}.

Definition is_running (p : t) : bool := bool_decide (status p = RUN).

(** The properties the [Shooter] protocol asks of its host. *)
Definition x (p : t) : Z :=
  Rect.x (Character.rect (base p)) + Rect.w (Character.rect (base p)) `div` 2.
Definition y (p : t) : Z :=
  Rect.y (Character.rect (base p)) + Rect.h (Character.rect (base p)) `div` 2.
Definition orientation (p : t) : Orientation := Character.orientation (base p).

(** The setter of [orientation]: it also reloads the image of the current
    animation frame and rebuilds the rectangle at its top-left corner. *)
Definition set_orientation (v : Orientation) (p : t) : result t :=
  let c := Character.set_orientation v (base p) in
  img ← index_float (animations p (status p)) (frame_index p);
  let r := Character.rect c in
  Ok (set_base (Character.set_rect (get_rect img Topleft (Rect.x r, Rect.y r))
                  (Character.set_image img c)) p).

Definition jump (p : t) : t :=
  set_base (Character.set_dy (PyNum.to_float (Speeds_value PLAYER_JUMP)) (base p)) p.

Definition shoot (now stamp : Time) (bullet_image : Image) (speed : Speeds) (p : t) : t :=
  set_shooter (Shooter.shoot (x p) (y p) (orientation p) now stamp
                 bullet_image speed (shooter p)) p.

(** [handle_key_presses].  [create_jump_particles] is the callback the
    level gave the player: it reads the player and the position it is
    called with, and yields what the level then stores (of some type [X]).
    The second component of the result is what the callback yielded, when
    the player jumped. *)
Definition handle_key_presses {X} (create_jump_particles : t -> Z * Z -> result X)
    (keys : Keys) (now stamp : Time) (p : t) : result (t * option X) :=
  p ← (if K_RIGHT keys then
         set_orientation RIGHT (set_base (Character.set_dx 1 (base p)) p)
       else if K_LEFT keys then
         set_orientation LEFT (set_base (Character.set_dx (-1) (base p)) p)
       else Ok (set_base (Character.set_dx 0 (base p)) p));
  made ← (if K_UP keys && Character.touching C_BOTTOM (base p) then
            Some <$> create_jump_particles (jump p)
                       (Rect.midbottom (Character.rect (base (jump p))))
          else Ok None);
  let p := if K_UP keys && Character.touching C_BOTTOM (base p) then jump p else p in
  let p := if K_SPACE keys then shoot now stamp (bullet_image p) BULLET_SPEED p else p in
  Ok (p, made).

(** [animate] *)
Definition animate (p : t) : result t :=
  let animation := animations p (status p) in
  let fi := (frame_index p + PyNum.to_float (Speeds_value PLAYER_ANIMATION))%float in
  let fi := if PyNum.ge fi (float_of_Z (Z.of_nat (length animation))) then 0%float else fi in
  let p := set_frame_index fi p in
  img ← index_float animation fi;
  Ok (set_base (Character.handle_collisions (Character.set_image img (base p))) p).

(** [update_status] *)
Definition update_status (p : t) : t :=
  if PyNum.lt (Character.dy (base p)) 0 then set_status JUMP p
  else if PyNum.gt (Character.dy (base p)) 1 then set_status FALL p
  else if PyNum.ne (Character.dx (base p)) 0 then set_status RUN p
  else set_status IDLE p.

(** [apply_gravity]: its first statement,
    [self.direction.y += Speeds.GRAVITY.value], and the whole. *)
Definition accelerate (p : t) : t :=
  let c := base p in
  set_base (Character.set_dy
              (Character.dy c + PyNum.to_float (Speeds_value GRAVITY))%float c) p.

Definition apply_gravity (p : t) : result t :=
  let c := base (accelerate p) in
  r ← Rect.assign_y (float_of_Z (Rect.y (Character.rect c)) + Character.dy c)%float
        (Character.rect c);
  Ok (set_base (Character.set_rect r c) (accelerate p)).

(** [run_dust_animation]: besides drawing, it advances the dust frame. *)
Definition run_dust_animation (p : t) : result t :=
  if is_running p && Character.touching C_BOTTOM (base p) then
    let fi := (dust_frame_index p + PyNum.to_float (Speeds_value DUST_ANIMATION))%float in
    let fi := if PyNum.ge fi (float_of_Z (Z.of_nat (length (dust_run_particles p))))
              then 0%float else fi in
    let p := set_dust_frame_index fi p in
    _ ← index_float (dust_run_particles p) fi;
    Ok p
  else Ok p.

Definition display_bullets (p : t) : result t :=
  s ← Shooter.display_bullets (shooter p);
  Ok (set_shooter s p).

(** [update] *)
Definition update {X} (create_jump_particles : t -> Z * Z -> result X)
    (keys : Keys) (now stamp : Time) (p : t) : result (t * option X) :=
  r ← handle_key_presses create_jump_particles keys now stamp p;
  let p := update_status (fst r) in
  p ← animate p;
  p ← run_dust_animation p;
  p ← display_bullets p;
  Ok (p, snd r).

End Player.

Module Enemy.

Record t := {
  base : Character.t;
  frame_index : float;
  animations : list Image
}.

Definition new (A : Assets) (x y : Z) (image : Image) : t :=
  {| base := Character.new x y image ENEMY_MOVEMENT;
     frame_index := 0;
     animations := enemy_frames A |}.

Definition set_base (v : Character.t) (e : t) : t :=
  {| base := v; frame_index := frame_index e; animations := animations e |}.

Definition animate (e : t) : result t :=
  let fi := (frame_index e + PyNum.to_float (Speeds_value ENEMY_ANIMATION))%float in
  let fi := if PyNum.ge fi (float_of_Z (Z.of_nat (length (animations e)))) then 0%float else fi in
  img ← index_float (animations e) fi;
  Ok {| base := Character.handle_collisions (Character.set_image img (base e));
        frame_index := fi; animations := animations e |}.

Definition update (e : t) : result t := animate e.

End Enemy.

(** ** save.py *)

(** The JSON-shaped values a save is made of. *)
Inductive json :=
| JStr (s : string)
| JInt (z : Z)
| JList (l : list json).

Module Save.

Record t := {
  name : string;
  score : Z;
  level : Z;
  map : list string;
  created_at : string
}.

(** [to_json]: a dict of five entries. *)
Definition to_json (s : t) : gmap string json :=
  <["name" := JStr (name s)]>
  (<["score" := JInt (score s)]>
  (<["level" := JInt (level s)]>
  (<["map" := JList (JStr <$> map s)]>
  (<["created_at" := JStr (created_at s)]> ∅)))).

(** [json_data[key]] *)
Definition getitem (d : gmap string json) (key : string) : result json :=
  of_option KeyError (d !! key).

(** The validation of the model's fields.  A value of the field's type
    is taken as it is.  What the validating library, which is no part of
    this repository, makes of a string given for an int field and of an
    int given for a str field (it may convert the value or refuse it,
    [None]) is left open: it is what [lax] holds.  A list is refused for
    both, and only a list is taken for the list field. *)
Record lax := {
  int_of_str : string -> option Z;
  str_of_int : Z -> option string
}.

Definition as_str (c : lax) (v : json) : result string :=
  match v with
  | JStr s => Ok s
  | JInt z => of_option ValidationError (str_of_int c z)
  | JList _ => Raise ValidationError
  end.
Definition as_int (c : lax) (v : json) : result Z :=
  match v with
  | JInt z => Ok z
  | JStr s => of_option ValidationError (int_of_str c s)
  | JList _ => Raise ValidationError
  end.
Fixpoint as_strs (c : lax) (l : list json) : result (list string) :=
  match l with
  | [] => Ok []
  | v :: l => s ← as_str c v; ss ← as_strs c l; Ok (s :: ss)
  end.
Definition as_str_list (c : lax) (v : json) : result (list string) :=
  match v with JList l => as_strs c l | _ => Raise ValidationError end.

(** [from_json]: the five lookups come first, then the constructor
    validates the fields in their order of declaration. *)
Definition from_json (c : lax) (json_data : gmap string json) : result t :=
  vname ← getitem json_data "name";
  vscore ← getitem json_data "score";
  vlevel ← getitem json_data "level";
  vmap ← getitem json_data "map";
  vcreated ← getitem json_data "created_at";
  name ← as_str c vname;
  score ← as_int c vscore;
  level ← as_int c vlevel;
  map ← as_str_list c vmap;
  created_at ← as_str c vcreated;
  Ok {| name := name; score := score; level := level; map := map;
        created_at := created_at |}.

Definition pretty (s : t) : string :=
  name s +:+ " " +:+ pretty.pretty (score s) +:+ " " +:+ pretty.pretty (level s).

End Save.

(** ** settings.py *)

Definition tile_size : Z := 64.
Definition screen_width : Z := 1200.

(** ** level.py *)

Module Level.

(** The objects a method of the level can be handed: the group
    [self.player], the sprite that group holds ([self.player.sprite]), and
    the sprite of the [i]-th group of [self.enemies].  Python's [is]
    compares such references. *)
Inductive objref :=
| PlayerGroupRef
| PlayerRef
| EnemyRef (i : nat).

#[global] Instance objref_eq_dec : EqDecision objref.
Proof. solve_decision. Defined.

Definition py_is (a b : objref) : bool := bool_decide (a = b).

(** A [GroupSingle] is the sprite it holds, if any.  [db] is the
    process-wide store [settings.db] and [stdout] what was printed. *)
Record t := {
  level_data : list string;
  enemies : list (option Enemy.t);
  tiles : list Square.t;
  player : option Player.t;
  world_shift : Z;
  current_x : Z;
  landed : bool;
  dust_sprite : option ParticleEffect.t;
  db : gmap string (gmap string json);
  stdout : list string
}.

Definition set_enemies (v : list (option Enemy.t)) (l : t) : t :=
  {| level_data := level_data l; enemies := v; tiles := tiles l; player := player l;
     world_shift := world_shift l; current_x := current_x l; landed := landed l;
     dust_sprite := dust_sprite l; db := db l; stdout := stdout l |}.
Definition set_tiles (v : list Square.t) (l : t) : t :=
  {| level_data := level_data l; enemies := enemies l; tiles := v; player := player l;
     world_shift := world_shift l; current_x := current_x l; landed := landed l;
     dust_sprite := dust_sprite l; db := db l; stdout := stdout l |}.
Definition set_player (v : option Player.t) (l : t) : t :=
  {| level_data := level_data l; enemies := enemies l; tiles := tiles l; player := v;
     world_shift := world_shift l; current_x := current_x l; landed := landed l;
     dust_sprite := dust_sprite l; db := db l; stdout := stdout l |}.
Definition set_world_shift (v : Z) (l : t) : t :=
  {| level_data := level_data l; enemies := enemies l; tiles := tiles l; player := player l;
     world_shift := v; current_x := current_x l; landed := landed l;
     dust_sprite := dust_sprite l; db := db l; stdout := stdout l |}.
Definition set_current_x (v : Z) (l : t) : t :=
  {| level_data := level_data l; enemies := enemies l; tiles := tiles l; player := player l;
     world_shift := world_shift l; current_x := v; landed := landed l;
     dust_sprite := dust_sprite l; db := db l; stdout := stdout l |}.
Definition set_dust_sprite (v : option ParticleEffect.t) (l : t) : t :=
  {| level_data := level_data l; enemies := enemies l; tiles := tiles l; player := player l;
     world_shift := world_shift l; current_x := current_x l; landed := landed l;
     dust_sprite := v; db := db l; stdout := stdout l |}.
Definition set_db (v : gmap string (gmap string json)) (l : t) : t :=
  {| level_data := level_data l; enemies := enemies l; tiles := tiles l; player := player l;
     world_shift := world_shift l; current_x := current_x l; landed := landed l;
     dust_sprite := dust_sprite l; db := v; stdout := stdout l |}.
Definition set_stdout (v : list string) (l : t) : t :=
  {| level_data := level_data l; enemies := enemies l; tiles := tiles l; player := player l;
     world_shift := world_shift l; current_x := current_x l; landed := landed l;
     dust_sprite := dust_sprite l; db := db l; stdout := v |}.

Definition print (s : string) (l : t) : t := set_stdout (stdout l ++ [s]) l.

(** *** Construction *)

(** What [spawn_sprites] has built so far: the local group [tiles], the
    local [player_sprite], and the list [self.enemies] it appends to. *)
Record spawned := {
  sp_tiles : list Square.t;
  sp_player : option Player.t;
  sp_enemies : list (option Enemy.t)
}.

(** The transparent 64 by 64 surface of the death boxes and of the tiles
    under the enemies. *)
Definition blank_surface : Image := {| img_w := 64; img_h := 64 |}.

(** The body of the two loops of [spawn_sprites] for one cell. *)
Definition spawn_cell (A : Assets) (row_index col_index : nat) (cell : ascii)
    (acc : spawned) : result spawned :=
  let x := Z.of_nat col_index * tile_size in
  let y := Z.of_nat row_index * tile_size in
  ct ← CellType_of cell;
  match ct with
  | WALL =>
      let tile := Square.with_rect x y
                    (Square.scaled 4 4 (Square.new (map_tile A) true false false)) in
      Ok {| sp_tiles := sp_tiles acc ++ [tile]; sp_player := sp_player acc;
            sp_enemies := sp_enemies acc |}
  | PLAYER =>
      let p := Player.new A x y (player_image A) (bullet_tile A) in
      Ok {| sp_tiles := sp_tiles acc; sp_player := Some p;
            sp_enemies := sp_enemies acc |}
  | COIN =>
      let tile := Square.with_rect (x + 16) (y + 16)
                    (Square.scaled 2 2 (Square.new (map_tile A) false true false)) in
      Ok {| sp_tiles := sp_tiles acc ++ [tile]; sp_player := sp_player acc;
            sp_enemies := sp_enemies acc |}
  | DEATH_BOX =>
      let tile := Square.with_rect x y
                    (Square.scaled 4 4 (Square.new blank_surface true false true)) in
      Ok {| sp_tiles := sp_tiles acc ++ [tile]; sp_player := sp_player acc;
            sp_enemies := sp_enemies acc |}
  | ENEMY =>
      let group := Some (Enemy.new A x (y - 64) (enemy_image A)) in
      let tile := Square.with_rect x y
                    (Square.scaled 4 4 (Square.new blank_surface true false false)) in
      Ok {| sp_tiles := sp_tiles acc ++ [tile]; sp_player := sp_player acc;
            sp_enemies := sp_enemies acc ++ [group] |}
  | EMPTY => Ok acc
  end.

(** [for col_index, cell in enumerate(row)] *)
Fixpoint spawn_row (A : Assets) (row_index col_index : nat) (row : list ascii)
    (acc : spawned) : result spawned :=
  match row with
  | [] => Ok acc
  | cell :: row =>
      acc ← spawn_cell A row_index col_index cell acc;
      spawn_row A row_index (S col_index) row acc
  end.

(** [for row_index, row in enumerate(layout)] *)
Fixpoint spawn_rows (A : Assets) (row_index : nat) (layout : list string)
    (acc : spawned) : result spawned :=
  match layout with
  | [] => Ok acc
  | row :: layout =>
      acc ← spawn_row A row_index 0 (list_ascii_of_string row) acc;
      spawn_rows A (S row_index) layout acc
  end.

(** [spawn_sprites(layout)], called with [self.enemies = enemies]: it
    returns the tile group and the player group, and [self.enemies] as it
    has grown. *)
Definition spawn_sprites (A : Assets) (layout : list string)
    (enemies : list (option Enemy.t))
    : result (list Square.t * option Player.t * list (option Enemy.t)) :=
  acc ← spawn_rows A 0 layout
          {| sp_tiles := []; sp_player := None; sp_enemies := enemies |};
  match sp_player acc with
  | None => Raise ValueError
  | Some player_sprite => Ok (sp_tiles acc, Some player_sprite, sp_enemies acc)
  end.

(** [Level(level_data, surface)] *)
Definition new (A : Assets) (level_data : list string)
    (db : gmap string (gmap string json)) : result t :=
  '(tiles, player, enemies) ← spawn_sprites A level_data [];
  Ok {| level_data := level_data; enemies := enemies; tiles := tiles;
        player := player; world_shift := 0; current_x := 0; landed := false;
        dust_sprite := None; db := db; stdout := [] |}.

(** *** Methods

    A method of the level takes the level to how the call ended and the
    level it left behind. *)

Inductive outcome :=
| Returned
| Raised (e : exn).

Definition method := t -> outcome * t.

Definition andthen (m1 m2 : method) : method := fun l =>
  match m1 l with
  | (Returned, l') => m2 l'
  | (Raised e, l') => (Raised e, l')
  end.

Infix ">>" := andthen (at level 65, right associativity).

Definition ret : method := fun l => (Returned, l).
Definition modify (f : t -> t) : method := fun l => (Returned, f l).

(** Run a computation that reads the level and either yields the next
    level or raises.  Such an exception is none the game catches: it ends
    the process, and the level it leaves behind is taken to be the level
    before the call. *)
Definition attempt (f : t -> result t) : method := fun l =>
  match f l with
  | Ok l' => (Returned, l')
  | Raise e => (Raised e, l)
  end.

(** A character object, with its class. *)
Inductive sprite :=
| APlayer (p : Player.t)
| AnEnemy (e : Enemy.t).

Definition sprite_base (s : sprite) : Character.t :=
  match s with
  | APlayer p => Player.base p
  | AnEnemy e => Enemy.base e
  end.

Definition sprite_set_base (c : Character.t) (s : sprite) : sprite :=
  match s with
  | APlayer p => APlayer (Player.set_base c p)
  | AnEnemy e => AnEnemy (Enemy.set_base c e)
  end.

(** [type(character) is Enemy] *)
Definition is_Enemy (s : sprite) : bool :=
  match s with AnEnemy _ => true | APlayer _ => false end.

(** The character behind a reference.  A group is no character, and an
    empty group's [sprite] is [None]: reading [.rect] of either raises. *)
Definition deref (r : objref) (l : t) : result sprite :=
  match r with
  | PlayerGroupRef => Raise AttributeError
  | PlayerRef => of_option AttributeError (APlayer <$> player l)
  | EnemyRef i => of_option AttributeError (AnEnemy <$> mjoin (enemies l !! i))
  end.

(** Store a character back behind its reference; [None] when [kill] took
    it out of its group. *)
Definition store (r : objref) (s : option sprite) (l : t) : t :=
  match r, s with
  | PlayerRef, Some (APlayer p) => set_player (Some p) l
  | PlayerRef, None => set_player None l
  | EnemyRef i, Some (AnEnemy e) => set_enemies (<[i := Some e]> (enemies l)) l
  | EnemyRef i, None => set_enemies (<[i := None]> (enemies l)) l
  | _, _ => l
  end.

(** [group.sprites()] is non-empty. *)
Definition group_has {A} (g : option A) : bool :=
  match g with Some _ => true | None => false end.

(** [create_jump_particles(pos)], the callback the player calls when it
    jumps: the particle it builds, which the level then puts into
    [self.dust_sprite] in place of what that group held.  [p] is the
    player as the level sees it at that moment. *)
Definition create_jump_particles (A : Assets) (p : Player.t) (pos : Z * Z)
    : result ParticleEffect.t :=
  let pos := if decide (Player.orientation p = RIGHT) then (pos.1 - 10, pos.2 - 5)
             else (pos.1 + 10, pos.2 + -5) in
  ParticleEffect.new A pos A_JUMP.

(** [player_landed] *)
Definition player_landed (l : t) : result bool :=
  p ← of_option AttributeError (player l);
  Ok (Character.touching C_BOTTOM (Player.base p)).

(** [create_landing_dust] *)
Definition create_landing_dust (A : Assets) : method :=
  attempt (fun l =>
    landed ← player_landed l;
    if landed && negb (group_has (dust_sprite l)) then
      p ← of_option AttributeError (player l);
      let offset := if decide (Player.orientation p = RIGHT) then (10, 15) else (-10, 15) in
      let '(mx, my) := Rect.midbottom (Character.rect (Player.base p)) in
      fall_dust_particle ← ParticleEffect.new A (mx - offset.1, my - offset.2) A_LAND;
      Ok (set_dust_sprite (Some fall_dust_particle) l)
    else Ok l).

(** [handle_horizontal_movement] *)
Definition handle_horizontal_movement : method :=
  attempt (fun l =>
    p ← of_option AttributeError (player l);
    let player_x := Rect.centerx (Character.rect (Player.base p)) in
    let direction_x := Character.dx (Player.base p) in
    let quarter := (float_of_Z screen_width / float_of_Z 4)%float in
    let movement := PLAYER_MOVEMENT_value in
    let with_speed v l :=
      set_player (Some (Player.set_base (Character.set_speed v (Player.base p)) p)) l in
    if PyNum.lt (float_of_Z player_x) quarter && PyNum.lt direction_x 0 then
      Ok (with_speed 0%float (set_world_shift (movement * 2) l))
    else if PyNum.gt (float_of_Z player_x) (float_of_Z screen_width - quarter)%float
            && PyNum.gt direction_x 0 then
      Ok (with_speed 0%float (set_world_shift (- movement * 2) l))
    else
      Ok (with_speed 8%float (set_world_shift 0 l))).

(** *** Horizontal collisions *)

(** What the sweep of [horizontal_movement_collision] works on: the
    character, [self.current_x], the output, and whether the character was
    killed (taken out of its groups). *)
Record hsweep := {
  hs_char : Character.t;
  hs_current_x : Z;
  hs_stdout : list string;
  hs_killed : bool
}.

Definition hs_with_char (c : Character.t) (s : hsweep) : hsweep :=
  {| hs_char := c; hs_current_x := hs_current_x s; hs_stdout := hs_stdout s;
     hs_killed := hs_killed s |}.

(** [character.rect.x += character.direction.x * character.speed] *)
Definition x_advance (c : Character.t) : result Character.t :=
  let r := Character.rect c in
  r ← Rect.assign_x (float_of_Z (Rect.x r) + Character.dx c * Character.speed c)%float r;
  Ok (Character.set_rect r c).

(** The test that turns an enemy round at a tile. *)
Definition enemy_turns (sprite : Square.t) (c : Character.t) : bool :=
  PyNum.gt (Character.dx c) 0
  && (Rect.left (Square.rect sprite) <? Rect.right (Character.rect c))
  && (Rect.right (Character.rect c) <? Rect.right (Square.rect sprite)).

(** [character.direction.x *= -1; character.speed = ENEMY_MOVEMENT.value] *)
Definition turn_round (c : Character.t) : Character.t :=
  Character.set_speed (PyNum.to_float (Speeds_value ENEMY_MOVEMENT))
    (Character.set_dx (Character.dx c * float_of_Z (-1))%float c).

(** The first statement of the loop body, for enemies only. *)
Definition enemy_check (is_enemy : bool) (sprite : Square.t) (c : Character.t)
    : Character.t :=
  if is_enemy && enemy_turns sprite c then turn_round c else c.

(** The second statement of the loop body: the collision with a solid
    tile.  [character] is the reference the method was called with; the
    test [character is self.player] compares it with the group
    [self.player], and behind it are [character.kill()] and the print. *)
Definition collide_tile (character : objref) (sprite : Square.t) (s : hsweep) : hsweep :=
  let c := hs_char s in
  if Square.collides sprite then
    if Rect.colliderect (Square.rect sprite) (Character.rect c) then
      if Square.kills sprite then
        if py_is character PlayerGroupRef then
          {| hs_char := c; hs_current_x := hs_current_x s;
             hs_stdout := hs_stdout s ++ ["Player was killed"];
             hs_killed := true |}
        else s
      else if PyNum.lt (Character.dx c) 0 then
        let c := Character.set_rect
                   (Rect.set_left (Rect.right (Square.rect sprite)) (Character.rect c)) c in
        let c := Character.add_collision C_LEFT c in
        {| hs_char := c; hs_current_x := Rect.left (Square.rect sprite);
           hs_stdout := hs_stdout s; hs_killed := hs_killed s |}
      else if PyNum.gt (Character.dx c) 0 then
        let c := Character.set_rect
                   (Rect.set_right (Rect.left (Square.rect sprite)) (Character.rect c)) c in
        let c := Character.add_collision C_RIGHT c in
        {| hs_char := c; hs_current_x := Rect.right (Square.rect sprite);
           hs_stdout := hs_stdout s; hs_killed := hs_killed s |}
      else s
    else s
  else s.

(** One round of [for sprite in self.tiles.sprites()]. *)
Definition horizontal_tile (character : objref) (is_enemy : bool)
    (s : hsweep) (sprite : Square.t) : hsweep :=
  collide_tile character sprite
    (hs_with_char (enemy_check is_enemy sprite (hs_char s)) s).

Definition horizontal_sweep (character : objref) (is_enemy : bool)
    (tiles : list Square.t) (s : hsweep) : hsweep :=
  foldl (horizontal_tile character is_enemy) s tiles.

(** The two statements after the loop. *)
Definition clears_left (c : Character.t) (current_x : Z) : bool :=
  Character.touching C_LEFT c
  && ((Rect.left (Character.rect c) <? current_x) || PyNum.ge (Character.dx c) 0).
Definition clears_right (c : Character.t) (current_x : Z) : bool :=
  Character.touching C_RIGHT c
  && ((current_x <? Rect.right (Character.rect c)) || PyNum.le (Character.dx c) 0).

Definition clear_flags (current_x : Z) (c : Character.t) : Character.t :=
  let c := if clears_left c current_x then Character.remove_collision C_LEFT c else c in
  if clears_right c current_x then Character.remove_collision C_RIGHT c else c.

(** [horizontal_movement_collision(character)] *)
Definition horizontal_movement_collision (character : objref) : method :=
  attempt (fun l =>
    who ← deref character l;
    c ← x_advance (sprite_base who);
    let s := horizontal_sweep character (is_Enemy who) (tiles l)
               {| hs_char := c; hs_current_x := current_x l;
                  hs_stdout := stdout l; hs_killed := false |} in
    let c := clear_flags (hs_current_x s) (hs_char s) in
    let who := if hs_killed s then None else Some (sprite_set_base c who) in
    Ok (store character who
          (set_stdout (hs_stdout s) (set_current_x (hs_current_x s) l)))).

(** *** Vertical collisions *)

(** How one round of the loop of [vertical_movement_collision] ends: the
    player goes on, and the tile stays in the group or was collected; or
    the player was killed and [GameOver] raised. *)
Inductive vround :=
| VNext (p : Player.t) (tile_stays : bool)
| VGameOver.

(** The first statement of the loop body: the solid tile. *)
Definition land_on_tile (sprite : Square.t) (p : Player.t) : option Player.t :=
  let c := Player.base p in
  if Square.collides sprite then
    if Rect.colliderect (Square.rect sprite) (Character.rect c) then
      if Square.kills sprite then None
      else if PyNum.gt (Character.dy c) 0 then
        let c := Character.set_rect
                   (Rect.set_bottom (Rect.top (Square.rect sprite)) (Character.rect c)) c in
        let c := Character.set_dy 0 c in
        Some (Player.set_base (Character.add_collision C_BOTTOM c) p)
      else if PyNum.lt (Character.dy c) 0 then
        let c := Character.set_rect
                   (Rect.set_top (Rect.bottom (Square.rect sprite)) (Character.rect c)) c in
        let c := Character.set_dy 0 c in
        Some (Player.set_base (Character.add_collision C_TOP c) p)
      else Some p
    else Some p
  else Some p.

(** The second statement: the collectable tile. *)
Definition collect_tile (sprite : Square.t) (p : Player.t) : Player.t * bool :=
  if Square.collectable sprite then
    if Rect.colliderect (Square.rect sprite) (Character.rect (Player.base p)) then
      (Player.set_score (Player.score p + 1) p, false)
    else (p, true)
  else (p, true).

Definition vertical_tile (sprite : Square.t) (p : Player.t) : vround :=
  match land_on_tile sprite p with
  | None => VGameOver
  | Some p => let '(p, stays) := collect_tile sprite p in VNext p stays
  end.

(** [for sprite in self.tiles.sprites()], over the snapshot [snapshot] of
    the group: the result is the player, or [None] when [GameOver] was
    raised, and the group as the loop left it. *)
Fixpoint vertical_sweep (snapshot : list Square.t) (p : Player.t)
    : option Player.t * list Square.t :=
  match snapshot with
  | [] => (Some p, [])
  | sprite :: rest =>
      match vertical_tile sprite p with
      | VGameOver => (None, sprite :: rest)
      | VNext p stays =>
          let '(r, group) := vertical_sweep rest p in
          (r, if stays then sprite :: group else group)
      end
  end.

(** The two statements after the loop. *)
Definition leaves_ground (c : Character.t) : bool :=
  Character.touching C_BOTTOM c
  && (PyNum.lt (Character.dy c) 0 || PyNum.gt (Character.dy c) 1).
Definition leaves_ceiling (c : Character.t) : bool :=
  Character.touching C_TOP c && PyNum.gt (Character.dy c) 0.1.

Definition clear_vertical_flags (c : Character.t) : Character.t :=
  let c := if leaves_ground c then Character.remove_collision C_BOTTOM c else c in
  if leaves_ceiling c then Character.remove_collision C_TOP c else c.

(** [vertical_movement_collision].  When a killing tile is met, the player
    has left its group ([player.kill()]) by the time [GameOver] is raised. *)
Definition vertical_movement_collision : method := fun l =>
  match player l with
  | None => (Raised AttributeError, l)
  | Some p =>
      match Player.apply_gravity p with
      | Raise e => (Raised e, set_player (Some (Player.accelerate p)) l)
      | Ok p =>
          match vertical_sweep (tiles l) p with
          | (None, group) => (Raised GameOver, set_player None (set_tiles group l))
          | (Some p, group) =>
              let p := Player.set_base (clear_vertical_flags (Player.base p)) p in
              (Returned, set_player (Some p) (set_tiles group l))
          end
      end
  end.

(** *** Saving *)

(** [get_save] *)
Definition get_save (l : t) : result Save.t :=
  p ← of_option AttributeError (player l);
  Ok {| Save.name := "Player 1"; Save.score := Player.score p; Save.level := 0;
        Save.map := level_data l; Save.created_at := "today" |}.

(** [update_db] *)
Definition update_db : method :=
  attempt (fun l =>
    s ← get_save l;
    Ok (print "Saved to database"
          (set_db (<[Save.name s := Save.to_json s]> (db l)) l))).

(** [save_to_api].  [response] is what [requests.post] comes back with:
    a status code, or nothing when the request itself raised. *)
Definition save_to_api (response : option Z) : method :=
  attempt (fun l =>
    _ ← get_save l;
    status_code ← of_option RequestException response;
    let l := print (pretty status_code) l in
    if status_code =? 200 then Ok (print "Saved" l) else Ok (print "Error" l)).

(** [save] *)
Definition save (response : option Z) : method :=
  update_db >> save_to_api response.

(** *** One frame *)

(** What one call of [run] reads from outside: the keys as the player
    reads them, the two readings of the clock a shot takes, the keys as
    the level reads them at the end of the frame, and the answer of the
    remote service to a save. *)
Record Input := {
  keys_player : Keys;
  time_now : Time;
  time_stamp : Time;
  keys_level : Keys;
  response : option Z
}.

(** [self.dust_sprite.update(self.world_shift)] *)
Definition update_dust : method :=
  attempt (fun l =>
    match dust_sprite l with
    | None => Ok l
    | Some d =>
        match ParticleEffect.update (world_shift l) d with
        | Ok (d, alive) => Ok (set_dust_sprite (if alive then Some d else None) l)
        | Raise e => Raise e
        end
    end).

(** [self.tiles.update(self.world_shift)] *)
Definition update_tiles : method :=
  modify (fun l => set_tiles (Square.update (world_shift l) <$> tiles l) l).

(** [self.player.update()]: the group updates the sprite it holds. *)
Definition update_player (A : Assets) (i : Input) : method :=
  attempt (fun l =>
    match player l with
    | None => Ok l
    | Some p =>
        r ← Player.update (create_jump_particles A)
              (keys_player i) (time_now i) (time_stamp i) p;
        let l := set_player (Some (fst r)) l in
        match snd r with
        | None => Ok l
        | Some jump_particle_sprite => Ok (set_dust_sprite (Some jump_particle_sprite) l)
        end
    end).

(** [for enemy in self.enemies: self.horizontal_movement_collision(enemy.sprite)] *)
Fixpoint enemies_horizontal (n : nat) (i : nat) : method :=
  match n with
  | O => ret
  | S n => horizontal_movement_collision (EnemyRef i) >> enemies_horizontal n (S i)
  end.

(** [display_enemies]: each group updates its sprite. *)
Fixpoint update_enemies (es : list (option Enemy.t)) : result (list (option Enemy.t)) :=
  match es with
  | [] => Ok []
  | None :: es => es' ← update_enemies es; Ok (None :: es')
  | Some e :: es => e' ← Enemy.update e; es' ← update_enemies es; Ok (Some e' :: es')
  end.
Definition display_enemies : method :=
  attempt (fun l => es ← update_enemies (enemies l); Ok (set_enemies es l)).

(** The end of [run]: the quit key and the save key. *)
Definition handle_level_keys (i : Input) : method := fun l =>
  if K_ESCAPE (keys_level i) then (Raised GameOver, l)
  else if K_s (keys_level i) then save (response i) l
  else (Returned, l).

(** [run], in two parts: the statements before the call of
    [vertical_movement_collision], and the whole. *)
Definition before_vertical (A : Assets) (i : Input) : method :=
  update_dust >>
  update_tiles >>
  handle_horizontal_movement >>
  update_player A i >>
  horizontal_movement_collision PlayerRef >>
  (fun l => enemies_horizontal (length (enemies l)) 0 l).

Definition run (A : Assets) (i : Input) : method :=
  before_vertical A i >>
  vertical_movement_collision >>
  create_landing_dust A >>
  display_enemies >>
  handle_level_keys i.

End Level.

(** ** game.py *)

Module Game.

(** How the event loop of [main] ended after some frames: it is still
    running (the frames given were all played), or it left through
    [SystemExit] or through another exception. *)
Inductive ending :=
| Running
| Exited (code : Z)
| Crashed (e : exn).

(** What one round of [while True] reads: whether a QUIT event is
    pending, and the input of [level.run]. *)
Record Frame := {
  quit_event : bool;
  input : Level.Input
}.

(** [main] over the frames [fs]: the ending, the level, and the number of
    calls of [level.run] that were made. *)
Fixpoint main (A : Assets) (fs : list Frame) (l : Level.t) : ending * Level.t * nat :=
  match fs with
  | [] => (Running, l, O)
  | f :: fs =>
      if quit_event f then (Exited 0, l, O)
      else
        match Level.run A (input f) l with
        | (Level.Returned, l') =>
            let '(e, l'', n) := main A fs l' in (e, l'', S n)
        | (Level.Raised GameOver, l') => (Exited 0, l', 1%nat)
        | (Level.Raised e, l') => (Crashed e, l', 1%nat)
        end
  end.

End Game.

(** ** tiles.py: tile sheets, and support.load_tiles *)

(** [range(n)] *)
Definition range (n : Z) : list Z := seqZ 0 n.

(** What consuming a generator gives: the values it yields, or the first
    exception one of its steps raises. *)
Fixpoint traverse {A B} (f : A -> result B) (l : list A) : result (list B) :=
  match l with
  | [] => Ok []
  | a :: l => b ← f a; bs ← traverse f l; Ok (b :: bs)
  end.

(** [a // b] on Python ints: floor division; [None] stands for the
    [ZeroDivisionError] of a zero divisor. *)
Definition floordiv (a b : Z) : option Z :=
  if b =? 0 then None else Some (a `div` b).

(** [sheet.subsurface((x, y, w, h))], for a rectangle of non-negative
    width and height: the part of the sheet it shows, as a rectangle on
    the sheet; [ValueError] when the rectangle is not inside the
    surface. *)
Definition subsurface (sheet : Image) (r : Rect.t) : result Rect.t :=
  if (Rect.x r <? 0) || (Rect.y r <? 0)
     || (img_w sheet <? Rect.x r + Rect.w r) || (img_h sheet <? Rect.y r + Rect.h r)
  then Raise ValueError
  else Ok r.

Module TileSheet.

Record t := {
  sheet : Image;
  tile_width : Z;
  tile_height : Z
}.

(** [TileSheet(filename, columns, rows)], where [sheet] is the image the
    file holds. *)
Definition new (sheet : Image) (columns rows : Z) : option t :=
  w ← floordiv (img_w sheet) columns;
  h ← floordiv (img_h sheet) rows;
  Some {| sheet := sheet; tile_width := w; tile_height := h |}.

(** [tile_at(x, y, x_off, y_off)] *)
Definition tile_at (s : t) (x y x_off y_off : Z) : result Rect.t :=
  subsurface (sheet s)
    {| Rect.x := x * tile_width s + x_off; Rect.y := y * tile_height s + y_off;
       Rect.w := tile_width s; Rect.h := tile_height s |}.

(** [list(self.all_tiles)]: the generator, consumed. *)
Definition all_tiles (s : t) : result (list Rect.t) :=
  rows ← traverse (fun y => traverse (fun x => tile_at s x y 0 0) (range (tile_width s)))
           (range (tile_height s));
  Ok (concat rows).

(** [MapTileSheet.square], [MapTileSheet.coin], [BulletTileSheet.bullet] *)
Definition square (s : t) : result Rect.t := tile_at s 1 0 0 0.
Definition coin (s : t) : result Rect.t := tile_at s 7 8 (-8) 0.
Definition bullet (s : t) : result Rect.t := tile_at s 15 15 0 0.

End TileSheet.

(** [list(load_tiles(filename, columns, rows))], where [sheet] is the
    image the file holds: [None] stands for the [ZeroDivisionError] of a
    zero [columns] or [rows]. *)
Definition load_tiles (sheet : Image) (columns rows : Z) : option (result (list Rect.t)) :=
  tile_width ← floordiv (img_w sheet) columns;
  tile_height ← floordiv (img_h sheet) rows;
  Some (grid ← traverse (fun j =>
                  traverse (fun i =>
                    subsurface sheet
                      {| Rect.x := i * tile_width; Rect.y := j * tile_height;
                         Rect.w := tile_width; Rect.h := tile_height |})
                    (range columns))
                (range rows);
        Ok (concat grid)).

(** ** JsonFile.py and server.py *)

(** The files on disk, by name. *)
Abbreviation Files := (gmap string string) (only parsing).

Module JsonFile.

Record t := {
  filename : string;
  data : string
}.

(** [create_file]: a file that does not exist is created empty. *)
Definition create_file (f : t) (fs : Files) : Files :=
  match fs !! filename f with
  | Some _ => fs
  | None => <[filename f := ""]> fs
  end.

(** [JsonFile(filename, data)] *)
Definition new (filename : string) (data : string) (fs : Files) : t * Files :=
  let f := {| filename := filename; data := data |} in
  (f, create_file f fs).

(** [save]: the file is opened with mode ["w"] and holds [self.data]. *)
Definition save (f : t) (fs : Files) : Files := <[filename f := data f]> fs.

(** [write(data)].  [str_of_dict] stands for the text [f"{data}"] of a
    dict. *)
Definition write (str_of_dict : gmap string json -> string) (d : gmap string json)
    (f : t) (fs : Files) : t * Files :=
  let f := {| filename := filename f; data := str_of_dict d +:+ String "010" "" |} in
  (f, save f fs).

End JsonFile.

Module Server.

(** The module's globals [saves] and [save_file], and the disk. *)
Record t := {
  saves : gmap string Save.t;
  save_file : JsonFile.t;
  files : Files
}.

(** The state after the module is loaded. *)
Definition start (fs : Files) : t :=
  let '(f, fs) := JsonFile.new "../save.json" "" fs in
  {| saves := ∅; save_file := f; files := fs |}.

(** [GET /save]: [saves[name]] *)
Definition save (name : string) (st : t) : result Save.t :=
  of_option KeyError (saves st !! name).

(** [POST /save] *)
Definition save_post (str_of_dict : gmap string json -> string) (_save : Save.t) (st : t)
    : Save.t * t :=
  let '(f, fs) := JsonFile.write str_of_dict (Save.to_json _save) (save_file st)
                    (files st) in
  (_save, {| saves := <[Save.name _save := _save]> (saves st);
             save_file := f; files := fs |}).

(** A run of posts, one after the other. *)
Definition posts (str_of_dict : gmap string json -> string) (l : list Save.t) (st : t) : t :=
  foldl (fun st s => snd (save_post str_of_dict s st)) st l.

End Server.

(** * Properties *)

(** ** What the specification's words denote *)

(** The state the specification assigns to a velocity: JUMP when the
    vertical velocity is negative, else FALL when it exceeds 1, else RUN
    when the horizontal velocity is not 0, else IDLE. *)
Definition state_of_velocity (v : Vector2) : PlayerState :=
  if (vy v <? 0)%float then JUMP
  else if (1 <? vy v)%float then FALL
  else if negb (vx v =? 0)%float then RUN
  else IDLE.

(** The time elapsed since the last successful shot, at a clock reading. *)
Definition elapsed (now : Time) (s : Shooter.t) : float :=
  (now - Shooter.last_shot s)%float.

(** [n] frames of a shooter: each frame runs [display_bullets] once. *)
Fixpoint ticks (n : nat) (s : Shooter.t) : result Shooter.t :=
  match n with
  | O => Ok s
  | S n => s' ← Shooter.display_bullets s; ticks n s'
  end.

(** The owner's list holds no bullet farther than 550 units from its
    spawn point: such bullets have been removed. *)
Definition out_of_range_removed (s : Shooter.t) : Prop :=
  Forall (fun b => Bullet.displacement b <= 550) (Shooter.bullets s).

(** A bullet farther than 550 units from its spawn point is dead. *)
Definition dead_if_out_of_range (b : Bullet.t) : Prop :=
  550 < Bullet.displacement b -> Bullet.is_alive b = false.

(** The six cell codes, and a layout made of them only. *)
Definition cell_codes : list ascii := [" "; "X"; "P"; "E"; "C"; "D"]%char.
Definition well_formed_layout (layout : list string) : Prop :=
  Forall (fun row => Forall (fun cell => cell ∈ cell_codes) (list_ascii_of_string row))
    layout.

(** The layout has a cell ['P']. *)
Definition has_player_cell (layout : list string) : Prop :=
  Exists (fun row => "P"%char ∈ list_ascii_of_string row) layout.

(** The cell in row [r] and column [c] of a layout. *)
Definition cell_at (layout : list string) (r c : nat) : option ascii :=
  row ← layout !! r; list_ascii_of_string row !! c.

(** What an ['E'] cell at pixel position [(x, y)] spawns, and the tile an
    ['X'] cell spawns there. *)
Definition enemy_at (A : Assets) (x y : Z) : Enemy.t :=
  Enemy.new A x (y - 64) (enemy_image A).
Definition enemy_floor_at (x y : Z) : Square.t :=
  Square.with_rect x y (Square.scaled 4 4 (Square.new Level.blank_surface true false false)).
Definition wall_at (A : Assets) (x y : Z) : Square.t :=
  Square.with_rect x y (Square.scaled 4 4 (Square.new (map_tile A) true false false)).

(** The three capabilities of a tile. *)
Definition capabilities (t : Square.t) : bool * bool * bool :=
  (Square.collides t, Square.collectable t, Square.kills t).

(** Two states of a character that differ at most in what a horizontal
    move may change: the rectangle's y, width and height, direction.y, the
    image, the orientation and the flags TOP and BOTTOM are the same. *)
Definition same_lane (c c' : Character.t) : Prop :=
  Rect.y (Character.rect c') = Rect.y (Character.rect c)
  ∧ Rect.w (Character.rect c') = Rect.w (Character.rect c)
  ∧ Rect.h (Character.rect c') = Rect.h (Character.rect c)
  ∧ Character.dy c' = Character.dy c
  ∧ Character.image c' = Character.image c
  ∧ Character.orientation c' = Character.orientation c
  ∧ (C_TOP ∈ Character.collisions c' <-> C_TOP ∈ Character.collisions c)
  ∧ (C_BOTTOM ∈ Character.collisions c' <-> C_BOTTOM ∈ Character.collisions c).

(** What one cell of a layout stands for, by its row and column: the tile
    it puts into the tile group, the enemy group it appends to
    [self.enemies], and the player it makes. *)
Definition tile_of_cell (A : Assets) (r c : nat) (cell : ascii) : option Square.t :=
  let x := Z.of_nat c * tile_size in
  let y := Z.of_nat r * tile_size in
  if decide (cell = "X"%char) then Some (wall_at A x y)
  else if decide (cell = "C"%char) then
    Some (Square.with_rect (x + 16) (y + 16)
            (Square.scaled 2 2 (Square.new (map_tile A) false true false)))
  else if decide (cell = "D"%char) then
    Some (Square.with_rect x y
            (Square.scaled 4 4 (Square.new Level.blank_surface true false true)))
  else if decide (cell = "E"%char) then Some (enemy_floor_at x y)
  else None.
Definition enemy_of_cell (A : Assets) (r c : nat) (cell : ascii)
    : option (option Enemy.t) :=
  if decide (cell = "E"%char)
  then Some (Some (enemy_at A (Z.of_nat c * tile_size) (Z.of_nat r * tile_size)))
  else None.
Definition player_of_cell (A : Assets) (r c : nat) (cell : ascii) : option Player.t :=
  if decide (cell = "P"%char)
  then Some (Player.new A (Z.of_nat c * tile_size) (Z.of_nat r * tile_size)
               (player_image A) (bullet_tile A))
  else None.

(** The things the cells of a layout stand for, row by row and within a
    row from left to right; rows count from [r0] and columns from [c0]. *)
Definition cells_of_row {X} (f : nat -> nat -> ascii -> option X) (r c0 : nat)
    (row : list ascii) : list X :=
  omap id (imap (fun c cell => f r (c0 + c)%nat cell) row).
Definition cells_from {X} (f : nat -> nat -> ascii -> option X) (r0 : nat)
    (layout : list string) : list X :=
  mjoin (imap (fun r row => cells_of_row f (r0 + r)%nat 0 (list_ascii_of_string row))
           layout).
Definition cells_of {X} (f : nat -> nat -> ascii -> option X) (layout : list string)
    : list X :=
  cells_from f 0 layout.

(** What a frame keeps of a level [l] in the level [l'] it leaves: the
    layout, the number of enemy groups, every database entry but the one
    of the save's name; it adds no tile; and a player still in its group
    was there before and has scored one point for each tile that left the
    tile group. *)
Definition frame_keeps (l l' : Level.t) : Prop :=
  Level.level_data l' = Level.level_data l
  ∧ length (Level.enemies l') = length (Level.enemies l)
  ∧ (length (Level.tiles l') <= length (Level.tiles l))%nat
  ∧ (forall k, k ≠ "Player 1" -> Level.db l' !! k = Level.db l !! k)
  ∧ (forall p', Level.player l' = Some p' ->
       exists p, Level.player l = Some p
         ∧ Player.score p' = Player.score p
             + (Z.of_nat (length (Level.tiles l)) - Z.of_nat (length (Level.tiles l')))).

(** A method keeps these however it ends. *)
Definition keeps (m : Level.method) : Prop :=
  forall l o l', m l = (o, l') -> frame_keeps l l'.

(** A result, and a method, that does not raise [GameOver]. *)
Definition calm {A} (r : result A) : Prop := r ≠ Raise GameOver.
Definition quiet (m : Level.method) : Prop :=
  forall l e l', m l = (Level.Raised e, l') -> e ≠ GameOver.

(** The values a dict holds at the five keys of a save are of their
    fields' types. *)
Definition of_field_types (j : gmap string json) : Prop :=
  (exists s, j !! "name" = Some (JStr s))
  ∧ (exists z, j !! "score" = Some (JInt z))
  ∧ (exists z, j !! "level" = Some (JInt z))
  ∧ (exists rows, j !! "map" = Some (JList (JStr <$> rows)))
  ∧ (exists s, j !! "created_at" = Some (JStr s)).

(** The anchor as the specification words it: what a snap records in
    [current_x] is the edge of the tile the character is snapped to. *)
Definition anchor_is_snapped_edge (character : Level.objref) (sprite : Square.t)
    (s : Level.hsweep) : Prop :=
  let after := Level.collide_tile character sprite s in
  ((Character.dx (Level.hs_char s) <? 0)%float = true ->
     Level.hs_current_x after = Rect.right (Square.rect sprite))
  ∧ ((0 <? Character.dx (Level.hs_char s))%float = true ->
       Level.hs_current_x after = Rect.left (Square.rect sprite)).

(** The five keys of a serialized save. *)
Definition save_keys : gset string :=
  {[ "name"; "score"; "level"; "map"; "created_at" ]}.

(** ** Sample data *)

Definition sample_image : Image := {| img_w := 16; img_h := 16 |}.

(** Assets of plausible sizes: 16 by 16 sheet tiles, a few frames per
    animation. *)
Definition sample_assets : Assets :=
  {| map_tile := sample_image;
     bullet_tile := sample_image;
     player_image := {| img_w := 32; img_h := 56 |};
     enemy_image := {| img_w := 40; img_h := 40 |};
     player_frames := fun _ => [{| img_w := 32; img_h := 56 |}; {| img_w := 32; img_h := 56 |}];
     dust_frames := [{| img_w := 8; img_h := 8 |}];
     enemy_frames := [{| img_w := 40; img_h := 40 |}];
     particle_frames := fun _ => [{| img_w := 8; img_h := 8 |}; {| img_w := 8; img_h := 8 |}] |}.

(** The layout of the specification's scenario, one without a player, and
    one with every kind of cell. *)
Definition sample_layout : list string := ["X X"; "XPX"; "XXX"].
Definition playerless_layout : list string := ["X X"; "X X"; "XXX"].
Definition full_layout : list string := ["X   E"; "XPC D"; "XXXXX"].

(** A level with nothing in it, and the level of a result (the empty one
    for an exception). *)
Definition blank_level : Level.t :=
  {| Level.level_data := []; Level.enemies := []; Level.tiles := [];
     Level.player := None; Level.world_shift := 0; Level.current_x := 0;
     Level.landed := false; Level.dust_sprite := None; Level.db := ∅;
     Level.stdout := [] |}.
Definition level_of (r : result Level.t) : Level.t :=
  match r with Ok l => l | Raise _ => blank_level end.

(** The player of a level moved to [(x, y)] with horizontal direction [d],
    and the enemies of a level given the horizontal direction [d]. *)
Definition place_player (x y : Z) (d : float) (l : Level.t) : Level.t :=
  Level.set_player
    (option_map
       (fun p =>
          let c := Player.base p in
          Player.set_base
            (Character.set_dx d
               (Character.set_rect (Rect.set_y y (Rect.set_x x (Character.rect c))) c)) p)
       (Level.player l)) l.

(** The levels built from the sample layouts. *)
Definition sample_level : Level.t :=
  level_of (Level.new sample_assets full_layout ∅).
Definition hazard_level : Level.t :=
  level_of (Level.new sample_assets ["X   "; "XP D"; "XXXX"] ∅).


Definition hazard_walker : Level.t := place_player 168 64 1 hazard_level.

(** The player of the sample level walking left into the wall beside it. *)
Definition left_mover : Level.t := place_player 64 64 (-1) sample_level.

(** No key pressed, the right key held, and the frames that come of them. *)
Definition no_keys : Keys :=
  {| K_RIGHT := false; K_LEFT := false; K_UP := false; K_SPACE := false;
     K_ESCAPE := false; K_s := false |}.
Definition right_key : Keys :=
  {| K_RIGHT := true; K_LEFT := false; K_UP := false; K_SPACE := false;
     K_ESCAPE := false; K_s := false |}.
Definition frame_of (keys : Keys) : Game.Frame :=
  {| Game.quit_event := false;
     Game.input := {| Level.keys_player := keys; Level.time_now := 1000;
                      Level.time_stamp := 1000; Level.keys_level := no_keys;
                      Level.response := Some 200 |} |}.

(** A bullet as [shoot] makes it, and its shooter. *)
Definition sample_bullet : Bullet.t :=
  Bullet.new 100 50 sample_image RIGHT (Speeds_value BULLET_SPEED).
Definition sample_shooter : Shooter.t :=
  {| Shooter.bullets := [sample_bullet]; Shooter.last_shot := 0 |}.

(** The player of the sample level standing over the coin, and falling
    onto the floor, one unit into it. *)
Definition coin_taker : Level.t := place_player 120 64 0 sample_level.
Definition faller : Level.t := place_player 64 73 0 sample_level.

(** A wall tile at (0, 64), a character overlapping it from the right and
    moving left, and the state of a horizontal sweep that holds it. *)
Definition sample_wall : Square.t := wall_at sample_assets 0 64.
Definition sample_walker : Character.t :=
  Character.set_dx (-1) (Character.new 60 64 (player_image sample_assets) PLAYER_MOVEMENT).
Definition sample_sweep : Level.hsweep :=
  {| Level.hs_char := sample_walker; Level.hs_current_x := 0;
     Level.hs_stdout := []; Level.hs_killed := false |}.

(** A bullet through [n] rounds of the loop of [display_bullets]. *)
Fixpoint fly (n : nat) (b : Bullet.t) : result Bullet.t :=
  match n with
  | O => Ok b
  | S n => b' ← Shooter.display_bullet b; fly n b'
  end.

(** The sign of an orientation on the x axis. *)
Definition heading (o : Orientation) : Z :=
  match o with RIGHT => 1 | LEFT => -1 end.

(** Two levels that differ in one cell, above and to the right of the
    player: an enemy cell in the one, a wall cell in the other.  And the
    player's rectangle after [n] frames of play with the right key held. *)
Definition enemy_corner : Level.t :=
  level_of (Level.new sample_assets ["    E"; "P    "; "XXXXX"] ∅).
Definition wall_corner : Level.t :=
  level_of (Level.new sample_assets ["    X"; "P    "; "XXXXX"] ∅).
Definition walk_right (n : nat) (l : Level.t) : Game.ending * option Rect.t :=
  let '(e, l', _) := Game.main sample_assets (replicate n (frame_of right_key)) l in
  (e, option_map (fun p => Character.rect (Player.base p)) (Level.player l')).

(** ** Facts about float comparisons *)

Lemma float_neg_not_pos (x : float) : (x <? 0)%float = true -> (0 <? x)%float = false.
Proof.
  rewrite !ltb_spec. change (Prim2SF 0) with (S754_zero false).
  destruct (Prim2SF x) as [[]|[]| |[] m e]; cbn; congruence.
Qed.

Lemma float_pos_not_neg (x : float) : (0 <? x)%float = true -> (x <? 0)%float = false.
Proof.
  intros H. destruct (x <? 0)%float eqn:E; [|done].
  apply float_neg_not_pos in E. congruence.
Qed.

(** ** Player.update_status *)

(** C3: [update_status] sets the state to a function of the velocity alone,
    for every velocity (NaN included): JUMP when direction.y < 0, else FALL
    when direction.y > 1, else RUN when direction.x != 0, else IDLE; and it
    changes nothing else of the player. *)
Theorem update_status_of_velocity (p : Player.t) :
  let v := Character.direction (Player.base p) in
  Player.update_status p = Player.set_status (state_of_velocity v) p
  ∧ Player.status (Player.update_status p) = state_of_velocity v
  ∧ ((vy v <? 0)%float = true -> Player.status (Player.update_status p) = JUMP)
  ∧ ((vy v <? 0)%float = false -> (1 <? vy v)%float = true ->
       Player.status (Player.update_status p) = FALL)
  ∧ ((vy v <? 0)%float = false -> (1 <? vy v)%float = false ->
       (vx v =? 0)%float = false -> Player.status (Player.update_status p) = RUN)
  ∧ ((vy v <? 0)%float = false -> (1 <? vy v)%float = false ->
       (vx v =? 0)%float = true -> Player.status (Player.update_status p) = IDLE)
  ∧ (forall q : Player.t,
       Character.direction (Player.base q) = v ->
       Player.status (Player.update_status q) = Player.status (Player.update_status p)).
Proof.
  intros v.
  assert (Hdef : forall q, Character.direction (Player.base q) = v ->
            Player.update_status q = Player.set_status (state_of_velocity v) q).
  { intros q Hq. unfold Player.update_status, state_of_velocity,
      PyNum.lt, PyNum.gt, PyNum.ne, Character.dx, Character.dy.
    rewrite Hq.
    destruct (vy v <? 0)%float; [done|].
    destruct (1 <? vy v)%float; [done|].
    by destruct (vx v =? 0)%float. }
  assert (Hst : Player.status (Player.update_status p) = state_of_velocity v)
    by (by rewrite Hdef).
  split_and!; [by apply Hdef | done | | | | | ].
  - intros E. rewrite Hst. unfold state_of_velocity. by rewrite E.
  - intros E1 E2. rewrite Hst. unfold state_of_velocity. by rewrite E1, E2.
  - intros E1 E2 E3. rewrite Hst. unfold state_of_velocity. by rewrite E1, E2, E3.
  - intros E1 E2 E3. rewrite Hst. unfold state_of_velocity. by rewrite E1, E2, E3.
  - intros q Hq. by rewrite Hst, (Hdef q Hq).
Qed.

(** The two velocities the specification names: just after a jump, and at
    rest. *)
Example state_just_jumped :
  state_of_velocity {| vx := 0; vy := PyNum.to_float (Speeds_value PLAYER_JUMP) |} = JUMP
  ∧ state_of_velocity {| vx := 0; vy := 0 |} = IDLE
  ∧ state_of_velocity {| vx := 1; vy := 2 |} = FALL
  ∧ state_of_velocity {| vx := nan; vy := nan |} = RUN.
Proof. by vm_compute. Qed.

(** ** Save *)

Lemma as_strs_fmap (c : Save.lax) (l : list string) :
  Save.as_strs c (JStr <$> l) = Ok l.
Proof.
  induction l as [|s l IH]; [done|].
  cbn. rewrite IH. done.
Qed.

(** C9: a save read back from its serialization is the save itself, for
    every record (an empty map and empty rows included) and whatever the
    validating library makes of values that are not of their field's
    type, and the serialization has exactly the five keys name, score,
    level, map and created_at. *)
Theorem save_round_trip (c : Save.lax) (s : Save.t) :
  Save.from_json c (Save.to_json s) = Ok s
  ∧ dom (Save.to_json s) = save_keys
  ∧ size (Save.to_json s) = 5%nat.
Proof.
  split_and!.
  - unfold Save.from_json, Save.getitem, Save.to_json.
    repeat (rewrite ?lookup_insert_eq; rewrite ?lookup_insert_ne by done).
    cbn. rewrite as_strs_fmap. cbn. by destruct s.
  - unfold Save.to_json, save_keys.
    rewrite !dom_insert_L, dom_empty_L. set_solver.
  - unfold Save.to_json.
    repeat (rewrite map_size_insert_None;
            [| repeat (rewrite ?lookup_insert_ne by done); apply lookup_empty]).
    by rewrite map_size_empty.
Qed.

Example save_round_trip_empty_rows :
  let s := {| Save.name := ""; Save.score := -3; Save.level := 0;
              Save.map := [""; "X P"; ""]; Save.created_at := "today" |} in
  let e := {| Save.name := "first"; Save.score := 0; Save.level := 1;
              Save.map := []; Save.created_at := "" |} in
  forall c, Save.from_json c (Save.to_json s) = Ok s
            ∧ Save.from_json c (Save.to_json e) = Ok e.
Proof. intros s e c. by vm_compute. Qed.

(** ** Shooter.shoot *)

Lemma shoot_fires x y o now stamp img speed (s : Shooter.t) :
  (0.18 <? elapsed now s)%float = true ->
  Shooter.shoot x y o now stamp img speed s =
    {| Shooter.bullets := Shooter.bullets s ++ [Bullet.new x y img o (Speeds_value speed)];
       Shooter.last_shot := stamp |}.
Proof.
  intros H. unfold Shooter.shoot, Shooter.cooled_down, PyNum.gt.
  change (PyNum.to_float (Speeds_value SHOOT_DELAY)) with 0.18%float.
  unfold elapsed in H. by rewrite H.
Qed.

Lemma shoot_dropped x y o now stamp img speed (s : Shooter.t) :
  (0.18 <? elapsed now s)%float = false ->
  Shooter.shoot x y o now stamp img speed s = s.
Proof.
  intros H. unfold Shooter.shoot, Shooter.cooled_down, PyNum.gt.
  change (PyNum.to_float (Speeds_value SHOOT_DELAY)) with 0.18%float.
  unfold elapsed in H. by rewrite H.
Qed.

(** C5: a shot is fired exactly when the time since the last successful
    shot strictly exceeds 0.18 s.  Then exactly one bullet is appended, at
    the player's (x, y, orientation), alive, and the timestamp is reset to
    the clock; otherwise the player, bullet list and timestamp included,
    is left as it was.  So a second request 0.05 s after a successful one
    adds nothing, and one 0.2 s after it adds a second bullet. *)
Theorem shoot_cooldown (p : Player.t) (now stamp : Time) (img : Image) (speed : Speeds) :
  let s := Player.shooter p in
  let p' := Player.shoot now stamp img speed p in
  let s' := Player.shooter p' in
  ((0.18 <? elapsed now s)%float = true ->
     (exists b, Shooter.bullets s' = Shooter.bullets s ++ [b]
        ∧ Rect.x (Bullet.rect b) = Player.x p ∧ Rect.y (Bullet.rect b) = Player.y p
        ∧ Bullet.spawn_x b = Player.x p ∧ Bullet.spawn_y b = Player.y p
        ∧ Bullet.orientation b = Player.orientation p
        ∧ Bullet.speed b = Speeds_value speed ∧ Bullet.is_alive b = true)
     ∧ Shooter.last_shot s' = stamp)
  ∧ ((0.18 <? elapsed now s)%float = false -> p' = p)
  ∧ (length (Shooter.bullets s') = S (length (Shooter.bullets s))
       <-> (0.18 <? elapsed now s)%float = true)
  ∧ (forall now2 stamp2 : Time,
       (0.18 <? elapsed now s)%float = true ->
       let s2 := Player.shooter (Player.shoot now2 stamp2 img speed p') in
       (elapsed now2 s' = 0.05%float ->
          length (Shooter.bullets s2) = S (length (Shooter.bullets s)))
       ∧ (elapsed now2 s' = 0.2%float ->
          length (Shooter.bullets s2) = S (S (length (Shooter.bullets s))))).
Proof.
  intros s p' s'.
  assert (Hfire : (0.18 <? elapsed now s)%float = true ->
            s' = {| Shooter.bullets := Shooter.bullets s ++
                      [Bullet.new (Player.x p) (Player.y p) img (Player.orientation p)
                         (Speeds_value speed)];
                    Shooter.last_shot := stamp |}).
  { intros H. subst s' p'. unfold Player.shoot. cbn. by apply shoot_fires. }
  assert (Hdrop : (0.18 <? elapsed now s)%float = false -> p' = p).
  { intros H. subst p'. unfold Player.shoot.
    rewrite shoot_dropped by done. by destruct p. }
  split_and!.
  - intros H. rewrite (Hfire H). cbn. split; [|done].
    eexists. split; [done|]. by cbn.
  - done.
  - split.
    + intros Hlen. destruct (0.18 <? elapsed now s)%float eqn:E; [done|].
      subst s'. rewrite (Hdrop eq_refl) in Hlen. subst s. lia.
    + intros H. rewrite (Hfire H). cbn. rewrite length_app. cbn. lia.
  - intros now2 stamp2 H s2.
    assert (Hs2 : s2 = Shooter.shoot (Player.x p') (Player.y p') (Player.orientation p')
                         now2 stamp2 img speed s') by done.
    rewrite Hs2. pose proof (Hfire H) as Hf. clearbody s'.
    split; intros E.
    + rewrite shoot_dropped by (by rewrite E).
      rewrite Hf. cbn. rewrite length_app. cbn. lia.
    + rewrite shoot_fires by (by rewrite E). cbn.
      rewrite Hf. cbn. rewrite !length_app. cbn. lia.
Qed.

(** Two presses of the shoot key 0.05 s apart give one bullet, two presses
    0.2 s apart give two (clock readings in seconds since the epoch). *)
Example shoot_twice :
  let p := Player.new sample_assets 64 64 (player_image sample_assets) sample_image in
  let shots (t1 t2 : Time) :=
    length (Shooter.bullets (Player.shooter
      (Player.shoot t2 t2 sample_image BULLET_SPEED
         (Player.shoot t1 t1 sample_image BULLET_SPEED p)))) in
  shots 1700000000%float 1700000000.05%float = 1%nat
  ∧ shots 1700000000%float 1700000000.2%float = 2%nat
  ∧ shots 0.1%float 0.15%float = 0%nat.
Proof. by vm_compute. Qed.

(** ** Bullet.update and Shooter.display_bullets *)

Lemma update_dead_if_out_of_range (b b' : Bullet.t) :
  Bullet.update b = Ok b' ->
  550 < Bullet.displacement b' ->
  Bullet.is_alive b' = false ∧ Bullet.groups b' = 0%nat.
Proof.
  unfold Bullet.update. intros H Hfar.
  destruct (if decide (Bullet.orientation b = LEFT) then _ else _) as [r|e]; [|done].
  cbn in H.
  destruct (550 <? Bullet.displacement (Bullet.set_rect r b)) eqn:E.
  - by injection H as <-.
  - injection H as <-. apply Z.ltb_ge in E. lia.
Qed.

Lemma update_int_speed (b : Bullet.t) (z : Z) :
  Bullet.speed b = PyNum.PInt z -> exists b', Bullet.update b = Ok b'.
Proof.
  intros Hz. unfold Bullet.update, Bullet.rect_x_sub, Bullet.rect_x_add.
  rewrite Hz. destruct (decide _); cbn; destruct (550 <? _); eauto.
Qed.

Lemma display_each_spec (bs bs' : list Bullet.t) :
  Shooter.display_each bs = Ok bs' ->
  Forall2 (fun b b' => Shooter.display_bullet b = Ok b') bs bs'.
Proof.
  revert bs'. induction bs as [|b bs IH]; intros bs' H; cbn in H.
  - injection H as <-. constructor.
  - destruct (Shooter.display_bullet b) as [b1|] eqn:Eb; [|done]. cbn in H.
    destruct (Shooter.display_each bs) as [bs1|]; [|done]. cbn in H.
    injection H as <-. constructor; [done|]. by apply IH.
Qed.

Lemma display_bullets_spec (s s' : Shooter.t) :
  Shooter.display_bullets s = Ok s' ->
  Forall2 (fun b b' => Shooter.display_bullet b = Ok b')
    (Shooter.bullets s) (Shooter.bullets s')
  ∧ Shooter.last_shot s' = Shooter.last_shot s.
Proof.
  unfold Shooter.display_bullets. intros H.
  destruct (Shooter.display_each (Shooter.bullets s)) as [bs|] eqn:E; [|done].
  cbn in H. injection H as <-. cbn. split; [|done]. by apply display_each_spec.
Qed.

(** C4, as the code has it: after any update step that leaves a bullet
    more than 550 units from its spawn x, the bullet is dead (its liveness
    flag is false) and belongs to no sprite group, so that it is not drawn;
    a fresh bullet is in range; so at every tick a bullet out of range is
    dead.  The owner's bullet list is never shortened: every frame keeps
    its length, dead bullets included. *)
Theorem out_of_range_bullet_is_dead (n : nat) (s s' : Shooter.t) :
  Forall dead_if_out_of_range (Shooter.bullets s) ->
  ticks n s = Ok s' ->
  Forall dead_if_out_of_range (Shooter.bullets s')
  ∧ length (Shooter.bullets s') = length (Shooter.bullets s)
  ∧ (forall b b' : Bullet.t,
       Shooter.display_bullet b = Ok b' -> 550 < Bullet.displacement b' ->
       Bullet.is_alive b' = false ∧ Bullet.groups b' = 0%nat
       ∧ Shooter.drawn b' = false)
  ∧ (forall x y img o speed, dead_if_out_of_range (Bullet.new x y img o speed)).
Proof.
  intros Hs Hn.
  assert (Hstep : forall b b', Shooter.display_bullet b = Ok b' ->
            550 < Bullet.displacement b' ->
            Bullet.is_alive b' = false ∧ Bullet.groups b' = 0%nat).
  { intros b b' H Hfar. unfold Shooter.display_bullet in H.
    by eapply update_dead_if_out_of_range. }
  split_and!; [| | |].
  3:{ intros b b' H Hfar. destruct (Hstep b b' H Hfar) as [Ha Hg].
      split_and!; [done|done|]. unfold Shooter.drawn. by rewrite Hg. }
  - revert s Hs Hn. induction n as [|n IH]; intros s Hs Hn; cbn in Hn.
    + by injection Hn as <-.
    + destruct (Shooter.display_bullets s) as [s1|] eqn:E; [|done]. cbn in Hn.
      apply (IH s1); [|done].
      apply display_bullets_spec in E as [E _].
      clear -E Hstep. induction E as [|b b' bs bs' Hb _ IHE]; constructor; [|done].
      intros Hfar. by destruct (Hstep b b' Hb Hfar).
  - clear Hs. revert s Hn. induction n as [|n IH]; intros s Hn; cbn in Hn.
    + by injection Hn as <-.
    + destruct (Shooter.display_bullets s) as [s1|] eqn:E; [|done]. cbn in Hn.
      rewrite (IH s1 Hn).
      apply display_bullets_spec in E as [E _].
      symmetry. by eapply Forall2_length.
  - intros x y img o speed. unfold dead_if_out_of_range, Bullet.displacement. cbn. lia.
Qed.

Lemma out_of_range_bullet_is_dead_witness :
  exists s' : Shooter.t,
    ticks 79 sample_shooter = Ok s'
    ∧ Forall dead_if_out_of_range (Shooter.bullets s')
    ∧ length (Shooter.bullets s') = length (Shooter.bullets sample_shooter).
Proof.
  eexists. split; [by vm_compute|].
  refine (let H := out_of_range_bullet_is_dead 79 sample_shooter _ _ _ in
          conj (proj1 H) (proj1 (proj2 H))).
  - constructor; [|constructor].
    intros H. exfalso. revert H. by vm_compute.
  - by vm_compute.
Defined.

(** C4 as stated fails: a bullet shot to the right at speed 7 is 553 units
    from its spawn point after 79 frames, and it is still in its owner's
    list, dead. *)
Lemma dead_bullet_stays_listed :
  exists (s' : Shooter.t) (b : Bullet.t),
    ticks 79 sample_shooter = Ok s'
    ∧ Shooter.bullets s' = [b]
    ∧ Bullet.displacement b = 553
    ∧ Bullet.is_alive b = false
    ∧ ¬ out_of_range_removed s'.
Proof.
  do 2 eexists. split; [by vm_compute|]. split; [done|].
  split; [by vm_compute|]. split; [done|].
  unfold out_of_range_removed. cbn. intros H.
  apply Forall_cons in H as [H _]. revert H. by vm_compute.
Qed.

(** ** Level.spawn_sprites *)

Lemma cell_codes_cases (cell : ascii) :
  cell ∈ cell_codes ->
  cell = " "%char ∨ cell = "X"%char ∨ cell = "P"%char
  ∨ cell = "E"%char ∨ cell = "C"%char ∨ cell = "D"%char.
Proof.
  unfold cell_codes. rewrite !elem_of_cons, elem_of_nil. tauto.
Qed.

(** A cell of the six codes is spawned without error; only a ['P'] sets the
    player. *)
Lemma spawn_cell_ok A r c cell acc :
  cell ∈ cell_codes ->
  exists acc', Level.spawn_cell A r c cell acc = Ok acc'
    ∧ (cell = "P"%char -> is_Some (Level.sp_player acc'))
    ∧ (cell ≠ "P"%char -> Level.sp_player acc' = Level.sp_player acc).
Proof.
  intros H. apply cell_codes_cases in H.
  destruct H as [->|[->|[->|[->|[->| ->]]]]];
    (eexists; split; [reflexivity|]; cbn; split; intros; by eauto).
Qed.

Lemma spawn_row_ok A r c row acc :
  Forall (fun cell => cell ∈ cell_codes) row ->
  exists acc', Level.spawn_row A r c row acc = Ok acc'
    ∧ ("P"%char ∈ row ∨ is_Some (Level.sp_player acc) -> is_Some (Level.sp_player acc'))
    ∧ ("P"%char ∉ row -> Level.sp_player acc' = Level.sp_player acc).
Proof.
  intros Hrow. revert c acc.
  induction Hrow as [|cell row Hcell _ IH]; intros c acc; cbn.
  - eexists. split; [done|]. split; [|done].
    intros [H|H]; [by apply elem_of_nil in H | done].
  - destruct (spawn_cell_ok A r c cell acc Hcell) as (acc1 & -> & HP & HnP). cbn.
    destruct (IH (S c) acc1) as (acc2 & -> & Hyes & Hno).
    eexists. split; [done|]. split.
    + intros [Hin|Hsome]; apply Hyes.
      * apply elem_of_cons in Hin as [<-|Hin]; [right; by apply HP | by left].
      * destruct (decide (cell = "P"%char)) as [->|Hne]; right;
          [by apply HP | by rewrite HnP].
    + intros Hnot. apply not_elem_of_cons in Hnot as [Hne Hnot].
      rewrite Hno by done. by apply HnP.
Qed.

Lemma spawn_rows_ok A r layout acc :
  well_formed_layout layout ->
  exists acc', Level.spawn_rows A r layout acc = Ok acc'
    ∧ (has_player_cell layout ∨ is_Some (Level.sp_player acc) ->
         is_Some (Level.sp_player acc'))
    ∧ (¬ has_player_cell layout -> Level.sp_player acc' = Level.sp_player acc).
Proof.
  unfold well_formed_layout, has_player_cell.
  intros Hwf. revert r acc.
  induction Hwf as [|row layout Hrow _ IH]; intros r acc; cbn.
  - eexists. split; [done|]. split; [|done].
    intros [H|H]; [by apply Exists_nil in H | done].
  - destruct (spawn_row_ok A r 0 _ acc Hrow) as (acc1 & -> & Hyes1 & Hno1). cbn.
    destruct (IH (S r) acc1) as (acc2 & -> & Hyes & Hno).
    eexists. split; [done|]. split.
    + intros [HP|Hsome]; apply Hyes.
      * apply Exists_cons in HP as [HP|HP]; [right; apply Hyes1; by left | by left].
      * right. apply Hyes1. by right.
    + intros Hnot. rewrite Exists_cons in Hnot. rewrite Hno by tauto.
      apply Hno1. tauto.
Qed.

(** C8: on a layout made of the six cell codes, [spawn_sprites] raises
    exactly when no cell is ['P'], and what it raises is the [ValueError]
    of a missing player; with a ['P'] cell it returns the tile group and a
    player group holding the player. *)
Theorem spawn_sprites_needs_player (A : Assets) (layout : list string)
    (enemies : list (option Enemy.t)) :
  well_formed_layout layout ->
  ((exists e, Level.spawn_sprites A layout enemies = Raise e) <-> ¬ has_player_cell layout)
  ∧ (¬ has_player_cell layout -> Level.spawn_sprites A layout enemies = Raise ValueError)
  ∧ (has_player_cell layout ->
       exists tiles player_sprite enemies',
         Level.spawn_sprites A layout enemies = Ok (tiles, Some player_sprite, enemies')).
Proof.
  intros Hwf. unfold Level.spawn_sprites.
  destruct (spawn_rows_ok A 0 layout
              {| Level.sp_tiles := []; Level.sp_player := None;
                 Level.sp_enemies := enemies |} Hwf) as (acc & -> & Hyes & Hno).
  cbn in *.
  assert (Hraise : ¬ has_player_cell layout ->
            match Level.sp_player acc with
            | Some player_sprite =>
                Ok (Level.sp_tiles acc, Some player_sprite, Level.sp_enemies acc)
            | None => Raise ValueError
            end = Raise ValueError) by (intros H; by rewrite (Hno H)).
  assert (Hok : has_player_cell layout ->
            exists tiles player_sprite enemies',
              match Level.sp_player acc with
              | Some player_sprite =>
                  Ok (Level.sp_tiles acc, Some player_sprite, Level.sp_enemies acc)
              | None => Raise ValueError
              end = Ok (tiles, Some player_sprite, enemies')).
  { intros H. destruct (Hyes (or_introl H)) as [p ->]. eauto. }
  split_and!; [|done|done].
  split.
  - intros [e He] HP. destruct (Hok HP) as (? & ? & ? & Heq). congruence.
  - intros H. exists ValueError. by apply Hraise.
Qed.

Lemma spawn_sprites_needs_player_witness :
  well_formed_layout sample_layout
  ∧ (exists tiles player_sprite enemies',
       Level.spawn_sprites sample_assets sample_layout [] =
         Ok (tiles, Some player_sprite, enemies'))
  ∧ well_formed_layout playerless_layout
  ∧ Level.spawn_sprites sample_assets playerless_layout [] = Raise ValueError.
Proof.
  assert (Hwf : well_formed_layout sample_layout)
    by (apply (bool_decide_unpack _); by vm_compute).
  assert (Hwf' : well_formed_layout playerless_layout)
    by (apply (bool_decide_unpack _); by vm_compute).
  split_and!; [done| |done|].
  - apply (spawn_sprites_needs_player sample_assets sample_layout [] Hwf).
    apply (bool_decide_unpack _). by vm_compute.
  - apply (spawn_sprites_needs_player sample_assets playerless_layout [] Hwf').
    apply (bool_decide_unpack _). by vm_compute.
Defined.

(** A cell outside the six codes makes [CellType(cell)] raise, player or
    no player. *)
Example spawn_sprites_unknown_cell :
  Level.spawn_sprites sample_assets ["XPZ"] [] = Raise ValueError
  ∧ Level.spawn_sprites sample_assets ["XP "] [] ≠ Raise ValueError.
Proof. split; [by vm_compute|]. by vm_compute. Qed.

Lemma spawn_cell_grows A r c cell acc acc' :
  Level.spawn_cell A r c cell acc = Ok acc' ->
  Level.sp_tiles acc `prefix_of` Level.sp_tiles acc'
  ∧ Level.sp_enemies acc `prefix_of` Level.sp_enemies acc'.
Proof.
  unfold Level.spawn_cell. destruct (CellType_of cell) as [[]|]; cbn; [..|done];
    intros [= <-]; cbn; split; try done; by apply prefix_app_r.
Qed.

Lemma spawn_row_grows A r c row acc acc' :
  Level.spawn_row A r c row acc = Ok acc' ->
  Level.sp_tiles acc `prefix_of` Level.sp_tiles acc'
  ∧ Level.sp_enemies acc `prefix_of` Level.sp_enemies acc'.
Proof.
  revert c acc. induction row as [|cell row IH]; intros c acc; cbn.
  - by intros [= <-].
  - destruct (Level.spawn_cell A r c cell acc) as [acc1|] eqn:E; [|done]. cbn.
    intros H. apply spawn_cell_grows in E as [E1 E2].
    apply IH in H as [H1 H2]. split; by etrans.
Qed.

Lemma spawn_rows_grows A r layout acc acc' :
  Level.spawn_rows A r layout acc = Ok acc' ->
  Level.sp_tiles acc `prefix_of` Level.sp_tiles acc'
  ∧ Level.sp_enemies acc `prefix_of` Level.sp_enemies acc'.
Proof.
  revert r acc. induction layout as [|row layout IH]; intros r acc; cbn.
  - by intros [= <-].
  - destruct (Level.spawn_row A r 0 _ acc) as [acc1|] eqn:E; [|done]. cbn.
    intros H. apply spawn_row_grows in E as [E1 E2].
    apply IH in H as [H1 H2]. split; by etrans.
Qed.

Lemma elem_of_prefix {X} (x : X) (l1 l2 : list X) :
  l1 `prefix_of` l2 -> x ∈ l1 -> x ∈ l2.
Proof. intros [k ->] H. apply elem_of_app. by left. Qed.

Lemma spawn_row_enemy A r c row acc acc' (j : nat) :
  Level.spawn_row A r c row acc = Ok acc' ->
  row !! j = Some "E"%char ->
  let x := Z.of_nat (c + j) * tile_size in
  let y := Z.of_nat r * tile_size in
  Some (enemy_at A x y) ∈ Level.sp_enemies acc'
  ∧ enemy_floor_at x y ∈ Level.sp_tiles acc'.
Proof.
  revert c acc j. induction row as [|cell row IH]; intros c acc j; cbn; [done|].
  destruct (Level.spawn_cell A r c cell acc) as [acc1|] eqn:E; [|done]. cbn.
  intros H Hj. destruct j as [|j]; cbn in Hj.
  - injection Hj as ->. rewrite Nat.add_0_r.
    cbn in E. injection E as <-.
    apply spawn_row_grows in H as [H1 H2]. cbn in H1, H2.
    split; (eapply elem_of_prefix; [done|]); apply elem_of_app; right; by left.
  - replace (c + S j)%nat with (S c + j)%nat by lia. by eapply IH.
Qed.

Lemma spawn_rows_enemy A r layout acc acc' (i j : nat) :
  Level.spawn_rows A r layout acc = Ok acc' ->
  cell_at layout i j = Some "E"%char ->
  let x := Z.of_nat j * tile_size in
  let y := Z.of_nat (r + i) * tile_size in
  Some (enemy_at A x y) ∈ Level.sp_enemies acc'
  ∧ enemy_floor_at x y ∈ Level.sp_tiles acc'.
Proof.
  unfold cell_at.
  revert r acc i. induction layout as [|row layout IH]; intros r acc i; cbn; [done|].
  destruct (Level.spawn_row A r 0 _ acc) as [acc1|] eqn:E; [|done]. cbn.
  intros H Hi. destruct i as [|i]; cbn in Hi.
  - rewrite Nat.add_0_r.
    destruct (spawn_row_enemy A r 0 _ acc acc1 j E Hi) as [He Ht].
    apply spawn_rows_grows in H as [H1 H2].
    split; by eapply elem_of_prefix.
  - replace (r + S i)%nat with (S r + i)%nat by lia. by eapply IH.
Qed.

(** What an ['E'] cell spawns: [spawn_sprites] appends a group holding an
    enemy whose rectangle starts 64 units above the cell's position, and
    adds to the tile group an invisible square whose rectangle starts at
    the cell's own position, with collides true, collectable false and
    kills false: the capabilities of the tile an ['X'] cell spawns there.
    Both collision passes read of a tile its rectangle and capabilities
    only, so they treat that square as they treat any tile of a wall's
    capabilities on the same rectangle (256 by 256, the blank 64 by 64
    surface scaled by 4). *)
Lemma enemy_cell_spawns_solid_tile (A : Assets) (layout : list string)
    (enemies enemies' : list (option Enemy.t)) (tiles : list Square.t)
    (player : option Player.t) (r c : nat) :
  Level.spawn_sprites A layout enemies = Ok (tiles, player, enemies') ->
  cell_at layout r c = Some "E"%char ->
  let x := Z.of_nat c * tile_size in
  let y := Z.of_nat r * tile_size in
  (exists enemy, Some enemy ∈ enemies'
     ∧ enemy = Enemy.new A x (y - 64) (enemy_image A)
     ∧ Rect.topleft (Character.rect (Enemy.base enemy)) = (x, y - 64))
  ∧ (exists tile, tile ∈ tiles
       ∧ Rect.topleft (Square.rect tile) = (x, y)
       ∧ Square.collides tile = true
       ∧ Square.collectable tile = false
       ∧ Square.kills tile = false
       ∧ capabilities tile = capabilities (wall_at A x y)
       ∧ Rect.topleft (Square.rect tile) = Rect.topleft (Square.rect (wall_at A x y))
       ∧ (Rect.w (Square.rect tile), Rect.h (Square.rect tile)) = (256, 256)
       ∧ (forall wall : Square.t,
            capabilities wall = capabilities (wall_at A x y) ->
            Square.rect wall = Square.rect tile ->
            (forall character s,
               Level.collide_tile character wall s = Level.collide_tile character tile s)
            ∧ (forall is_enemy ch,
                 Level.enemy_check is_enemy wall ch = Level.enemy_check is_enemy tile ch)
            ∧ (forall p, Level.vertical_tile wall p = Level.vertical_tile tile p))).
Proof.
  intros H Hcell x y. unfold Level.spawn_sprites in H.
  destruct (Level.spawn_rows A 0 layout _) as [acc|] eqn:E; [|done]. cbn in H.
  destruct (Level.sp_player acc); [|done]. injection H as <- <- <-.
  destruct (spawn_rows_enemy A 0 layout _ acc r c E Hcell) as [He Ht].
  split.
  - exists (enemy_at A x y). by split_and!.
  - exists (enemy_floor_at x y). split_and!; try done.
    intros wall Hcap Hrect. unfold capabilities in Hcap. cbn in Hcap.
    injection Hcap as Hc1 Hc2 Hc3.
    split_and!.
    + intros character s. unfold Level.collide_tile. by rewrite Hc1, Hc3, Hrect.
    + intros is_enemy ch. unfold Level.enemy_check, Level.enemy_turns. by rewrite Hrect.
    + intros p. unfold Level.vertical_tile, Level.land_on_tile, Level.collect_tile.
      by rewrite Hc1, Hc2, Hc3, Hrect.
Qed.

Lemma enemy_cell_spawns_solid_tile_witness :
  exists tiles player enemies',
    Level.spawn_sprites sample_assets full_layout [] = Ok (tiles, player, enemies')
    ∧ cell_at full_layout 0 4 = Some "E"%char
    ∧ (exists tile, tile ∈ tiles
         ∧ Rect.topleft (Square.rect tile) = (256, 0)
         ∧ capabilities tile = (true, false, false))
    ∧ (exists enemy, Some enemy ∈ enemies'
         ∧ Rect.topleft (Character.rect (Enemy.base enemy)) = (256, -64)).
Proof.
  do 3 eexists. split; [vm_compute; reflexivity|]. split; [reflexivity|].
  edestruct (enemy_cell_spawns_solid_tile sample_assets full_layout [])
    with (r := 0%nat) (c := 4%nat)
    as [(enemy & He & _ & Hpos) (tile & Ht & Htl & Hc1 & Hc2 & Hc3 & _)];
    [vm_compute; reflexivity | reflexivity |].
  split.
  - exists tile. split; [exact Ht|]. split; [exact Htl|].
    unfold capabilities. rewrite Hc1, Hc2, Hc3. reflexivity.
  - exists enemy. exact (conj He Hpos).
Defined.

(** ** Level.horizontal_movement_collision *)

(** One round on a solid tile that does not kill and that the character
    overlaps, for a character moving left and for one moving right. *)
Lemma collide_tile_left character sprite s :
  Square.collides sprite = true -> Square.kills sprite = false ->
  Rect.colliderect (Square.rect sprite) (Character.rect (Level.hs_char s)) = true ->
  (Character.dx (Level.hs_char s) <? 0)%float = true ->
  Level.collide_tile character sprite s =
    {| Level.hs_char :=
         Character.add_collision C_LEFT
           (Character.set_rect
              (Rect.set_left (Rect.right (Square.rect sprite))
                 (Character.rect (Level.hs_char s))) (Level.hs_char s));
       Level.hs_current_x := Rect.left (Square.rect sprite);
       Level.hs_stdout := Level.hs_stdout s;
       Level.hs_killed := Level.hs_killed s |}.
Proof.
  intros Hc Hk Hr Hd. unfold Level.collide_tile, PyNum.lt. by rewrite Hc, Hk, Hr, Hd.
Qed.

Lemma collide_tile_right character sprite s :
  Square.collides sprite = true -> Square.kills sprite = false ->
  Rect.colliderect (Square.rect sprite) (Character.rect (Level.hs_char s)) = true ->
  (0 <? Character.dx (Level.hs_char s))%float = true ->
  Level.collide_tile character sprite s =
    {| Level.hs_char :=
         Character.add_collision C_RIGHT
           (Character.set_rect
              (Rect.set_right (Rect.left (Square.rect sprite))
                 (Character.rect (Level.hs_char s))) (Level.hs_char s));
       Level.hs_current_x := Rect.right (Square.rect sprite);
       Level.hs_stdout := Level.hs_stdout s;
       Level.hs_killed := Level.hs_killed s |}.
Proof.
  intros Hc Hk Hr Hd. unfold Level.collide_tile, PyNum.lt, PyNum.gt.
  by rewrite Hc, Hk, Hr, (float_pos_not_neg _ Hd), Hd.
Qed.

(** A character is never the group [self.player]: the test
    [character is self.player] fails in every round, so the sweep neither
    kills nor prints. *)
Lemma collide_tile_quiet character sprite s :
  character ≠ Level.PlayerGroupRef ->
  Level.hs_killed (Level.collide_tile character sprite s) = Level.hs_killed s
  ∧ Level.hs_stdout (Level.collide_tile character sprite s) = Level.hs_stdout s.
Proof.
  intros Hne. unfold Level.collide_tile, Level.py_is.
  rewrite bool_decide_eq_false_2 by done.
  repeat (match goal with |- context [if ?b then _ else _] => destruct b end); done.
Qed.

Lemma horizontal_sweep_quiet character is_enemy tiles s :
  character ≠ Level.PlayerGroupRef ->
  Level.hs_killed (Level.horizontal_sweep character is_enemy tiles s) = Level.hs_killed s
  ∧ Level.hs_stdout (Level.horizontal_sweep character is_enemy tiles s) = Level.hs_stdout s.
Proof.
  intros Hne. unfold Level.horizontal_sweep. revert s.
  induction tiles as [|sprite tiles IH]; intros s; cbn; [done|].
  destruct (IH (Level.horizontal_tile character is_enemy s sprite)) as [-> ->].
  unfold Level.horizontal_tile.
  by destruct (collide_tile_quiet character sprite
                 (Level.hs_with_char
                    (Level.enemy_check is_enemy sprite (Level.hs_char s)) s) Hne)
    as [-> ->].
Qed.

Lemma deref_is_character character l who :
  Level.deref character l = Ok who -> character ≠ Level.PlayerGroupRef.
Proof. by destruct character. Qed.

Lemma deref_store character l who c :
  Level.deref character l = Ok who ->
  Level.deref character (Level.store character (Some (Level.sprite_set_base c who)) l)
    = Ok (Level.sprite_set_base c who).
Proof.
  destruct character as [| |i]; cbn; [done| |].
  - destruct (Level.player l) as [p|]; [|done]. cbn. by intros [= <-].
  - destruct (Level.enemies l !! i) as [[e|]|] eqn:E; [|done..]. cbn.
    intros [= <-]. cbn.
    rewrite list_lookup_insert_eq by (by eapply lookup_lt_Some). done.
Qed.

Lemma store_frame character who l :
  Level.current_x (Level.store character who l) = Level.current_x l
  ∧ Level.stdout (Level.store character who l) = Level.stdout l
  ∧ Level.tiles (Level.store character who l) = Level.tiles l.
Proof. by destruct character, who as [[]|]. Qed.

(** What [horizontal_movement_collision] comes to for a character whose
    advance succeeds: the sweep over the tiles, then the two clearing
    tests, then the character put back. *)
Lemma horizontal_movement_collision_eq character l who c0 :
  Level.deref character l = Ok who ->
  Level.x_advance (Level.sprite_base who) = Ok c0 ->
  let swept := Level.horizontal_sweep character (Level.is_Enemy who) (Level.tiles l)
                 {| Level.hs_char := c0; Level.hs_current_x := Level.current_x l;
                    Level.hs_stdout := Level.stdout l; Level.hs_killed := false |} in
  let who' := Level.sprite_set_base
                (Level.clear_flags (Level.hs_current_x swept) (Level.hs_char swept)) who in
  exists l',
    Level.horizontal_movement_collision character l = (Level.Returned, l')
    ∧ Level.deref character l' = Ok who'
    ∧ Level.current_x l' = Level.hs_current_x swept
    ∧ Level.stdout l' = Level.stdout l
    ∧ Level.tiles l' = Level.tiles l
    ∧ (character ≠ Level.PlayerRef -> Level.player l' = Level.player l).
Proof.
  intros Hd Hx swept who'.
  pose proof (deref_is_character _ _ _ Hd) as Hne.
  destruct (horizontal_sweep_quiet character (Level.is_Enemy who) (Level.tiles l)
              {| Level.hs_char := c0; Level.hs_current_x := Level.current_x l;
                 Level.hs_stdout := Level.stdout l; Level.hs_killed := false |} Hne)
    as [Hk Hs].
  fold swept in Hk, Hs. cbn in Hk, Hs.
  unfold Level.horizontal_movement_collision, Level.attempt.
  rewrite Hd. cbn. rewrite Hx. cbn. fold swept. rewrite Hk, Hs. fold who'.
  eexists. split; [done|].
  destruct (store_frame character (Some who')
              (Level.set_stdout (Level.stdout l)
                 (Level.set_current_x (Level.hs_current_x swept) l))) as (E1 & E2 & E3).
  split_and!; [|by rewrite E1|by rewrite E2|by rewrite E3|].
  - apply deref_store. by destruct character.
  - intros Hnp. destruct character as [| |i]; [done..|]. by destruct who'.
Qed.

Lemma clear_flags_spec (cur : Z) (c : Character.t) :
  let c' := Level.clear_flags cur c in
  Character.rect c' = Character.rect c
  ∧ Character.direction c' = Character.direction c
  ∧ Character.speed c' = Character.speed c
  ∧ (C_LEFT ∈ Character.collisions c' <->
       C_LEFT ∈ Character.collisions c
       ∧ ¬ (Rect.left (Character.rect c) < cur ∨ (0 <=? Character.dx c)%float = true))
  ∧ (C_RIGHT ∈ Character.collisions c' <->
       C_RIGHT ∈ Character.collisions c
       ∧ ¬ (cur < Rect.right (Character.rect c) ∨ (Character.dx c <=? 0)%float = true))
  ∧ (C_TOP ∈ Character.collisions c' <-> C_TOP ∈ Character.collisions c)
  ∧ (C_BOTTOM ∈ Character.collisions c' <-> C_BOTTOM ∈ Character.collisions c).
Proof.
  unfold Level.clear_flags, Level.clears_left, Level.clears_right,
    Character.touching, PyNum.ge, PyNum.le, Character.remove_collision,
    Character.set_collisions, Character.dx.
  destruct (Z.ltb_spec (Rect.left (Character.rect c)) cur) as [E1|E1];
    destruct (0 <=? vx (Character.direction c))%float eqn:E2;
    destruct (decide (C_LEFT ∈ Character.collisions c)) as [HL|HL];
    rewrite ?(bool_decide_eq_true_2 _ HL), ?(bool_decide_eq_false_2 _ HL); cbn;
    destruct (Z.ltb_spec cur (Rect.right (Character.rect c))) as [E3|E3];
    destruct (vx (Character.direction c) <=? 0)%float eqn:E4;
    case_bool_decide; cbn;
    (split_and!; [done|done|done|..]);
    set_unfold; naive_solver lia.
Qed.

Lemma horizontal_sweep_split character is_enemy tiles (k : nat) sprite s :
  tiles !! k = Some sprite ->
  Level.horizontal_sweep character is_enemy tiles s =
    Level.horizontal_sweep character is_enemy (drop (S k) tiles)
      (Level.horizontal_tile character is_enemy
         (Level.horizontal_sweep character is_enemy (take k tiles) s) sprite).
Proof.
  intros Hk. unfold Level.horizontal_sweep.
  rewrite <- (take_drop_middle tiles k sprite Hk) at 1.
  by rewrite foldl_app.
Qed.

(** C1, as amended: in [horizontal_movement_collision], when the turn of
    a tile comes that is solid, does not kill, and overlaps the
    character's rectangle (advanced in x, and as the earlier tiles of the
    sweep left it): a character moving left (direction.x < 0) gets its
    left edge set to the tile's right edge, LEFT added to its collisions,
    and current_x set to the tile's left edge, the edge away from the
    character and not the one it is snapped to; one moving right
    (direction.x > 0) gets its right edge set to the tile's left edge,
    RIGHT added, and current_x set to the tile's right edge.  After the
    sweep, LEFT is
    in the collisions exactly when it was there and neither the left edge
    is < current_x nor direction.x >= 0; RIGHT exactly when it was there
    and neither the right edge is > current_x nor direction.x <= 0; TOP
    and BOTTOM, the rectangle and the direction are left alone. *)
Theorem horizontal_collision_resolution (character : Level.objref) (l : Level.t)
    (who : Level.sprite) (c0 : Character.t) (k : nat) (sprite : Square.t) :
  Level.deref character l = Ok who ->
  Level.x_advance (Level.sprite_base who) = Ok c0 ->
  Level.tiles l !! k = Some sprite ->
  let sweep := Level.horizontal_sweep character (Level.is_Enemy who) in
  let start := {| Level.hs_char := c0; Level.hs_current_x := Level.current_x l;
                  Level.hs_stdout := Level.stdout l; Level.hs_killed := false |} in
  let before := sweep (take k (Level.tiles l)) start in
  let c := Level.enemy_check (Level.is_Enemy who) sprite (Level.hs_char before) in
  let after := Level.horizontal_tile character (Level.is_Enemy who) before sprite in
  let swept := sweep (Level.tiles l) start in
  (Square.collides sprite = true -> Square.kills sprite = false ->
   Rect.colliderect (Square.rect sprite) (Character.rect c) = true ->
   ((Character.dx c <? 0)%float = true ->
      Rect.left (Character.rect (Level.hs_char after)) = Rect.right (Square.rect sprite)
      ∧ C_LEFT ∈ Character.collisions (Level.hs_char after)
      ∧ Level.hs_current_x after = Rect.left (Square.rect sprite))
   ∧ ((0 <? Character.dx c)%float = true ->
      Rect.right (Character.rect (Level.hs_char after)) = Rect.left (Square.rect sprite)
      ∧ C_RIGHT ∈ Character.collisions (Level.hs_char after)
      ∧ Level.hs_current_x after = Rect.right (Square.rect sprite)))
  ∧ swept = sweep (drop (S k) (Level.tiles l)) after
  ∧ exists l' who',
      Level.horizontal_movement_collision character l = (Level.Returned, l')
      ∧ Level.deref character l' = Ok who'
      ∧ Level.current_x l' = Level.hs_current_x swept
      ∧ Character.rect (Level.sprite_base who') = Character.rect (Level.hs_char swept)
      ∧ Character.direction (Level.sprite_base who')
          = Character.direction (Level.hs_char swept)
      ∧ (C_LEFT ∈ Character.collisions (Level.sprite_base who') <->
           C_LEFT ∈ Character.collisions (Level.hs_char swept)
           ∧ ¬ (Rect.left (Character.rect (Level.hs_char swept)) < Level.current_x l'
                ∨ (0 <=? Character.dx (Level.hs_char swept))%float = true))
      ∧ (C_RIGHT ∈ Character.collisions (Level.sprite_base who') <->
           C_RIGHT ∈ Character.collisions (Level.hs_char swept)
           ∧ ¬ (Level.current_x l' < Rect.right (Character.rect (Level.hs_char swept))
                ∨ (Character.dx (Level.hs_char swept) <=? 0)%float = true))
      ∧ (C_TOP ∈ Character.collisions (Level.sprite_base who') <->
           C_TOP ∈ Character.collisions (Level.hs_char swept))
      ∧ (C_BOTTOM ∈ Character.collisions (Level.sprite_base who') <->
           C_BOTTOM ∈ Character.collisions (Level.hs_char swept)).
Proof.
  intros Hd Hx Hk sweep start before c after swept.
  split_and!.
  - intros Hc Hkill Hr.
    assert (Hafter : after = Level.collide_tile character sprite
                               (Level.hs_with_char c before)) by done.
    split; intros Hdx; rewrite Hafter.
    + rewrite collide_tile_left by done. cbn. split_and!; [done| |done]. set_solver.
    + rewrite collide_tile_right by done. cbn. split_and!; [|set_solver|done].
      unfold Rect.right, Rect.set_right. cbn. lia.
  - subst swept after before sweep. by apply horizontal_sweep_split.
  - destruct (horizontal_movement_collision_eq character l who c0 Hd Hx)
      as (l' & Hrun & Hderef & Hcur & _ & _ & _).
    fold start in Hderef, Hcur. fold sweep in Hderef, Hcur. fold swept in Hderef, Hcur.
    exists l', (Level.sprite_set_base
                  (Level.clear_flags (Level.hs_current_x swept) (Level.hs_char swept)) who).
    destruct (clear_flags_spec (Level.hs_current_x swept) (Level.hs_char swept))
      as (Hrect & Hdir & _ & HL & HR & HT & HB).
    assert (Hbase : forall c1, Level.sprite_base (Level.sprite_set_base c1 who) = c1)
      by (intros c1; by destruct who).
    rewrite Hbase, Hcur. by split_and!.
Qed.

Lemma horizontal_collision_resolution_witness :
  exists l' who',
    Level.horizontal_movement_collision Level.PlayerRef left_mover = (Level.Returned, l')
    ∧ Level.deref Level.PlayerRef l' = Ok who'
    ∧ Level.current_x l' = 0
    ∧ Rect.left (Character.rect (Level.sprite_base who')) = 64
    ∧ C_LEFT ∈ Character.collisions (Level.sprite_base who').
Proof.
  edestruct (horizontal_collision_resolution Level.PlayerRef left_mover) with (k := 2%nat)
    as (Hround & Hswept & l' & who' & Hrun & Hd & Hcur & Hrect & Hdir & HL & _);
    [vm_compute; reflexivity..|].
  exists l', who'. split_and!; [done|done| | |].
  - rewrite Hcur. by vm_compute.
  - rewrite Hrect. by vm_compute.
  - apply HL. split.
    + apply (bool_decide_unpack _). by vm_compute.
    + rewrite Hcur. intros [H|H]; revert H; by vm_compute.
Defined.

(** [horizontal_movement_collision] prints nothing and takes no player out
    of its group, whatever it is called with: the branch that would is
    behind the test [character is self.player], which compares a character
    with a group. *)
Lemma horizontal_movement_collision_quiet character l :
  let '(_, l') := Level.horizontal_movement_collision character l in
  Level.stdout l' = Level.stdout l
  ∧ (is_Some (Level.player l) -> is_Some (Level.player l')).
Proof.
  destruct (Level.deref character l) as [who|e] eqn:Hd.
  - destruct (Level.x_advance (Level.sprite_base who)) as [c0|e] eqn:Hx.
    + destruct (horizontal_movement_collision_eq character l who c0 Hd Hx)
        as (l' & -> & Hd' & _ & Hout & _ & Hp).
      split; [done|]. intros Hsome.
      destruct character as [| |i]; [done| |].
      * cbn in Hd'. by destruct (Level.player l').
      * by rewrite Hp.
    + unfold Level.horizontal_movement_collision, Level.attempt.
      rewrite Hd. cbn. by rewrite Hx.
  - unfold Level.horizontal_movement_collision, Level.attempt. by rewrite Hd.
Qed.

(** C1 as stated fails: the player of the sample level, walking left
    into the wall beside it, is snapped to the wall's right edge, 64, and
    what is recorded in current_x is the wall's left edge, 0, not the
    edge it is snapped to. *)
Lemma anchor_is_the_far_edge :
  exists p c0 sprite,
    Level.player left_mover = Some p
    ∧ Level.x_advance (Player.base p) = Ok c0
    ∧ Level.tiles left_mover !! 2%nat = Some sprite
    ∧ Square.collides sprite = true ∧ Square.kills sprite = false
    ∧ Rect.colliderect (Square.rect sprite) (Character.rect c0) = true
    ∧ (Character.dx c0 <? 0)%float = true
    ∧ (let before :=
         Level.horizontal_sweep Level.PlayerRef false (take 2 (Level.tiles left_mover))
           {| Level.hs_char := c0; Level.hs_current_x := Level.current_x left_mover;
              Level.hs_stdout := Level.stdout left_mover; Level.hs_killed := false |} in
       Level.hs_char before = c0
       ∧ Rect.right (Square.rect sprite) = 64
       ∧ Level.hs_current_x (Level.collide_tile Level.PlayerRef sprite before) = 0
       ∧ ¬ anchor_is_snapped_edge Level.PlayerRef sprite before)
    ∧ exists l' p',
        Level.horizontal_movement_collision Level.PlayerRef left_mover
          = (Level.Returned, l')
        ∧ Level.player l' = Some p'
        ∧ Rect.left (Character.rect (Player.base p')) = 64
        ∧ Level.current_x l' = 0.
Proof.
  do 3 eexists. split; [by vm_compute|]. split; [by vm_compute|].
  split; [by vm_compute|].
  split_and!; [done|done|by vm_compute|by vm_compute| |].
  - split_and!; [by vm_compute|by vm_compute|by vm_compute|].
    intros [Hleft _]. revert Hleft. vm_compute. intros H.
    specialize (H eq_refl). discriminate H.
  - do 2 eexists. split; [by vm_compute|]. by vm_compute.
Qed.

(** C7, as the code has it: a player walking right into a death box
    overlaps it after the advance in x, and [horizontal_movement_collision]
    returns with the player still in its group and nothing printed. *)
Theorem horizontal_death_box_spares_player :
  exists p c0 sprite,
    Level.player hazard_walker = Some p
    ∧ Level.x_advance (Player.base p) = Ok c0
    ∧ sprite ∈ Level.tiles hazard_walker
    ∧ Square.collides sprite = true ∧ Square.kills sprite = true
    ∧ Rect.colliderect (Square.rect sprite) (Character.rect c0) = true
    ∧ exists l' p',
        Level.horizontal_movement_collision Level.PlayerRef hazard_walker
          = (Level.Returned, l')
        ∧ Level.player l' = Some p'
        ∧ Character.rect (Player.base p') = Character.rect c0
        ∧ Level.stdout l' = [].
Proof.
  do 3 eexists. split; [by vm_compute|]. split; [by vm_compute|].
  split.
  { apply list_elem_of_lookup. exists 2%nat. by vm_compute. }
  split_and!; [done|done|by vm_compute|].
  do 2 eexists. split; [by vm_compute|]. by vm_compute.
Qed.


(** The direction and speed of a character change in a round of the sweep
    only by an enemy's turn at a tile whose test holds; the test reads
    nothing of the tile but its rectangle. *)
Lemma horizontal_tile_direction character is_enemy s sprite :
  let c := Level.hs_char s in
  let c' := Level.hs_char (Level.horizontal_tile character is_enemy s sprite) in
  (is_enemy && Level.enemy_turns sprite c = true ->
     Character.dx c' = (Character.dx c * float_of_Z (-1))%float
     ∧ Character.speed c' = PyNum.to_float (Speeds_value ENEMY_MOVEMENT))
  ∧ (is_enemy && Level.enemy_turns sprite c = false ->
       Character.direction c' = Character.direction c
       ∧ Character.speed c' = Character.speed c).
Proof.
  unfold Level.horizontal_tile, Level.collide_tile, Level.enemy_check. cbn.
  split; intros ->; cbn;
    repeat (match goal with |- context [if ?b then _ else _] => destruct b end);
    done.
Qed.

(** ** Level.vertical_movement_collision and the event loop *)

Lemma vertical_sweep_app pre rest p p2 group :
  Level.vertical_sweep pre p = (Some p2, group) ->
  Level.vertical_sweep (pre ++ rest) p =
    (fst (Level.vertical_sweep rest p2), group ++ snd (Level.vertical_sweep rest p2)).
Proof.
  revert p group. induction pre as [|sprite pre IH]; intros p group; cbn.
  - intros [= <- <-]. by destruct (Level.vertical_sweep rest p).
  - destruct (Level.vertical_tile sprite p) as [p' stays|]; [|done].
    destruct (Level.vertical_sweep pre p') as [r g] eqn:E.
    intros [= -> <-]. rewrite (IH _ _ E). by destruct stays.
Qed.

Lemma vertical_tile_hazard sprite p :
  Square.collides sprite = true -> Square.kills sprite = true ->
  Rect.colliderect (Square.rect sprite) (Character.rect (Player.base p)) = true ->
  Level.vertical_tile sprite p = Level.VGameOver.
Proof.
  intros Hc Hk Hr. unfold Level.vertical_tile, Level.land_on_tile.
  by rewrite Hc, Hr, Hk.
Qed.

(** C2: in [vertical_movement_collision], when the turn comes of a solid
    killing tile that overlaps the player's rectangle, the player is
    killed (it leaves its group) and GameOver is raised; [run] passes the
    exception on, and the event loop of [main] turns it into a clean exit:
    whatever frames would follow, the call of [run] that met the tile is
    the last one for the level. *)
Theorem hazard_ends_the_level (A : Assets) (f : Game.Frame) (fs : list Game.Frame)
    (l0 l : Level.t) (p p1 p2 : Player.t) (group : list Square.t)
    (k : nat) (sprite : Square.t) :
  Game.quit_event f = false ->
  Level.before_vertical A (Game.input f) l0 = (Level.Returned, l) ->
  Level.player l = Some p ->
  Player.apply_gravity p = Ok p1 ->
  Level.tiles l !! k = Some sprite ->
  Level.vertical_sweep (take k (Level.tiles l)) p1 = (Some p2, group) ->
  Square.collides sprite = true ->
  Square.kills sprite = true ->
  Rect.colliderect (Square.rect sprite) (Character.rect (Player.base p2)) = true ->
  exists l',
    Level.vertical_movement_collision l = (Level.Raised GameOver, l')
    ∧ Level.player l' = None
    ∧ Level.run A (Game.input f) l0 = (Level.Raised GameOver, l')
    ∧ Game.main A (f :: fs) l0 = (Game.Exited 0, l', 1%nat)
    ∧ Game.main A [f] l0 = Game.main A (f :: fs) l0.
Proof.
  intros Hq Hbefore Hp Hg Hk Hpre Hc Hkill Hr.
  assert (Hsweep : Level.vertical_sweep (Level.tiles l) p1
                   = (None, group ++ drop k (Level.tiles l))).
  { rewrite <- (take_drop k (Level.tiles l)) at 1.
    rewrite (vertical_sweep_app _ _ _ _ _ Hpre).
    rewrite (drop_S _ _ _ Hk). cbn.
    by rewrite (vertical_tile_hazard sprite p2 Hc Hkill Hr). }
  assert (Hv : Level.vertical_movement_collision l
               = (Level.Raised GameOver,
                  Level.set_player None
                    (Level.set_tiles (group ++ drop k (Level.tiles l)) l))).
  { unfold Level.vertical_movement_collision. by rewrite Hp, Hg, Hsweep. }
  assert (Hrun : Level.run A (Game.input f) l0
                 = (Level.Raised GameOver,
                    Level.set_player None
                      (Level.set_tiles (group ++ drop k (Level.tiles l)) l))).
  { unfold Level.run, Level.andthen at 1. rewrite Hbefore.
    unfold Level.andthen at 1. by rewrite Hv. }
  eexists. split; [done|]. split; [done|]. split; [done|].
  cbn. by rewrite Hq, Hrun.
Qed.

Lemma hazard_ends_the_level_witness :
  exists l',
    Game.main sample_assets (frame_of right_key :: replicate 5 (frame_of right_key))
      hazard_walker = (Game.Exited 0, l', 1%nat)
    ∧ Level.player l' = None.
Proof.
  edestruct (hazard_ends_the_level sample_assets (frame_of right_key)
               (replicate 5 (frame_of right_key)) hazard_walker) with (k := 2%nat)
    as (l' & Hv & Hp & Hrun & Hmain & _); [vm_compute; reflexivity..|].
  exists l'. exact (conj Hmain Hp).
Defined.

(** Played from the start with the right key held, the level with a death
    box ends in the thirteenth frame, however many frames are offered. *)
Example hazard_level_play :
  (let '(e, l, n) := Game.main sample_assets (replicate 40 (frame_of right_key))
                       hazard_level in (e, Level.player l, n))
    = (Game.Exited 0, None, 13%nat)
  ∧ (let '(e, _, n) := Game.main sample_assets (replicate 12 (frame_of right_key))
                         hazard_level in (e, n))
    = (Game.Running, 12%nat).
Proof. by vm_compute. Qed.

(** * Further properties of the code *)

(** ** The vertical pass: collecting and landing *)

Lemma land_on_tile_score sprite p p' :
  Level.land_on_tile sprite p = Some p' -> Player.score p' = Player.score p.
Proof.
  unfold Level.land_on_tile.
  repeat (match goal with |- context [if ?b then _ else _] => destruct b end);
    by intros [= <-].
Qed.

Lemma vertical_tile_score sprite p p' stays :
  Level.vertical_tile sprite p = Level.VNext p' stays ->
  Player.score p' = Player.score p + (if stays then 0 else 1)
  ∧ (stays = false -> Square.collectable sprite = true).
Proof.
  unfold Level.vertical_tile, Level.collect_tile.
  destruct (Level.land_on_tile sprite p) as [p1|] eqn:E; [|done].
  apply land_on_tile_score in E.
  destruct (Square.collectable sprite); [destruct (Rect.colliderect _ _)|];
    intros [= <- <-]; cbn; split; (lia || done).
Qed.

Lemma vertical_sweep_score snapshot p p' group :
  Level.vertical_sweep snapshot p = (Some p', group) ->
  Player.score p' = Player.score p + (Z.of_nat (length snapshot) - Z.of_nat (length group))
  ∧ sublist group snapshot
  ∧ (forall sprite, sprite ∈ snapshot -> Square.collectable sprite = false ->
       sprite ∈ group).
Proof.
  revert p group. induction snapshot as [|sprite rest IH]; intros p group; cbn.
  - intros [= <- <-]. split_and!; [cbn; lia|done|done].
  - destruct (Level.vertical_tile sprite p) as [p1 stays|] eqn:E; [|done].
    destruct (Level.vertical_sweep rest p1) as [r g] eqn:Er.
    intros [= -> <-].
    destruct (IH _ _ Er) as (Hs & Hsub & Hkeep).
    apply vertical_tile_score in E as [E Hcol].
    pose proof (sublist_length _ _ Hsub) as Hlen.
    destruct stays; cbn [length].
    + split_and!; [lia|by constructor|].
      intros t Ht Hc. apply elem_of_cons in Ht as [->|Ht]; [by left|].
      right. by apply Hkeep.
    + split_and!; [lia|by constructor|].
      intros t Ht Hc. apply elem_of_cons in Ht as [->|Ht]; [|by apply Hkeep].
      rewrite Hcol in Hc; done.
Qed.

(** X1: when [vertical_movement_collision] returns, the player's score has
    grown by exactly the number of tiles that left the tile group; the
    group is the old one with some tiles taken out, in the old order, and
    no tile that is not collectable is among those. *)
Theorem collecting_pays_one_per_tile (l l' : Level.t) (p : Player.t) :
  Level.player l = Some p ->
  Level.vertical_movement_collision l = (Level.Returned, l') ->
  exists p',
    Level.player l' = Some p'
    ∧ Player.score p' =
        Player.score p
        + (Z.of_nat (length (Level.tiles l)) - Z.of_nat (length (Level.tiles l')))
    ∧ sublist (Level.tiles l') (Level.tiles l)
    ∧ (forall sprite, sprite ∈ Level.tiles l -> Square.collectable sprite = false ->
         sprite ∈ Level.tiles l').
Proof.
  intros Hp. unfold Level.vertical_movement_collision. rewrite Hp.
  destruct (Player.apply_gravity p) as [p1|] eqn:Eg; [|done].
  destruct (Level.vertical_sweep (Level.tiles l) p1) as [[p2|] group] eqn:Es; [|done].
  intros [= <-]. cbn. eexists. split; [done|]. cbn.
  destruct (vertical_sweep_score _ _ _ _ Es) as (Hs & Hsub & Hkeep).
  split_and!; [|done|done].
  rewrite Hs. unfold Player.apply_gravity in Eg.
  destruct (Rect.assign_y _ _); [|done]. cbn in Eg. by injection Eg as <-.
Qed.

Lemma collecting_pays_one_per_tile_witness :
  exists l' p',
    Level.vertical_movement_collision coin_taker = (Level.Returned, l')
    ∧ Level.player l' = Some p'
    ∧ Player.score p' = 1
    ∧ length (Level.tiles l') = 9%nat.
Proof.
  assert (Hrun : exists l', Level.vertical_movement_collision coin_taker
                            = (Level.Returned, l') ∧ length (Level.tiles l') = 9%nat)
    by (eexists; split; vm_compute; reflexivity).
  destruct Hrun as (l' & Hrun & Hlen).
  edestruct (collecting_pays_one_per_tile coin_taker l') as (p' & Hp' & Hscore & _);
    [vm_compute; reflexivity | exact Hrun |].
  exists l', p'. split; [exact Hrun|]. split; [exact Hp'|]. split; [|exact Hlen].
  rewrite Hscore, Hlen. reflexivity.
Defined.

(** A player that neither falls nor rises (direction.y is neither > 0 nor
    < 0) goes through a sweep with its rectangle, direction and flags as
    they are. *)
Lemma land_on_tile_still sprite p p' :
  (0 <? Character.dy (Player.base p))%float = false ->
  (Character.dy (Player.base p) <? 0)%float = false ->
  Level.land_on_tile sprite p = Some p' -> p' = p.
Proof.
  intros Hpos Hneg. unfold Level.land_on_tile, PyNum.gt, PyNum.lt.
  rewrite Hpos, Hneg.
  repeat (match goal with |- context [if ?b then _ else _] => destruct b end);
    by intros [= <-].
Qed.

Lemma vertical_sweep_still snapshot p p' group :
  (0 <? Character.dy (Player.base p))%float = false ->
  (Character.dy (Player.base p) <? 0)%float = false ->
  Level.vertical_sweep snapshot p = (Some p', group) ->
  Player.base p' = Player.base p.
Proof.
  revert p group. induction snapshot as [|sprite rest IH]; intros p group Hpos Hneg; cbn.
  - by intros [= <- _].
  - unfold Level.vertical_tile.
    destruct (Level.land_on_tile sprite p) as [p1|] eqn:E; [|done].
    apply (land_on_tile_still _ _ _ Hpos Hneg) in E as ->.
    destruct (Level.collect_tile sprite p) as [p1 stays] eqn:Ec.
    assert (Hb : Player.base p1 = Player.base p).
    { unfold Level.collect_tile in Ec.
      destruct (Square.collectable sprite); [destruct (Rect.colliderect _ _)|];
        by injection Ec as <- _. }
    destruct (Level.vertical_sweep rest p1) as [r g] eqn:Er.
    intros [= -> _]. rewrite <- Hb. apply (IH p1 g); by rewrite ?Hb.
Qed.

Lemma clear_vertical_flags_at_rest (c : Character.t) :
  Character.dy c = 0%float -> Level.clear_vertical_flags c = c.
Proof.
  intros H0. unfold Level.clear_vertical_flags, Level.leaves_ground,
    Level.leaves_ceiling, PyNum.lt, PyNum.gt.
  rewrite H0. change (0 <? 0)%float with false. change (1 <? 0)%float with false.
  rewrite !andb_false_r. cbn.
  rewrite H0. change (0.1 <? 0)%float with false. by rewrite andb_false_r.
Qed.

Lemma clear_vertical_flags_rect (c : Character.t) :
  Character.rect (Level.clear_vertical_flags c) = Character.rect c
  ∧ Character.direction (Level.clear_vertical_flags c) = Character.direction c.
Proof.
  unfold Level.clear_vertical_flags.
  destruct (Level.leaves_ground c); cbn;
    match goal with |- context [if ?b then _ else _] => destruct b end; done.
Qed.

(** X2: landing is final within a frame.  When, in
    [vertical_movement_collision], the turn comes of a solid tile that does
    not kill and that the falling player (direction.y > 0) overlaps, and
    the call returns, the player ends the call standing on that tile: its
    bottom edge is the tile's top edge, direction.y is 0 and BOTTOM is in
    its collisions, whatever tiles came later in the group.  In the same
    way a rising player (direction.y < 0) ends with its top edge at the
    tile's bottom edge and TOP in its collisions. *)
Theorem landing_is_final (l l' : Level.t) (p p1 p2 : Player.t)
    (group : list Square.t) (k : nat) (sprite : Square.t) :
  Level.player l = Some p ->
  Player.apply_gravity p = Ok p1 ->
  Level.tiles l !! k = Some sprite ->
  Level.vertical_sweep (take k (Level.tiles l)) p1 = (Some p2, group) ->
  Square.collides sprite = true ->
  Square.kills sprite = false ->
  Rect.colliderect (Square.rect sprite) (Character.rect (Player.base p2)) = true ->
  Level.vertical_movement_collision l = (Level.Returned, l') ->
  exists p',
    Level.player l' = Some p'
    ∧ Rect.x (Character.rect (Player.base p')) = Rect.x (Character.rect (Player.base p2))
    ∧ ((0 <? Character.dy (Player.base p2))%float = true ->
         Rect.bottom (Character.rect (Player.base p')) = Rect.top (Square.rect sprite)
         ∧ Character.dy (Player.base p') = 0%float
         ∧ C_BOTTOM ∈ Character.collisions (Player.base p'))
    ∧ ((Character.dy (Player.base p2) <? 0)%float = true ->
         Rect.top (Character.rect (Player.base p')) = Rect.bottom (Square.rect sprite)
         ∧ Character.dy (Player.base p') = 0%float
         ∧ C_TOP ∈ Character.collisions (Player.base p')).
Proof.
  intros Hp Hg Hk Hpre Hc Hkill Hr Hrun.
  unfold Level.vertical_movement_collision in Hrun. rewrite Hp, Hg in Hrun.
  rewrite <- (take_drop k (Level.tiles l)) in Hrun at 1.
  rewrite (vertical_sweep_app _ _ _ _ _ Hpre), (drop_S _ _ _ Hk) in Hrun.
  cbn in Hrun.
  destruct (Level.vertical_tile sprite p2) as [p3 stays|] eqn:Et; [|done].
  destruct (Level.vertical_sweep (drop (S k) (Level.tiles l)) p3) as [[p4|] g] eqn:Es;
    cbn in Hrun; [|done].
  injection Hrun as <-. cbn. eexists. split; [done|]. cbn.
  assert (Hbase3 : exists p2', Level.land_on_tile sprite p2 = Some p2'
                               ∧ Player.base p3 = Player.base p2').
  { unfold Level.vertical_tile in Et.
    destruct (Level.land_on_tile sprite p2) as [p2'|]; [|done].
    exists p2'. split; [done|].
    destruct (Level.collect_tile sprite p2') as [q st] eqn:Ec.
    injection Et as <- _. unfold Level.collect_tile in Ec.
    destruct (Square.collectable sprite);
      [destruct (Rect.colliderect (Square.rect sprite)
                   (Character.rect (Player.base p2')))|];
      by injection Ec as <- _. }
  destruct Hbase3 as (p2' & Hland & Hb3).
  unfold Level.land_on_tile, PyNum.gt, PyNum.lt in Hland.
  rewrite Hc, Hr, Hkill in Hland.
  destruct (0 <? Character.dy (Player.base p2))%float eqn:Epos.
  - rewrite ?Epos in Hland. injection Hland as <-. cbn in Hb3.
    assert (H0 : Character.dy (Player.base p3) = 0%float) by (by rewrite Hb3).
    rewrite (vertical_sweep_still _ _ _ _ (eq_trans (f_equal (fun d => (0 <? d)%float) H0) eq_refl)
               (eq_trans (f_equal (fun d => (d <? 0)%float) H0) eq_refl) Es).
    rewrite clear_vertical_flags_at_rest by done. rewrite Hb3. cbn.
    split_and!; [done| |].
    + intros _. split_and!; [|done|set_solver].
      unfold Rect.bottom, Rect.set_bottom. cbn. lia.
    + intros Hneg. by rewrite (float_pos_not_neg _ Epos) in Hneg.
  - rewrite ?Epos in Hland.
    destruct (Character.dy (Player.base p2) <? 0)%float eqn:Eneg; rewrite ?Eneg in Hland.
    + injection Hland as <-. cbn in Hb3.
      assert (H0 : Character.dy (Player.base p3) = 0%float) by (by rewrite Hb3).
      rewrite (vertical_sweep_still _ _ _ _
                 (eq_trans (f_equal (fun d => (0 <? d)%float) H0) eq_refl)
                 (eq_trans (f_equal (fun d => (d <? 0)%float) H0) eq_refl) Es).
      rewrite clear_vertical_flags_at_rest by done. rewrite Hb3. cbn.
      split_and!; [done|done|].
      intros _. split_and!; [done|done|set_solver].
    + injection Hland as <-.
      split_and!; [|done|done].
      destruct (clear_vertical_flags_rect (Player.base p4)) as [-> _].
      rewrite (vertical_sweep_still _ _ _ _ ltac:(by rewrite Hb3) ltac:(by rewrite Hb3) Es).
      by rewrite Hb3.
Qed.

Lemma landing_is_final_witness :
  exists l' p',
    Level.vertical_movement_collision faller = (Level.Returned, l')
    ∧ Level.player l' = Some p'
    ∧ Rect.bottom (Character.rect (Player.base p')) = 128
    ∧ Character.dy (Player.base p') = 0%float
    ∧ C_BOTTOM ∈ Character.collisions (Player.base p').
Proof.
  assert (Hrun : exists l', Level.vertical_movement_collision faller = (Level.Returned, l'))
    by (eexists; vm_compute; reflexivity).
  destruct Hrun as (l' & Hrun).
  edestruct (landing_is_final faller l') with (k := 6%nat)
    as (p' & Hp' & _ & Hfall & _);
    [vm_compute; reflexivity.. | exact Hrun |].
  destruct Hfall as (Hb & Hdy & Hflag); [vm_compute; reflexivity|].
  exists l', p'. exact (conj Hrun (conj Hp' (conj Hb (conj Hdy Hflag)))).
Defined.

(** X3: after [vertical_movement_collision] has returned, a player with
    BOTTOM in its collisions has a direction.y that is neither < 0 nor > 1,
    and one with TOP has a direction.y that is not > 0.1; so the state
    [update_status] gives a player that still has BOTTOM is RUN or IDLE,
    never JUMP or FALL. *)
Theorem grounded_after_vertical_pass (l l' : Level.t) (p' : Player.t) :
  Level.vertical_movement_collision l = (Level.Returned, l') ->
  Level.player l' = Some p' ->
  let c := Player.base p' in
  (C_BOTTOM ∈ Character.collisions c ->
     (Character.dy c <? 0)%float = false ∧ (1 <? Character.dy c)%float = false
     ∧ (Player.status (Player.update_status p') = RUN
        ∨ Player.status (Player.update_status p') = IDLE))
  ∧ (C_TOP ∈ Character.collisions c -> (0.1 <? Character.dy c)%float = false).
Proof.
  unfold Level.vertical_movement_collision.
  destruct (Level.player l) as [p|]; [|done].
  destruct (Player.apply_gravity p) as [p1|]; [|done].
  destruct (Level.vertical_sweep (Level.tiles l) p1) as [[p2|] group]; [|done].
  intros [= <-]. cbn. intros [= <-]. cbn.
  set (c := Player.base p2).
  assert (Hflags :
    (C_BOTTOM ∈ Character.collisions (Level.clear_vertical_flags c) ->
       (Character.dy c <? 0)%float = false ∧ (1 <? Character.dy c)%float = false)
    ∧ (C_TOP ∈ Character.collisions (Level.clear_vertical_flags c) ->
         (0.1 <? Character.dy c)%float = false)).
  { unfold Level.clear_vertical_flags, Level.leaves_ground, Level.leaves_ceiling,
      Character.touching, PyNum.lt, PyNum.gt, Character.remove_collision,
      Character.set_collisions, Character.dy.
    destruct (vy (Character.direction c) <? 0)%float;
      destruct (1 <? vy (Character.direction c))%float;
      destruct (decide (C_BOTTOM ∈ Character.collisions c)) as [HB|HB];
      rewrite ?(bool_decide_eq_true_2 _ HB), ?(bool_decide_eq_false_2 _ HB); cbn;
      destruct (0.1 <? vy (Character.direction c))%float;
      case_bool_decide; cbn; split; intros ?; try done; set_solver. }
  destruct (clear_vertical_flags_rect c) as [_ Hdir].
  assert (Hdy : Character.dy (Level.clear_vertical_flags c) = Character.dy c)
    by (unfold Character.dy; by rewrite Hdir).
  destruct Hflags as [HB HT]. rewrite Hdy. split.
  - intros Hin. destruct (HB Hin) as [Hneg Hfast]. split_and!; [done|done|].
    unfold Player.update_status, PyNum.lt, PyNum.gt, PyNum.ne. cbn.
    rewrite Hdy, Hneg, Hfast.
    destruct (negb _); cbn; [by left | by right].
  - done.
Qed.

Lemma grounded_after_vertical_pass_witness :
  exists l' p',
    Level.vertical_movement_collision faller = (Level.Returned, l')
    ∧ Level.player l' = Some p'
    ∧ Player.status (Player.update_status p') = IDLE.
Proof.
  assert (Hrun : exists l' p', Level.vertical_movement_collision faller = (Level.Returned, l')
                   ∧ Level.player l' = Some p'
                   ∧ C_BOTTOM ∈ Character.collisions (Player.base p')
                   ∧ Player.status (Player.update_status p') ≠ RUN).
  { do 2 eexists. split; [vm_compute; reflexivity|]. split; [reflexivity|].
    split; [|by vm_compute]. apply (bool_decide_unpack _). by vm_compute. }
  destruct Hrun as (l' & p' & Hrun & Hp' & Hflag & Hnot).
  destruct (grounded_after_vertical_pass faller l' p' Hrun Hp') as [HB _].
  destruct (HB Hflag) as (_ & _ & [Hs|Hs]); [by destruct Hnot|].
  exists l', p'. exact (conj Hrun (conj Hp' Hs)).
Defined.

(** ** The horizontal pass: what it leaves alone, and what a snap achieves *)

Lemma same_lane_refl c : same_lane c c.
Proof. by unfold same_lane. Qed.

Lemma same_lane_trans c1 c2 c3 : same_lane c1 c2 -> same_lane c2 c3 -> same_lane c1 c3.
Proof.
  unfold same_lane.
  intros (H1 & H2 & H3 & H4 & H5 & H6 & H7 & H8) (G1 & G2 & G3 & G4 & G5 & G6 & G7 & G8).
  split_and!; try congruence; etrans; done.
Qed.

Lemma horizontal_tile_lane character is_enemy s sprite :
  same_lane (Level.hs_char s)
    (Level.hs_char (Level.horizontal_tile character is_enemy s sprite)).
Proof.
  unfold Level.horizontal_tile, Level.collide_tile, Level.enemy_check, same_lane.
  cbn.
  repeat (match goal with |- context [if ?b then _ else _] => destruct b end);
    cbn; split_and!; try done; set_solver.
Qed.

Lemma horizontal_sweep_lane character is_enemy tiles s :
  same_lane (Level.hs_char s)
    (Level.hs_char (Level.horizontal_sweep character is_enemy tiles s)).
Proof.
  unfold Level.horizontal_sweep. revert s.
  induction tiles as [|sprite tiles IH]; intros s; cbn; [apply same_lane_refl|].
  eapply same_lane_trans; [apply horizontal_tile_lane | apply IH].
Qed.

Lemma horizontal_sweep_player_direction character tiles s :
  let c' := Level.hs_char (Level.horizontal_sweep character false tiles s) in
  Character.direction c' = Character.direction (Level.hs_char s)
  ∧ Character.speed c' = Character.speed (Level.hs_char s).
Proof.
  unfold Level.horizontal_sweep. revert s.
  induction tiles as [|sprite tiles IH]; intros s; cbn; [done|].
  destruct (IH (Level.horizontal_tile character false s sprite)) as [-> ->].
  by apply (horizontal_tile_direction character false s sprite).
Qed.

Lemma clear_flags_lane cur c : same_lane c (Level.clear_flags cur c).
Proof.
  destruct (clear_flags_spec cur c) as (Hr & Hd & _ & _ & _ & HT & HB).
  unfold same_lane. rewrite Hr. unfold Character.dy. rewrite Hd.
  split_and!; try done;
    unfold Level.clear_flags;
    repeat (match goal with |- context [if ?b then _ else _] => destruct b end); done.
Qed.

(** X4: [horizontal_movement_collision] moves a character along x only.
    The tile group and the output are as before, and of the character the
    rectangle's y, width and height, direction.y, the image, the
    orientation and the flags TOP and BOTTOM are as before; of a player
    the whole direction and the speed are as before (only an enemy is
    ever turned round). *)
Theorem horizontal_pass_keeps_the_lane (character : Level.objref) (l : Level.t)
    (who : Level.sprite) (c0 : Character.t) :
  Level.deref character l = Ok who ->
  Level.x_advance (Level.sprite_base who) = Ok c0 ->
  exists l' who',
    Level.horizontal_movement_collision character l = (Level.Returned, l')
    ∧ Level.deref character l' = Ok who'
    ∧ Level.tiles l' = Level.tiles l
    ∧ Level.stdout l' = Level.stdout l
    ∧ same_lane (Level.sprite_base who) (Level.sprite_base who')
    ∧ (Level.is_Enemy who = false ->
         Character.direction (Level.sprite_base who')
           = Character.direction (Level.sprite_base who)
         ∧ Character.speed (Level.sprite_base who')
             = Character.speed (Level.sprite_base who)).
Proof.
  intros Hd Hx.
  destruct (horizontal_movement_collision_eq character l who c0 Hd Hx)
    as (l' & Hrun & Hd' & _ & Hout & Htiles & _).
  eexists l', _. split; [done|]. split; [done|]. split; [done|]. split; [done|].
  assert (Hbase : forall c1, Level.sprite_base (Level.sprite_set_base c1 who) = c1)
    by (intros c1; by destruct who).
  rewrite Hbase.
  assert (H0 : same_lane (Level.sprite_base who) c0
               ∧ Character.direction c0 = Character.direction (Level.sprite_base who)
               ∧ Character.speed c0 = Character.speed (Level.sprite_base who)).
  { unfold Level.x_advance in Hx.
    destruct (Rect.assign_x _ _) as [r|] eqn:Er; [|done]. cbn in Hx.
    injection Hx as <-. unfold Rect.assign_x in Er.
    destruct (PyNum.trunc _); [|done]. cbn in Er. injection Er as <-.
    by unfold same_lane. }
  destruct H0 as (Hlane0 & Hdir0 & Hsp0).
  split.
  - eapply same_lane_trans; [exact Hlane0|].
    eapply same_lane_trans; [|apply clear_flags_lane].
    apply (horizontal_sweep_lane character (Level.is_Enemy who) (Level.tiles l)
             {| Level.hs_char := c0; Level.hs_current_x := Level.current_x l;
                Level.hs_stdout := Level.stdout l; Level.hs_killed := false |}).
  - intros Hplayer. rewrite Hplayer.
    destruct (clear_flags_spec
                (Level.hs_current_x
                   (Level.horizontal_sweep character false (Level.tiles l)
                      {| Level.hs_char := c0; Level.hs_current_x := Level.current_x l;
                         Level.hs_stdout := Level.stdout l; Level.hs_killed := false |}))
                (Level.hs_char
                   (Level.horizontal_sweep character false (Level.tiles l)
                      {| Level.hs_char := c0; Level.hs_current_x := Level.current_x l;
                         Level.hs_stdout := Level.stdout l; Level.hs_killed := false |})))
      as (_ & -> & -> & _).
    destruct (horizontal_sweep_player_direction character (Level.tiles l)
                {| Level.hs_char := c0; Level.hs_current_x := Level.current_x l;
                   Level.hs_stdout := Level.stdout l; Level.hs_killed := false |})
      as [-> ->].
    done.
Qed.

Lemma horizontal_pass_keeps_the_lane_witness :
  exists l' who',
    Level.horizontal_movement_collision Level.PlayerRef left_mover = (Level.Returned, l')
    ∧ Level.deref Level.PlayerRef l' = Ok who'
    ∧ Level.tiles l' = Level.tiles left_mover
    ∧ Character.dx (Level.sprite_base who') = (-1)%float.
Proof.
  edestruct (horizontal_pass_keeps_the_lane Level.PlayerRef left_mover)
    as (l' & who' & Hrun & Hd & Ht & _ & _ & Hdir);
    [vm_compute; reflexivity.. |].
  exists l', who'. split; [exact Hrun|]. split; [exact Hd|]. split; [exact Ht|].
  unfold Character.dx. destruct Hdir as [-> _]; reflexivity.
Defined.

Lemma colliderect_apart_x (a b : Rect.t) :
  0 <= Rect.w a -> 0 <= Rect.w b ->
  Rect.left b = Rect.right a ∨ Rect.right b = Rect.left a ->
  Rect.colliderect a b = false.
Proof.
  unfold Rect.colliderect, Rect.left, Rect.right. intros Ha Hb Hedge.
  destruct (_ || _); [done|].
  destruct Hedge as [He|He].
  - assert (E : (Z.min (Rect.x b) (Rect.x b + Rect.w b)
                 <? Z.max (Rect.x a) (Rect.x a + Rect.w a)) = false)
      by (apply Z.ltb_ge; lia).
    rewrite E. by rewrite !andb_false_r.
  - assert (E : (Z.min (Rect.x a) (Rect.x a + Rect.w a)
                 <? Z.max (Rect.x b) (Rect.x b + Rect.w b)) = false)
      by (apply Z.ltb_ge; lia).
    by rewrite E.
Qed.

Lemma colliderect_apart_y (a b : Rect.t) :
  0 <= Rect.h a -> 0 <= Rect.h b ->
  Rect.top b = Rect.bottom a ∨ Rect.bottom b = Rect.top a ->
  Rect.colliderect a b = false.
Proof.
  unfold Rect.colliderect, Rect.top, Rect.bottom. intros Ha Hb Hedge.
  destruct (_ || _); [done|].
  destruct Hedge as [He|He].
  - assert (E : (Z.min (Rect.y b) (Rect.y b + Rect.h b)
                 <? Z.max (Rect.y a) (Rect.y a + Rect.h a)) = false)
      by (apply Z.ltb_ge; lia).
    rewrite E. by rewrite !andb_false_r.
  - assert (E : (Z.min (Rect.y a) (Rect.y a + Rect.h a)
                 <? Z.max (Rect.y b) (Rect.y b + Rect.h b)) = false)
      by (apply Z.ltb_ge; lia).
    rewrite E. by rewrite andb_false_r.
Qed.

(** X5: a snap separates.  For a solid tile that does not kill and a
    character overlapping it, both with rectangles of non-negative width
    and height: after the round of the horizontal pass, a character with
    direction.x < 0 or > 0 no longer overlaps the tile; and after the
    round of the vertical pass, a player with direction.y > 0 or < 0 no
    longer overlaps it. *)
Theorem snap_separates (sprite : Square.t) (c : Character.t) :
  Square.collides sprite = true ->
  Square.kills sprite = false ->
  Rect.colliderect (Square.rect sprite) (Character.rect c) = true ->
  0 <= Rect.w (Square.rect sprite) -> 0 <= Rect.h (Square.rect sprite) ->
  0 <= Rect.w (Character.rect c) -> 0 <= Rect.h (Character.rect c) ->
  (forall character s,
     Level.hs_char s = c ->
     (Character.dx c <? 0)%float = true ∨ (0 <? Character.dx c)%float = true ->
     Rect.colliderect (Square.rect sprite)
       (Character.rect (Level.hs_char (Level.collide_tile character sprite s))) = false)
  ∧ (forall p,
       Player.base p = c ->
       (0 <? Character.dy c)%float = true ∨ (Character.dy c <? 0)%float = true ->
       exists p', Level.land_on_tile sprite p = Some p'
         ∧ Rect.colliderect (Square.rect sprite) (Character.rect (Player.base p')) = false).
Proof.
  intros Hc Hk Hr Hws Hhs Hwc Hhc. split.
  - intros character s <- [Hd|Hd].
    + rewrite collide_tile_left by done. cbn.
      apply colliderect_apart_x; [done|done|]. by left.
    + rewrite collide_tile_right by done. cbn.
      apply colliderect_apart_x; [done|done|]. right.
      unfold Rect.right, Rect.left, Rect.set_right. cbn. lia.
  - intros p <- Hd. unfold Level.land_on_tile, PyNum.gt, PyNum.lt.
    rewrite Hc, Hr, Hk.
    destruct (0 <? Character.dy (Player.base p))%float eqn:Epos.
    + eexists. split; [done|]. cbn.
      apply colliderect_apart_y; [done|done|]. right.
      unfold Rect.bottom, Rect.top, Rect.set_bottom. cbn. lia.
    + destruct Hd as [Hd|Hd]; [done|]. rewrite Hd.
      eexists. split; [done|]. cbn.
      apply colliderect_apart_y; [done|done|]. by left.
Qed.

Lemma snap_separates_witness :
  Rect.colliderect (Square.rect sample_wall) (Character.rect sample_walker) = true
  ∧ Rect.colliderect (Square.rect sample_wall)
      (Character.rect
         (Level.hs_char (Level.collide_tile Level.PlayerRef sample_wall sample_sweep)))
    = false.
Proof.
  edestruct (snap_separates sample_wall sample_walker) as [Hh _];
    try (vm_compute; reflexivity); try (vm_compute; discriminate).
  split; [vm_compute; reflexivity|].
  apply (Hh Level.PlayerRef sample_sweep); [reflexivity | left; vm_compute; reflexivity].
Defined.

(** ** Character.handle_collisions *)

(** X6: [handle_collisions] gives the rectangle the size of the current
    image and keeps the point the flags name: the bottom edge with BOTTOM,
    else the top edge with TOP; the right edge with RIGHT, else the left
    edge with LEFT, else the centre.  With neither BOTTOM nor TOP the
    character is as before.  Calling it twice is calling it once. *)
Theorem handle_collisions_keeps_its_anchor (c : Character.t) :
  let c' := Character.handle_collisions c in
  let r := Character.rect c in
  let r' := Character.rect c' in
  let has f := f ∈ Character.collisions c in
  Character.handle_collisions c' = c'
  ∧ (¬ has C_BOTTOM -> ¬ has C_TOP -> c' = c)
  ∧ (has C_BOTTOM ∨ has C_TOP ->
       Rect.w r' = img_w (Character.image c) ∧ Rect.h r' = img_h (Character.image c)
       ∧ (has C_BOTTOM -> Rect.bottom r' = Rect.bottom r)
       ∧ (¬ has C_BOTTOM -> Rect.top r' = Rect.top r)
       ∧ (has C_RIGHT -> Rect.right r' = Rect.right r)
       ∧ (¬ has C_RIGHT -> has C_LEFT -> Rect.left r' = Rect.left r)
       ∧ (¬ has C_RIGHT -> ¬ has C_LEFT -> Rect.centerx r' = Rect.centerx r))
  ∧ Character.collisions c' = Character.collisions c
  ∧ Character.direction c' = Character.direction c
  ∧ Character.image c' = Character.image c.
Proof.
  intros c' r r' has. subst c' r r' has.
  unfold Character.handle_collisions, Character.touching.
  destruct c as [img [x y w h] sp o coll dir]. cbn.
  destruct (decide (C_BOTTOM ∈ coll)) as [HB|HB];
    destruct (decide (C_TOP ∈ coll)) as [HT|HT];
    destruct (decide (C_RIGHT ∈ coll)) as [HR|HR];
    destruct (decide (C_LEFT ∈ coll)) as [HL|HL];
    rewrite ?(bool_decide_eq_true_2 _ HB), ?(bool_decide_eq_false_2 _ HB),
            ?(bool_decide_eq_true_2 _ HT), ?(bool_decide_eq_false_2 _ HT),
            ?(bool_decide_eq_true_2 _ HR), ?(bool_decide_eq_false_2 _ HR),
            ?(bool_decide_eq_true_2 _ HL), ?(bool_decide_eq_false_2 _ HL);
    cbn;
    rewrite ?(bool_decide_eq_true_2 _ HB), ?(bool_decide_eq_false_2 _ HB),
            ?(bool_decide_eq_true_2 _ HT), ?(bool_decide_eq_false_2 _ HT),
            ?(bool_decide_eq_true_2 _ HR), ?(bool_decide_eq_false_2 _ HR),
            ?(bool_decide_eq_true_2 _ HL), ?(bool_decide_eq_false_2 _ HL);
    cbn;
    (split_and!; try done; try tauto;
     try (unfold Character.set_rect, get_rect, Rect.set_top, Rect.set_bottom,
            Rect.set_left, Rect.set_right, Rect.set_centerx, Rect.set_x, Rect.set_y,
            Rect.bottomright, Rect.bottomleft, Rect.midbottom, Rect.topright,
            Rect.topleft, Rect.midtop, Rect.bottom, Rect.top, Rect.left, Rect.right,
            Rect.centerx; cbn; do 2 f_equal; lia);
     try (intros _; unfold Rect.bottom, Rect.top, Rect.left, Rect.right, Rect.centerx;
          cbn; split_and!; intros; try done; try tauto; lia)).
Qed.

(** ** game.main *)

(** X7: the event loop ends once.  When [main] has ended within the
    frames [fs1] (by a QUIT event, by [GameOver] or by another exception),
    frames after them change nothing; while it is still running it has
    called [level.run] once per frame, and goes on from the level it
    reached.  It never calls [level.run] more often than there are
    frames. *)
Theorem main_ends_once (A : Assets) (fs1 fs2 : list Game.Frame) (l : Level.t) :
  match Game.main A fs1 l with
  | (Game.Running, l1, n1) =>
      n1 = length fs1
      ∧ Game.main A (fs1 ++ fs2) l
        = (let '(e, l2, n2) := Game.main A fs2 l1 in (e, l2, (n1 + n2)%nat))
  | (e, l1, n1) =>
      (n1 <= length fs1)%nat ∧ Game.main A (fs1 ++ fs2) l = (e, l1, n1)
  end.
Proof.
  revert l. induction fs1 as [|f fs1 IH]; intros l; cbn.
  - split; [done|]. by destruct (Game.main A fs2 l) as [[e l2] n2].
  - destruct (Game.quit_event f); [split; [lia|done]|].
    destruct (Level.run A (Game.input f) l) as [[|e] l'].
    + specialize (IH l').
      destruct (Game.main A fs1 l') as [[e1 l1] n1].
      destruct e1; destruct IH as [Hn ->].
      * split; [by rewrite Hn|]. by destruct (Game.main A fs2 l1) as [[e2 l2] n2].
      * split; [lia|done].
      * split; [lia|done].
    + destruct e; (split; [lia|done]).
Qed.

(** ** Saving: Level.save and Save.from_json *)

(** X8: what the keys at the end of a frame do to the stores.  Escape
    raises [GameOver] and saves nothing, also when S is held.  S alone
    first writes the save of the current score and layout under the key
    of its name into the database, then posts it: the local copy is there
    whatever the remote service answers, also when the request itself
    raises; the answer only decides what is printed and whether the
    exception of the request leaves [run]. *)
Theorem save_keeps_the_local_copy (i : Level.Input) (l : Level.t) (p : Player.t) :
  Level.player l = Some p ->
  let s := {| Save.name := "Player 1"; Save.score := Player.score p; Save.level := 0;
              Save.map := Level.level_data l; Save.created_at := "today" |} in
  (K_ESCAPE (Level.keys_level i) = true ->
     Level.handle_level_keys i l = (Level.Raised GameOver, l))
  ∧ (K_ESCAPE (Level.keys_level i) = false -> K_s (Level.keys_level i) = true ->
     exists l',
       Level.handle_level_keys i l
         = (match Level.response i with
            | Some _ => Level.Returned
            | None => Level.Raised RequestException
            end, l')
       ∧ Level.db l' = <["Player 1" := Save.to_json s]> (Level.db l)
       ∧ Level.stdout l'
         = Level.stdout l ++ "Saved to database" ::
             match Level.response i with
             | Some code => [pretty code; if code =? 200 then "Saved" else "Error"]
             | None => []
             end
       ∧ Level.player l' = Level.player l
       ∧ Level.tiles l' = Level.tiles l
       ∧ Level.enemies l' = Level.enemies l
       ∧ Level.level_data l' = Level.level_data l).
Proof.
  intros Hp s. unfold Level.handle_level_keys. split.
  - by intros ->.
  - intros -> ->.
    unfold Level.save, Level.andthen, Level.update_db, Level.save_to_api,
      Level.attempt, Level.get_save.
    rewrite Hp. cbn. rewrite Hp. cbn.
    destruct (Level.response i) as [code|]; cbn.
    + destruct (code =? 200); eexists; (split; [reflexivity|]); cbn;
        rewrite <- ?app_assoc; by split_and!.
    + eexists. split; [reflexivity|]. by split_and!.
Qed.

Lemma save_keeps_the_local_copy_witness :
  exists l',
    Level.handle_level_keys
      {| Level.keys_player := no_keys; Level.time_now := 1; Level.time_stamp := 1;
         Level.keys_level := {| K_RIGHT := false; K_LEFT := false; K_UP := false;
                                K_SPACE := false; K_ESCAPE := false; K_s := true |};
         Level.response := None |} sample_level
      = (Level.Raised RequestException, l')
    ∧ is_Some (Level.db l' !! "Player 1").
Proof.
  edestruct (save_keeps_the_local_copy
               {| Level.keys_player := no_keys; Level.time_now := 1; Level.time_stamp := 1;
                  Level.keys_level := {| K_RIGHT := false; K_LEFT := false; K_UP := false;
                                         K_SPACE := false; K_ESCAPE := false; K_s := true |};
                  Level.response := None |} sample_level)
    as [_ Hsave]; [vm_compute; reflexivity|].
  destruct (Hsave eq_refl eq_refl) as (l' & Hrun & Hdb & _).
  exists l'. split; [exact Hrun|].
  rewrite Hdb, lookup_insert_eq. eexists; reflexivity.
Defined.

(** X9: [from_json] reads the five keys and nothing else, whatever the
    validating library makes of ill-typed values.  A dict that lacks one
    of the keys raises [KeyError], whatever its other values are, so a
    dict that decodes has all five; two dicts that agree on the five
    keys decode alike; and a dict whose values at the five keys are of
    their fields' types decodes to a save whose encoding gives back the
    dict's entries at the five keys. *)
Theorem from_json_reads_five_keys (c : Save.lax) (j : gmap string json) :
  (¬ save_keys ⊆ dom j -> Save.from_json c j = Raise KeyError)
  ∧ (forall j', (forall k, k ∈ save_keys -> j' !! k = j !! k) ->
       Save.from_json c j' = Save.from_json c j)
  ∧ (forall s, Save.from_json c j = Ok s -> save_keys ⊆ dom j)
  ∧ (of_field_types j ->
       exists s, Save.from_json c j = Ok s ∧ Save.to_json s ⊆ j).
Proof.
  assert (Hkeys : forall v1 v2 v3 v4 v5,
            j !! "name" = Some v1 -> j !! "score" = Some v2 ->
            j !! "level" = Some v3 -> j !! "map" = Some v4 ->
            j !! "created_at" = Some v5 -> save_keys ⊆ dom j).
  { intros v1 v2 v3 v4 v5 E1 E2 E3 E4 E5. unfold save_keys. intros k Hk.
    apply elem_of_dom.
    set_unfold in Hk. destruct_or!; subst k; by eexists. }
  split_and!.
  - intros Hnot. unfold Save.from_json, Save.getitem.
    destruct (j !! "name") as [v1|] eqn:E1; [|done].
    destruct (j !! "score") as [v2|] eqn:E2; [|done].
    destruct (j !! "level") as [v3|] eqn:E3; [|done].
    destruct (j !! "map") as [v4|] eqn:E4; [|done].
    destruct (j !! "created_at") as [v5|] eqn:E5; [|done].
    exfalso. apply Hnot. by eapply Hkeys.
  - intros j' Hagree. unfold Save.from_json, Save.getitem.
    assert (Hin : forall k, k ∈ ["name"; "score"; "level"; "map"; "created_at"] ->
                          k ∈ save_keys)
      by (intros k Hk; unfold save_keys; set_unfold in Hk; set_unfold; tauto).
    rewrite !Hagree by (apply Hin; set_solver). done.
  - intros s H. unfold Save.from_json, Save.getitem in H.
    destruct (j !! "name") as [v1|] eqn:E1; [|done].
    destruct (j !! "score") as [v2|] eqn:E2; [|done].
    destruct (j !! "level") as [v3|] eqn:E3; [|done].
    destruct (j !! "map") as [v4|] eqn:E4; [|done].
    destruct (j !! "created_at") as [v5|] eqn:E5; [|done].
    by eapply Hkeys.
  - intros ([n E1] & [sc E2] & [lv E3] & [rows E4] & [cr E5]).
    exists {| Save.name := n; Save.score := sc; Save.level := lv; Save.map := rows;
              Save.created_at := cr |}.
    split.
    + unfold Save.from_json, Save.getitem. rewrite E1, E2, E3, E4, E5. cbn.
      by rewrite as_strs_fmap.
    + unfold Save.to_json. cbn.
      repeat (apply insert_subseteq_l; [done|]).
      apply map_empty_subseteq.
Qed.

(** ** Level.spawn_sprites, cell by cell *)

Lemma spawn_cell_bad A r c cell acc :
  cell ∉ cell_codes -> Level.spawn_cell A r c cell acc = Raise ValueError.
Proof.
  intros H. unfold Level.spawn_cell, CellType_of.
  repeat (case_decide; [subst; exfalso; apply H; unfold cell_codes; set_solver|]).
  done.
Qed.

Lemma spawn_row_total A r c row acc :
  (Forall (fun cell => cell ∈ cell_codes) row
   ∧ exists acc', Level.spawn_row A r c row acc = Ok acc')
  ∨ (¬ Forall (fun cell => cell ∈ cell_codes) row
     ∧ Level.spawn_row A r c row acc = Raise ValueError).
Proof.
  revert c acc. induction row as [|cell row IH]; intros c acc; cbn.
  - left. split; [constructor | by eexists].
  - destruct (decide (cell ∈ cell_codes)) as [Hin|Hout].
    + destruct (spawn_cell_ok A r c cell acc Hin) as (acc1 & -> & _). cbn.
      destruct (IH (S c) acc1) as [[Hall Hok]|[Hnot Hraise]].
      * left. split; [by constructor | done].
      * right. split; [|done]. intros Hall. apply Hnot. by inversion Hall.
    + right. rewrite spawn_cell_bad by done. split; [|done].
      intros Hall. apply Hout. by inversion Hall.
Qed.

Lemma spawn_rows_total A r layout acc :
  (well_formed_layout layout
   ∧ exists acc', Level.spawn_rows A r layout acc = Ok acc')
  ∨ (¬ well_formed_layout layout
     ∧ Level.spawn_rows A r layout acc = Raise ValueError).
Proof.
  unfold well_formed_layout.
  revert r acc. induction layout as [|row layout IH]; intros r acc; cbn.
  - left. split; [constructor | by eexists].
  - destruct (spawn_row_total A r 0 (list_ascii_of_string row) acc)
      as [[Hrow [acc1 ->]]|[Hnot ->]]; cbn.
    + destruct (IH (S r) acc1) as [[Hall Hok]|[Hnot Hraise]].
      * left. split; [by constructor | done].
      * right. split; [|done]. intros Hall. apply Hnot. by inversion Hall.
    + right. split; [|done]. intros Hall. apply Hnot. by inversion Hall.
Qed.

(** X10: [spawn_sprites] returns exactly on the layouts that are made of
    the six cell codes and have a ['P'] cell; on every other layout it
    raises, and what it raises is a [ValueError] (of [CellType(cell)] for
    an unknown code, else of the missing player). *)
Theorem spawn_sprites_returns_iff (A : Assets) (layout : list string)
    (enemies : list (option Enemy.t)) :
  ((exists r, Level.spawn_sprites A layout enemies = Ok r)
     <-> well_formed_layout layout ∧ has_player_cell layout)
  ∧ (forall e, Level.spawn_sprites A layout enemies = Raise e -> e = ValueError).
Proof.
  unfold Level.spawn_sprites.
  destruct (spawn_rows_total A 0 layout
              {| Level.sp_tiles := []; Level.sp_player := None;
                 Level.sp_enemies := enemies |}) as [[Hwf _]|[Hnot ->]].
  - destruct (spawn_rows_ok A 0 layout
                {| Level.sp_tiles := []; Level.sp_player := None;
                   Level.sp_enemies := enemies |} Hwf) as (acc & -> & Hyes & Hno).
    cbn in *. split; [split|].
    + intros [r Hr]. split; [done|].
      destruct (Level.sp_player acc) as [p|] eqn:Ep; [|done].
      destruct (decide (Exists (fun row => "P"%char ∈ list_ascii_of_string row) layout))
        as [HP|HP]; [exact HP|].
      by specialize (Hno HP).
    + intros [_ HP]. destruct (Hyes (or_introl HP)) as [p ->]. by eexists.
    + intros e. destruct (Level.sp_player acc); [done|]. by intros [= <-].
  - cbn. split; [split|].
    + by intros [r Hr].
    + by intros [Hwf _].
    + by intros e [= <-].
Qed.

Lemma cells_of_row_cons {X} (f : nat -> nat -> ascii -> option X) r c0 cell row :
  cells_of_row f r c0 (cell :: row)
  = match f r c0 cell with Some x => [x] | None => [] end
    ++ cells_of_row f r (S c0) row.
Proof.
  unfold cells_of_row. cbn [imap]. rewrite Nat.add_0_r. cbn [omap].
  assert (E : imap ((fun c cell0 => f r (c0 + c)%nat cell0) ∘ S) row
              = imap (fun c cell0 => f r (S c0 + c)%nat cell0) row).
  { apply imap_ext. intros i x _. cbn. f_equal. lia. }
  rewrite E. unfold list_omap at 1. cbn. by destruct (f r c0 cell).
Qed.

Lemma cells_from_cons {X} (f : nat -> nat -> ascii -> option X) r0 row layout :
  cells_from f r0 (row :: layout)
  = cells_of_row f r0 0 (list_ascii_of_string row) ++ cells_from f (S r0) layout.
Proof.
  unfold cells_from. cbn [imap]. rewrite Nat.add_0_r. cbn. f_equal. f_equal.
  apply imap_ext. intros i x _. cbn. f_equal. lia.
Qed.

(** The accumulator [acc'] is [acc] grown by the lists [ts] of tiles and
    [es] of enemy groups, with the last of the players [ps] in place of
    its own when there is one. *)
Lemma spawned_grown_trans acc acc1 acc2 ts1 es1 ps1 ts2 es2 (ps2 : list Player.t) :
  (Level.sp_tiles acc1 = Level.sp_tiles acc ++ ts1
   ∧ Level.sp_enemies acc1 = Level.sp_enemies acc ++ es1
   ∧ Level.sp_player acc1
     = match last ps1 with Some p => Some p | None => Level.sp_player acc end) ->
  (Level.sp_tiles acc2 = Level.sp_tiles acc1 ++ ts2
   ∧ Level.sp_enemies acc2 = Level.sp_enemies acc1 ++ es2
   ∧ Level.sp_player acc2
     = match last ps2 with Some p => Some p | None => Level.sp_player acc1 end) ->
  Level.sp_tiles acc2 = Level.sp_tiles acc ++ (ts1 ++ ts2)
  ∧ Level.sp_enemies acc2 = Level.sp_enemies acc ++ (es1 ++ es2)
  ∧ Level.sp_player acc2
    = match last (ps1 ++ ps2) with Some p => Some p | None => Level.sp_player acc end.
Proof.
  intros (H1 & H2 & H3) (G1 & G2 & G3).
  rewrite G1, G2, G3, H1, H2, H3, !app_assoc, last_app.
  split_and!; try done. by destruct (last ps2).
Qed.

Lemma spawn_cell_by_cell A r c cell acc acc' :
  Level.spawn_cell A r c cell acc = Ok acc' ->
  Level.sp_tiles acc' = Level.sp_tiles acc
      ++ match tile_of_cell A r c cell with Some x => [x] | None => [] end
  ∧ Level.sp_enemies acc' = Level.sp_enemies acc
      ++ match enemy_of_cell A r c cell with Some x => [x] | None => [] end
  ∧ Level.sp_player acc'
    = match last (match player_of_cell A r c cell with Some x => [x] | None => [] end)
      with Some p => Some p | None => Level.sp_player acc end.
Proof.
  unfold Level.spawn_cell, CellType_of, tile_of_cell, enemy_of_cell, player_of_cell,
    wall_at, enemy_floor_at, enemy_at.
  intros H.
  repeat (case_decide; subst; try done);
    cbn in H; try done; injection H as <-; cbn; rewrite ?app_nil_r; done.
Qed.

Lemma spawn_row_by_cell A r c row acc acc' :
  Level.spawn_row A r c row acc = Ok acc' ->
  Level.sp_tiles acc' = Level.sp_tiles acc ++ cells_of_row (tile_of_cell A) r c row
  ∧ Level.sp_enemies acc' = Level.sp_enemies acc ++ cells_of_row (enemy_of_cell A) r c row
  ∧ Level.sp_player acc'
    = match last (cells_of_row (player_of_cell A) r c row)
      with Some p => Some p | None => Level.sp_player acc end.
Proof.
  revert c acc. induction row as [|cell row IH]; intros c acc H; cbn in H.
  - injection H as <-. cbn. by rewrite !app_nil_r.
  - destruct (Level.spawn_cell A r c cell acc) as [acc1|] eqn:E1; [|done]. cbn in H.
    rewrite !cells_of_row_cons.
    eapply spawned_grown_trans; [by apply spawn_cell_by_cell | by apply IH].
Qed.

Lemma spawn_rows_by_cell A r layout acc acc' :
  Level.spawn_rows A r layout acc = Ok acc' ->
  Level.sp_tiles acc' = Level.sp_tiles acc ++ cells_from (tile_of_cell A) r layout
  ∧ Level.sp_enemies acc' = Level.sp_enemies acc ++ cells_from (enemy_of_cell A) r layout
  ∧ Level.sp_player acc'
    = match last (cells_from (player_of_cell A) r layout)
      with Some p => Some p | None => Level.sp_player acc end.
Proof.
  revert r acc. induction layout as [|row layout IH]; intros r acc H; cbn in H.
  - injection H as <-. cbn. by rewrite !app_nil_r.
  - destruct (Level.spawn_row A r 0 (list_ascii_of_string row) acc) as [acc1|] eqn:E1;
      [|done]. cbn in H.
    rewrite !cells_from_cons.
    eapply spawned_grown_trans; [by apply spawn_row_by_cell | by apply IH].
Qed.

(** X11: what [spawn_sprites] builds, read off the layout.  The tile
    group holds, in the order of the rows and within a row from left to
    right, one tile for each cell ['X'], ['C'], ['D'] and ['E'] (a coin
    inset by 16 pixels, the others at 64 times the column and the row);
    [self.enemies] grows by one enemy per ['E'] cell in the same order;
    and the player is the one of the last ['P'] cell: earlier ones are
    dropped. *)
Theorem spawn_sprites_by_cell (A : Assets) (layout : list string)
    (enemies enemies' : list (option Enemy.t)) (tiles : list Square.t)
    (player : option Player.t) :
  Level.spawn_sprites A layout enemies = Ok (tiles, player, enemies') ->
  tiles = cells_of (tile_of_cell A) layout
  ∧ enemies' = enemies ++ cells_of (enemy_of_cell A) layout
  ∧ player = last (cells_of (player_of_cell A) layout)
  ∧ is_Some player.
Proof.
  unfold Level.spawn_sprites. intros H.
  destruct (Level.spawn_rows A 0 layout _) as [acc|] eqn:E; [|done]. cbn in H.
  apply spawn_rows_by_cell in E as (Ht & He & Hp). cbn in Ht, He, Hp.
  destruct (Level.sp_player acc) as [p|] eqn:Ep; [|done].
  injection H as <- <- <-.
  unfold cells_of. split_and!; [done|done| |by eexists].
  by destruct (last (cells_from (player_of_cell A) 0 layout)).
Qed.

Lemma spawn_sprites_by_cell_witness :
  exists tiles player,
    Level.spawn_sprites sample_assets ["PX"; "CP"] [] = Ok (tiles, player, [])
    ∧ tiles = cells_of (tile_of_cell sample_assets) ["PX"; "CP"]
    ∧ player = last (cells_of (player_of_cell sample_assets) ["PX"; "CP"]).
Proof.
  eexists _, _. split; [vm_compute; reflexivity|].
  edestruct (spawn_sprites_by_cell sample_assets ["PX"; "CP"] [])
    as (Ht & _ & Hp & _); [vm_compute; reflexivity|].
  exact (conj Ht Hp).
Defined.

(** ** The flight of a bullet *)

Lemma fly_snoc (n : nat) (b : Bullet.t) :
  fly (S n) b = (b' ← fly n b; Shooter.display_bullet b').
Proof.
  assert (Hstep : forall m c, fly (S m) c = (c' ← Shooter.display_bullet c; fly m c'))
    by reflexivity.
  revert b. induction n as [|n IH]; intros b.
  - cbn. by destruct (Shooter.display_bullet b).
  - rewrite (Hstep (S n) b), (Hstep n b).
    destruct (Shooter.display_bullet b) as [b1|]; [apply IH | done].
Qed.

(** X12: the flight of a bullet of an int speed [v], in closed form.
    After [n] rounds of [display_bullets] it is [n * v] pixels from where
    it was spawned, on the side it was fired to, at the height it was
    fired at; it is alive exactly while [n * |v|] is at most 550, and
    from the first round on it is drawn exactly while it is alive.  A
    dead bullet is never revived, but it goes on moving. *)
Theorem bullet_flight (x y : Z) (img : Image) (o : Orientation) (v : Z) (n : nat) :
  exists b,
    fly n (Bullet.new x y img o (PyNum.PInt v)) = Ok b
    ∧ Rect.x (Bullet.rect b) = x + heading o * (Z.of_nat n * v)
    ∧ Rect.y (Bullet.rect b) = y
    ∧ Bullet.is_alive b = (Z.of_nat n * Z.abs v <=? 550)
    ∧ ((0 < n)%nat -> Shooter.drawn b = Bullet.is_alive b).
Proof.
  assert (Hgen : exists b,
    fly n (Bullet.new x y img o (PyNum.PInt v)) = Ok b
    ∧ Rect.x (Bullet.rect b) = x + heading o * (Z.of_nat n * v)
    ∧ Rect.y (Bullet.rect b) = y
    ∧ Bullet.is_alive b = (Z.of_nat n * Z.abs v <=? 550)
    ∧ ((0 < n)%nat -> Shooter.drawn b = Bullet.is_alive b)
    ∧ Bullet.spawn_x b = x ∧ Bullet.orientation b = o
    ∧ Bullet.speed b = PyNum.PInt v).
  { induction n as [|n IH].
    - eexists. split; [reflexivity|]. cbn. split_and!; try done; try lia.
    - destruct IH as (b & Hfly & Hx & Hy & Halive & _ & Hsp & Ho & Hv).
      rewrite fly_snoc, Hfly. cbn.
      unfold Shooter.display_bullet, Bullet.update, Bullet.rect_x_sub, Bullet.rect_x_add.
      cbn. rewrite Hv, Ho.
      assert (Hd : forall d, d = heading o * v ->
                Z.abs (Rect.x (Bullet.rect b) + d - Bullet.spawn_x b)
                = Z.of_nat (S n) * Z.abs v).
      { intros d ->. rewrite Hx, Hsp.
        replace (x + heading o * (Z.of_nat n * v) + heading o * v - x)
          with (heading o * (Z.of_nat (S n) * v)) by lia.
        rewrite !Z.abs_mul, (Z.abs_eq (Z.of_nat (S n))) by lia.
        destruct o; cbn [heading]; change (Z.abs 1) with 1; change (Z.abs (-1)) with 1;
          lia. }
      assert (Hs : Z.of_nat (S n) * Z.abs v = Z.of_nat n * Z.abs v + Z.abs v) by lia.
      pose proof (Z.abs_nonneg v) as Hnn.
      destruct o; [rewrite decide_False by done | rewrite decide_True by done]; cbn;
        unfold Bullet.displacement; cbn;
        [rewrite (Hd v) by (cbn; lia)
        | replace (Rect.x (Bullet.rect b) - v) with (Rect.x (Bullet.rect b) + - v) by lia;
          rewrite (Hd (- v)) by (cbn; lia)];
        (destruct (550 <? Z.of_nat (S n) * Z.abs v) eqn:E; eexists;
         (split; [reflexivity|]); cbn; rewrite ?Hx, ?Hy, ?Hsp;
         [apply Z.ltb_lt in E | apply Z.ltb_ge in E];
         split_and!;
         solve [ done
               | cbn [heading]; lia
               | symmetry; apply Z.leb_gt; lia
               | rewrite Halive; transitivity true;
                 [apply Z.leb_le; lia | symmetry; apply Z.leb_le; lia]
               | intros _; rewrite ?Halive; unfold Shooter.drawn; cbn;
                 first [done | symmetry; apply Z.leb_le; lia] ]). }
  destruct Hgen as (b & H1 & H2 & H3 & H4 & H5 & _). by exists b.
Qed.

(** ** Player.handle_key_presses *)

Lemma set_orientation_spec (v : Orientation) (p p' : Player.t) :
  Player.set_orientation v p = Ok p' ->
  Character.orientation (Player.base p') = v
  ∧ Character.direction (Player.base p') = Character.direction (Player.base p)
  ∧ Character.collisions (Player.base p') = Character.collisions (Player.base p)
  ∧ Character.speed (Player.base p') = Character.speed (Player.base p)
  ∧ Rect.x (Character.rect (Player.base p')) = Rect.x (Character.rect (Player.base p))
  ∧ Rect.y (Character.rect (Player.base p')) = Rect.y (Character.rect (Player.base p))
  ∧ Player.shooter p' = Player.shooter p
  ∧ Player.score p' = Player.score p
  ∧ Player.status p' = Player.status p
  ∧ Player.bullet_image p' = Player.bullet_image p.
Proof.
  unfold Player.set_orientation. intros H.
  destruct (index_float _ _) as [img|]; [|done]. cbn in H.
  injection H as <-. by cbn.
Qed.

(** X13: what the keys do to the player.  RIGHT wins over LEFT, and
    without either the player stops; the jump happens only with UP and
    the flag BOTTOM, and with it the jump particles are made; the
    position, the flags, the score and the status are as before; and the
    list of bullets only grows at its end, by at most one bullet and only
    with SPACE. *)
Theorem keys_steer_the_player {X} (create_jump_particles : Player.t -> Z * Z -> result X)
    (keys : Keys) (now stamp : Time) (p p' : Player.t) (made : option X) :
  Player.handle_key_presses create_jump_particles keys now stamp p = Ok (p', made) ->
  let c := Player.base p in
  let c' := Player.base p' in
  Character.dx c' = (if K_RIGHT keys then 1 else if K_LEFT keys then -1 else 0)%float
  ∧ Character.orientation c'
    = (if K_RIGHT keys then RIGHT else if K_LEFT keys then LEFT
       else Character.orientation c)
  ∧ (if K_UP keys && Character.touching C_BOTTOM c
     then Character.dy c' = (-16)%float ∧ is_Some made
     else Character.dy c' = Character.dy c ∧ made = None)
  ∧ Rect.x (Character.rect c') = Rect.x (Character.rect c)
  ∧ Rect.y (Character.rect c') = Rect.y (Character.rect c)
  ∧ Character.collisions c' = Character.collisions c
  ∧ Player.score p' = Player.score p
  ∧ Player.status p' = Player.status p
  ∧ (exists fired, Shooter.bullets (Player.shooter p')
                   = Shooter.bullets (Player.shooter p) ++ fired
                 ∧ (length fired <= 1)%nat
                 ∧ (K_SPACE keys = false -> fired = [])).
Proof.
  intros H c c'. subst c c'. unfold Player.handle_key_presses in H.
  set (turned := if K_RIGHT keys
                 then Player.set_orientation RIGHT
                        (Player.set_base (Character.set_dx 1 (Player.base p)) p)
                 else if K_LEFT keys
                      then Player.set_orientation LEFT
                             (Player.set_base (Character.set_dx (-1) (Player.base p)) p)
                      else Ok (Player.set_base (Character.set_dx 0 (Player.base p)) p))
    in H.
  destruct turned as [q|] eqn:Eq; [|done]. cbn in H.
  assert (Hq : Character.dx (Player.base q)
               = (if K_RIGHT keys then 1 else if K_LEFT keys then -1 else 0)%float
             ∧ Character.orientation (Player.base q)
               = (if K_RIGHT keys then RIGHT else if K_LEFT keys then LEFT
                  else Character.orientation (Player.base p))
             ∧ Character.dy (Player.base q) = Character.dy (Player.base p)
             ∧ Character.collisions (Player.base q) = Character.collisions (Player.base p)
             ∧ Rect.x (Character.rect (Player.base q))
               = Rect.x (Character.rect (Player.base p))
             ∧ Rect.y (Character.rect (Player.base q))
               = Rect.y (Character.rect (Player.base p))
             ∧ Player.shooter q = Player.shooter p
             ∧ Player.score q = Player.score p
             ∧ Player.status q = Player.status p).
  { subst turned. unfold Character.dx, Character.dy.
    destruct (K_RIGHT keys); [|destruct (K_LEFT keys)].
    - apply set_orientation_spec in Eq as (-> & -> & -> & _ & -> & -> & -> & -> & -> & _).
      by cbn.
    - apply set_orientation_spec in Eq as (-> & -> & -> & _ & -> & -> & -> & -> & -> & _).
      by cbn.
    - injection Eq as <-. by cbn. }
  destruct Hq as (Hdx & Ho & Hdy & Hc & Hx & Hy & Hsh & Hsc & Hst).
  assert (Htouch : Character.touching C_BOTTOM (Player.base q)
                   = Character.touching C_BOTTOM (Player.base p))
    by (unfold Character.touching; by rewrite Hc).
  rewrite Htouch in H.
  destruct (K_UP keys && Character.touching C_BOTTOM (Player.base p)) eqn:Eup.
  - destruct (create_jump_particles _ _) as [particle|]; [|done]. cbn in H.
    injection H as <- <-.
    unfold Player.shoot, Shooter.shoot.
    destruct (K_SPACE keys); [destruct (Shooter.cooled_down _ _)|]; cbn;
      rewrite ?Hsh; unfold Character.dx, Character.dy in *; cbn;
      (split_and!; try done; try (by eexists);
       try (change (float_of_Z (-16)) with (-16)%float; reflexivity);
       first [ exists []; rewrite app_nil_r; split_and!; [done | cbn; lia | done]
             | eexists [_]; split_and!; [done | cbn; lia | done] ]).
  - cbn in H. injection H as <- <-.
    unfold Player.shoot, Shooter.shoot.
    destruct (K_SPACE keys); [destruct (Shooter.cooled_down _ _)|]; cbn;
      rewrite ?Hsh; unfold Character.dx, Character.dy in *; cbn;
      (split_and!; try done;
       first [ exists []; rewrite app_nil_r; split_and!; [done | cbn; lia | done]
             | eexists [_]; split_and!; [done | cbn; lia | done] ]).
Qed.

Lemma keys_steer_the_player_witness :
  exists p' made,
    Player.handle_key_presses (Level.create_jump_particles sample_assets)
      {| K_RIGHT := true; K_LEFT := true; K_UP := true; K_SPACE := true;
         K_ESCAPE := false; K_s := false |} 1 1
      (Player.new sample_assets 64 64 (player_image sample_assets)
         (bullet_tile sample_assets)) = Ok (p', made)
    ∧ Character.dx (Player.base p') = 1%float
    ∧ Character.orientation (Player.base p') = RIGHT.
Proof.
  eexists _, _. split; [vm_compute; reflexivity|].
  edestruct (keys_steer_the_player (Level.create_jump_particles sample_assets)
               {| K_RIGHT := true; K_LEFT := true; K_UP := true; K_SPACE := true;
                  K_ESCAPE := false; K_s := false |} 1 1
               (Player.new sample_assets 64 64 (player_image sample_assets)
                  (bullet_tile sample_assets)))
    as (Hdx & Ho & _); [vm_compute; reflexivity|].
  exact (conj Hdx Ho).
Defined.

(** ** Level.handle_horizontal_movement *)

(** X14: the camera.  With a player in its group,
    [handle_horizontal_movement] returns, and either the world stands and
    the player's speed is 8, or the world scrolls by 16 pixels against
    the player's direction and the player's speed is 0: to the right
    (+16) only while the player heads left with its centre left of the
    first quarter of the screen, to the left (-16) only while it heads
    right with its centre right of the third quarter.  Nothing else of
    the player or the level changes. *)
Theorem camera_or_player_moves (l : Level.t) (p : Player.t) :
  Level.player l = Some p ->
  exists l' shift speed,
    Level.handle_horizontal_movement l = (Level.Returned, l')
    ∧ l' = Level.set_player
             (Some (Player.set_base (Character.set_speed speed (Player.base p)) p))
             (Level.set_world_shift shift l)
    ∧ ((shift = 0 ∧ speed = 8%float)
       ∨ (shift = 16 ∧ speed = 0%float
          ∧ (Character.dx (Player.base p) <? 0)%float = true
          ∧ (float_of_Z (Rect.centerx (Character.rect (Player.base p))) <? 300)%float
            = true)
       ∨ (shift = -16 ∧ speed = 0%float
          ∧ (0 <? Character.dx (Player.base p))%float = true
          ∧ (900 <? float_of_Z (Rect.centerx (Character.rect (Player.base p))))%float
            = true)).
Proof.
  intros Hp. unfold Level.handle_horizontal_movement, Level.attempt.
  rewrite Hp. cbn.
  change (float_of_Z screen_width / float_of_Z 4)%float with 300%float.
  change (float_of_Z screen_width - 300)%float with 900%float.
  unfold PyNum.lt, PyNum.gt.
  destruct ((float_of_Z (Rect.centerx (Character.rect (Player.base p))) <? 300)%float
            && (Character.dx (Player.base p) <? 0)%float) eqn:E1.
  { apply andb_true_iff in E1 as [Ha Hb].
    eexists _, 16, 0%float. split; [reflexivity|]. split; [reflexivity|].
    right; left. by split_and!. }
  destruct ((900 <? float_of_Z (Rect.centerx (Character.rect (Player.base p))))%float
            && (0 <? Character.dx (Player.base p))%float) eqn:E2.
  { apply andb_true_iff in E2 as [Ha Hb].
    eexists _, (-16), 0%float. split; [reflexivity|]. split; [reflexivity|].
    right; right. by split_and!. }
  eexists _, 0, 8%float. split; [reflexivity|]. split; [reflexivity|]. by left.
Qed.

Lemma camera_or_player_moves_witness :
  exists l', Level.handle_horizontal_movement left_mover = (Level.Returned, l')
    ∧ Level.world_shift l' = 16.
Proof.
  edestruct (camera_or_player_moves left_mover) as (l' & shift & speed & Hrun & Hl & _);
    [vm_compute; reflexivity|].
  exists l'. split; [exact Hrun|].
  vm_compute in Hrun. injection Hrun as <-. vm_compute. reflexivity.
Defined.

(** ** What a whole frame keeps *)

Lemma frame_keeps_refl l : frame_keeps l l.
Proof.
  unfold frame_keeps. split_and!; try done.
  intros p' Hp. exists p'. split; [done|lia].
Qed.

Lemma frame_keeps_trans l1 l2 l3 :
  frame_keeps l1 l2 -> frame_keeps l2 l3 -> frame_keeps l1 l3.
Proof.
  intros (H1 & H2 & H3 & H4 & H5) (G1 & G2 & G3 & G4 & G5).
  unfold frame_keeps. split_and!; try congruence; try lia.
  - intros k Hk. by rewrite G4, H4.
  - intros p3 Hp3. destruct (G5 _ Hp3) as (p2 & Hp2 & Hs2).
    destruct (H5 _ Hp2) as (p1 & Hp1 & Hs1).
    exists p1. split; [done|lia].
Qed.

(** A change of the level that leaves the layout, the enemies, the tiles,
    the database and the player's score alone. *)
Lemma frame_keeps_same l l' :
  Level.level_data l' = Level.level_data l ->
  length (Level.enemies l') = length (Level.enemies l) ->
  length (Level.tiles l') = length (Level.tiles l) ->
  Level.db l' = Level.db l ->
  (forall p', Level.player l' = Some p' ->
     exists p, Level.player l = Some p ∧ Player.score p' = Player.score p) ->
  frame_keeps l l'.
Proof.
  intros H1 H2 H3 H4 H5. unfold frame_keeps. rewrite H1, H2, H3, H4.
  split_and!; try done.
  intros p' Hp'. destruct (H5 _ Hp') as (p & Hp & Hs). exists p. split; [done|lia].
Qed.

Lemma keeps_andthen m1 m2 : keeps m1 -> keeps m2 -> keeps (Level.andthen m1 m2).
Proof.
  intros K1 K2 l o l'. unfold Level.andthen.
  destruct (m1 l) as [[|e] l1] eqn:E1.
  - intros E2. eapply frame_keeps_trans; [by eapply K1 | by eapply K2].
  - intros [= <- <-]. by eapply K1.
Qed.

Lemma keeps_attempt f :
  (forall l l', f l = Ok l' -> frame_keeps l l') -> keeps (Level.attempt f).
Proof.
  intros Hf l o l'. unfold Level.attempt.
  destruct (f l) as [l1|e] eqn:E; intros [= <- <-];
    [by apply Hf | apply frame_keeps_refl].
Qed.

Lemma keeps_update_dust : keeps Level.update_dust.
Proof.
  apply keeps_attempt. intros l l'.
  destruct (Level.dust_sprite l) as [d|]; [|intros [= <-]; apply frame_keeps_refl].
  destruct (ParticleEffect.update _ d) as [[d' alive]|]; [|done].
  intros [= <-]. apply frame_keeps_same; try done. by eauto.
Qed.

Lemma keeps_update_tiles : keeps Level.update_tiles.
Proof.
  intros l o l'. unfold Level.update_tiles, Level.modify. intros [= <- <-].
  apply frame_keeps_same; cbn; try done; [by rewrite length_fmap | by eauto].
Qed.

Lemma keeps_handle_horizontal_movement : keeps Level.handle_horizontal_movement.
Proof.
  apply keeps_attempt. intros l l'.
  destruct (Level.player l) as [p|] eqn:Ep; [|done]. cbn.
  repeat (match goal with |- context [if ?b then _ else _] => destruct b end);
    intros [= <-]; (apply frame_keeps_same; try done; cbn;
                    intros p' [= <-]; by exists p).
Qed.

Lemma animate_score p p' : Player.animate p = Ok p' -> Player.score p' = Player.score p.
Proof.
  unfold Player.animate. destruct (index_float _ _); [|done]. by intros [= <-].
Qed.

Lemma run_dust_animation_score p p' :
  Player.run_dust_animation p = Ok p' -> Player.score p' = Player.score p.
Proof.
  unfold Player.run_dust_animation.
  destruct (_ && _); [|by intros [= <-]].
  destruct (index_float _ _); [|done]. by intros [= <-].
Qed.

Lemma display_bullets_score p p' :
  Player.display_bullets p = Ok p' -> Player.score p' = Player.score p.
Proof.
  unfold Player.display_bullets.
  destruct (Shooter.display_bullets _); [|done]. by intros [= <-].
Qed.

Lemma update_status_score p : Player.score (Player.update_status p) = Player.score p.
Proof.
  unfold Player.update_status.
  by repeat (match goal with |- context [if ?b then _ else _] => destruct b end).
Qed.

Lemma handle_key_presses_score {X} (cb : Player.t -> Z * Z -> result X) keys now stamp
    p p' made :
  Player.handle_key_presses cb keys now stamp p = Ok (p', made) ->
  Player.score p' = Player.score p.
Proof.
  unfold Player.handle_key_presses. intros H.
  match type of H with (?t ≫= _) = _ => destruct t as [q|] eqn:Eq; [|done] end.
  cbn in H.
  assert (Hq : Player.score q = Player.score p).
  { destruct (K_RIGHT keys); [|destruct (K_LEFT keys)].
    - by apply set_orientation_spec in Eq as (_ & _ & _ & _ & _ & _ & _ & -> & _).
    - by apply set_orientation_spec in Eq as (_ & _ & _ & _ & _ & _ & _ & -> & _).
    - by injection Eq as <-. }
  destruct (K_UP keys && _).
  - destruct (cb _ _); [|done]. cbn in H. injection H as <- <-.
    by destruct (K_SPACE keys).
  - cbn in H. injection H as <- <-. by destruct (K_SPACE keys).
Qed.

Lemma player_update_score {X} (cb : Player.t -> Z * Z -> result X) keys now stamp
    p p' made :
  Player.update cb keys now stamp p = Ok (p', made) ->
  Player.score p' = Player.score p.
Proof.
  unfold Player.update. intros H.
  destruct (Player.handle_key_presses cb keys now stamp p) as [[q m]|] eqn:E1; [|done].
  cbn in H. apply handle_key_presses_score in E1.
  destruct (Player.animate _) as [q2|] eqn:E2; [|done]. cbn in H.
  apply animate_score in E2. rewrite update_status_score in E2.
  destruct (Player.run_dust_animation q2) as [q3|] eqn:E3; [|done]. cbn in H.
  apply run_dust_animation_score in E3.
  destruct (Player.display_bullets q3) as [q4|] eqn:E4; [|done]. cbn in H.
  apply display_bullets_score in E4. injection H as <- <-. congruence.
Qed.

Lemma keeps_update_player A i : keeps (Level.update_player A i).
Proof.
  apply keeps_attempt. intros l l'.
  destruct (Level.player l) as [p|] eqn:Ep; [|intros [= <-]; apply frame_keeps_refl].
  destruct (Player.update _ _ _ _ p) as [[q made]|] eqn:Eu; [|done]. cbn.
  apply player_update_score in Eu.
  destruct made; intros [= <-];
    (apply frame_keeps_same; try done; cbn; intros p' [= <-]; by exists p).
Qed.

Lemma keeps_horizontal_movement_collision character :
  keeps (Level.horizontal_movement_collision character).
Proof.
  apply keeps_attempt. intros l l'.
  destruct (Level.deref character l) as [who|] eqn:Ed; [|done]. cbn.
  destruct (Level.x_advance _) as [c|]; [|done]. cbn.
  intros [= <-].
  destruct character as [| |i]; [done| |].
  - cbn in Ed. destruct (Level.player l) as [p|] eqn:Ep; [|done].
    injection Ed as <-.
    destruct (Level.hs_killed _); cbn;
      (apply frame_keeps_same; try done; cbn; intros p' [= <-]; by exists p).
  - cbn in Ed.
    destruct (mjoin (Level.enemies l !! i)) as [e|]; [|done]. injection Ed as <-.
    destruct (Level.hs_killed _); cbn;
      (apply frame_keeps_same; cbn; try done;
       first [by rewrite length_insert | by eauto]).
Qed.

Lemma keeps_enemies_horizontal n i : keeps (Level.enemies_horizontal n i).
Proof.
  revert i. induction n as [|n IH]; intros i; cbn.
  - intros l o l' [= <- <-]. apply frame_keeps_refl.
  - apply keeps_andthen; [apply keeps_horizontal_movement_collision | apply IH].
Qed.

Lemma vertical_sweep_length snapshot p r group :
  Level.vertical_sweep snapshot p = (r, group) ->
  (length group <= length snapshot)%nat.
Proof.
  revert p group. induction snapshot as [|sprite rest IH]; intros p group; cbn.
  - by intros [= <- <-].
  - destruct (Level.vertical_tile sprite p) as [p1 stays|]; [|by intros [= <- <-]].
    destruct (Level.vertical_sweep rest p1) as [r1 g] eqn:Er.
    intros [= <- <-]. apply IH in Er. destruct stays; cbn; lia.
Qed.

Lemma keeps_vertical_movement_collision : keeps Level.vertical_movement_collision.
Proof.
  intros l o l'. unfold Level.vertical_movement_collision.
  destruct (Level.player l) as [p|] eqn:Ep; [|intros [= <- <-]; apply frame_keeps_refl].
  destruct (Player.apply_gravity p) as [p1|] eqn:Eg.
  - assert (Hs1 : Player.score p1 = Player.score p).
    { unfold Player.apply_gravity in Eg.
      destruct (Rect.assign_y _ _); [|done]. by injection Eg as <-. }
    destruct (Level.vertical_sweep (Level.tiles l) p1) as [[p2|] group] eqn:Es;
      intros [= <- <-].
    + apply vertical_sweep_score in Es as (Hs & Hsub & _).
      pose proof (sublist_length _ _ Hsub).
      unfold frame_keeps. cbn. split_and!; try done.
      intros p' [= <-]. exists p. split; [done|]. cbn. lia.
    + apply vertical_sweep_length in Es.
      unfold frame_keeps. cbn. by split_and!.
  - intros [= <- <-]. apply frame_keeps_same; try done. cbn.
    intros p' [= <-]. by exists p.
Qed.

Lemma keeps_create_landing_dust A : keeps (Level.create_landing_dust A).
Proof.
  apply keeps_attempt. intros l l'.
  destruct (Level.player_landed l) as [landed|]; [|done]. cbn.
  destruct (landed && _); [|intros [= <-]; apply frame_keeps_refl].
  destruct (Level.player l) as [p|] eqn:Ep; [|done]. cbn.
  destruct (particle_frames A A_LAND !! _) as [img|]; [|done]. cbn. intros [= <-].
  apply frame_keeps_same; try done. cbn. rewrite Ep. by eauto.
Qed.

Lemma update_enemies_length es es' :
  Level.update_enemies es = Ok es' -> length es' = length es.
Proof.
  revert es'. induction es as [|[e|] es IH]; intros es'; cbn.
  - by intros [= <-].
  - destruct (Enemy.update e); [|done]. cbn.
    destruct (Level.update_enemies es) as [es1|]; [|done]. cbn.
    intros [= <-]. cbn. by rewrite (IH es1).
  - destruct (Level.update_enemies es) as [es1|]; [|done]. cbn.
    intros [= <-]. cbn. by rewrite (IH es1).
Qed.

Lemma keeps_display_enemies : keeps Level.display_enemies.
Proof.
  apply keeps_attempt. intros l l'.
  destruct (Level.update_enemies (Level.enemies l)) as [es|] eqn:E; [|done]. cbn.
  intros [= <-]. apply update_enemies_length in E.
  apply frame_keeps_same; try done. by eauto.
Qed.

Lemma keeps_handle_level_keys i : keeps (Level.handle_level_keys i).
Proof.
  intros l o l'. unfold Level.handle_level_keys.
  destruct (K_ESCAPE _); [intros [= <- <-]; apply frame_keeps_refl|].
  destruct (K_s _); [|intros [= <- <-]; apply frame_keeps_refl].
  revert l o l'. apply keeps_andthen.
  - apply keeps_attempt. intros l l'.
    unfold Level.get_save.
    destruct (Level.player l) as [p|] eqn:Ep; [|done]. cbn. intros [= <-].
    unfold frame_keeps. cbn. split_and!; try done.
    + intros k Hk. by rewrite lookup_insert_ne.
    + intros p' Hp'. exists p'. split; [congruence|lia].
  - apply keeps_attempt. intros l l'.
    destruct (Level.get_save l); [|done]. cbn.
    destruct (Level.response i) as [code|]; [|done]. cbn.
    destruct (code =? 200); intros [= <-];
      (apply frame_keeps_same; try done; by eauto).
Qed.

Lemma keeps_run A i : keeps (Level.run A i).
Proof.
  unfold Level.run, Level.before_vertical.
  repeat (apply keeps_andthen);
    auto using keeps_update_dust, keeps_update_tiles, keeps_handle_horizontal_movement,
      keeps_update_player, keeps_horizontal_movement_collision,
      keeps_vertical_movement_collision, keeps_create_landing_dust,
      keeps_display_enemies, keeps_handle_level_keys.
  intros l o l'. apply keeps_enemies_horizontal.
Qed.

(** X15: what a frame keeps.  However [run] ends, the level it leaves
    has the layout and the number of enemy groups it had, no more tiles
    than before, and the database entries it had under every key but the
    save's; and a player still in its group has gained exactly one point
    for each tile that left the tile group during the frame. *)
Theorem run_pays_for_what_it_takes (A : Assets) (i : Level.Input) (l l' : Level.t)
    (o : Level.outcome) :
  Level.run A i l = (o, l') ->
  Level.level_data l' = Level.level_data l
  ∧ length (Level.enemies l') = length (Level.enemies l)
  ∧ (length (Level.tiles l') <= length (Level.tiles l))%nat
  ∧ (forall k, k ≠ "Player 1" -> Level.db l' !! k = Level.db l !! k)
  ∧ (forall p', Level.player l' = Some p' ->
       exists p, Level.player l = Some p
         ∧ Player.score p' = Player.score p
             + (Z.of_nat (length (Level.tiles l)) - Z.of_nat (length (Level.tiles l')))).
Proof. intros H. exact (keeps_run A i l o l' H). Qed.

Lemma run_pays_for_what_it_takes_witness :
  exists l',
    Level.run sample_assets (Game.input (frame_of no_keys)) coin_taker
      = (Level.Returned, l')
    ∧ Level.level_data l' = Level.level_data coin_taker
    ∧ (length (Level.tiles l') <= length (Level.tiles coin_taker))%nat.
Proof.
  eexists. split; [vm_compute; reflexivity|].
  edestruct (run_pays_for_what_it_takes sample_assets (Game.input (frame_of no_keys))
               coin_taker) as (H1 & _ & H3 & _); [vm_compute; reflexivity|].
  exact (conj H1 H3).
Defined.

(** X16: the score over a whole game.  Whatever frames [main] plays and
    however it ends, the level it leaves has the layout and the number
    of enemy groups it began with, and a player still in its group has
    scored exactly the number of tiles that have left the tile group
    since the start. *)
Theorem main_scores_the_tiles_taken (A : Assets) (fs : list Game.Frame)
    (l l' : Level.t) (e : Game.ending) (n : nat) :
  Game.main A fs l = (e, l', n) ->
  Level.level_data l' = Level.level_data l
  ∧ length (Level.enemies l') = length (Level.enemies l)
  ∧ (forall p', Level.player l' = Some p' ->
       exists p, Level.player l = Some p
         ∧ Player.score p' = Player.score p
             + (Z.of_nat (length (Level.tiles l)) - Z.of_nat (length (Level.tiles l')))
         ∧ Player.score p <= Player.score p').
Proof.
  intros H.
  assert (K : frame_keeps l l').
  { revert l e l' n H. induction fs as [|f fs IH]; intros l e l' n; cbn.
    - intros [= <- <- <-]. apply frame_keeps_refl.
    - destruct (Game.quit_event f); [intros [= <- <- <-]; apply frame_keeps_refl|].
      destruct (Level.run A (Game.input f) l) as [[|x] l1] eqn:Er.
      + destruct (Game.main A fs l1) as [[e1 l2] n1] eqn:Em.
        intros [= <- <- <-].
        eapply frame_keeps_trans; [by eapply keeps_run | by eapply IH].
      + destruct x; intros [= <- <- <-]; by eapply keeps_run. }
  destruct K as (K1 & K2 & K3 & _ & K5).
  split_and!; [done|done|].
  intros p' Hp'. destruct (K5 _ Hp') as (p & Hp & Hs).
  exists p. split_and!; [done|done|lia].
Qed.

Lemma main_scores_the_tiles_taken_witness :
  exists l',
    Game.main sample_assets [frame_of no_keys; frame_of no_keys] coin_taker
      = (Game.Running, l', 2%nat)
    ∧ Level.level_data l' = Level.level_data coin_taker.
Proof.
  eexists. split; [vm_compute; reflexivity|].
  edestruct (main_scores_the_tiles_taken sample_assets
               [frame_of no_keys; frame_of no_keys] coin_taker) as (H1 & _);
    [vm_compute; reflexivity|].
  exact H1.
Defined.

(** ** Where GameOver comes from *)

Lemma calm_ok {A} (a : A) : calm (Ok a).
Proof. by unfold calm. Qed.

Lemma calm_bind {A B} (m : result A) (k : A -> result B) :
  calm m -> (forall a, m = Ok a -> calm (k a)) -> calm (m ≫= k).
Proof.
  unfold calm. intros Hm Hk. destruct m as [a|e]; cbn; [by apply Hk|].
  intros [= ->]. by apply Hm.
Qed.

Lemma calm_fmap {A B} (f : A -> B) (m : result A) : calm m -> calm (f <$> m).
Proof. unfold calm. destruct m; cbn; [done|]. intros H [= ->]. by apply H. Qed.

Lemma calm_of_option {A} (e : exn) (o : option A) : e ≠ GameOver -> calm (of_option e o).
Proof. unfold calm. intros He. destruct o; cbn; [done|]. by intros [= ->]. Qed.

Lemma calm_index_float {A} (l : list A) (f : float) : calm (index_float l f).
Proof.
  unfold index_float. apply calm_bind.
  - unfold int_of_float, calm. destruct (PyNum.trunc f); [done|].
    by destruct (PrimFloat.is_nan f).
  - intros z _. unfold index. destruct (_ <? 0); [done|].
    by apply calm_of_option.
Qed.

Lemma calm_assign_x f r : calm (Rect.assign_x f r).
Proof. unfold Rect.assign_x. apply calm_bind; [by apply calm_of_option | done]. Qed.

Lemma calm_assign_y f r : calm (Rect.assign_y f r).
Proof. unfold Rect.assign_y. apply calm_bind; [by apply calm_of_option | done]. Qed.

Lemma calm_particle_new A pos ty : calm (ParticleEffect.new A pos ty).
Proof.
  unfold ParticleEffect.new. apply calm_bind; [apply calm_index_float | done].
Qed.

Lemma calm_particle_update shift d : calm (ParticleEffect.update shift d).
Proof.
  unfold ParticleEffect.update. apply calm_bind; [|by intros [? ?]].
  unfold ParticleEffect.animate. destruct (PyNum.ge _ _); [done|].
  apply calm_bind; [apply calm_index_float | done].
Qed.

Lemma calm_bullet_update b : calm (Bullet.update b).
Proof.
  unfold Bullet.update. apply calm_bind.
  - unfold Bullet.rect_x_sub, Bullet.rect_x_add.
    destruct (decide _); destruct (Bullet.speed b); try done; apply calm_assign_x.
  - intros r _. by destruct (550 <? _).
Qed.

Lemma calm_display_each bs : calm (Shooter.display_each bs).
Proof.
  induction bs as [|b bs IH]; cbn; [done|].
  apply calm_bind; [apply calm_bullet_update|]. intros b' _.
  apply calm_bind; [apply IH | done].
Qed.

Lemma calm_set_orientation v p : calm (Player.set_orientation v p).
Proof.
  unfold Player.set_orientation. apply calm_bind; [apply calm_index_float | done].
Qed.

Lemma calm_player_update A keys now stamp p :
  calm (Player.update (Level.create_jump_particles A) keys now stamp p).
Proof.
  unfold Player.update. apply calm_bind.
  - unfold Player.handle_key_presses. apply calm_bind.
    + destruct (K_RIGHT keys); [apply calm_set_orientation|].
      destruct (K_LEFT keys); [apply calm_set_orientation | done].
    + intros q _. apply calm_bind; [|done].
      destruct (K_UP keys && _); [|done].
      apply calm_fmap. unfold Level.create_jump_particles. apply calm_particle_new.
  - intros r _. apply calm_bind.
    + unfold Player.animate. apply calm_bind; [apply calm_index_float | done].
    + intros q _. apply calm_bind.
      * unfold Player.run_dust_animation. destruct (_ && _); [|done].
        apply calm_bind; [apply calm_index_float | done].
      * intros q2 _. apply calm_bind; [|done].
        unfold Player.display_bullets. apply calm_bind; [|done].
        unfold Shooter.display_bullets. apply calm_bind; [apply calm_display_each | done].
Qed.

Lemma calm_update_enemies es : calm (Level.update_enemies es).
Proof.
  induction es as [|[e|] es IH]; cbn; [done| |].
  - apply calm_bind.
    + unfold Enemy.update, Enemy.animate.
      apply calm_bind; [apply calm_index_float | done].
    + intros e' _. apply calm_bind; [apply IH | done].
  - apply calm_bind; [apply IH | done].
Qed.

Lemma quiet_andthen m1 m2 : quiet m1 -> quiet m2 -> quiet (Level.andthen m1 m2).
Proof.
  intros Q1 Q2 l e l'. unfold Level.andthen.
  destruct (m1 l) as [[|e1] l1] eqn:E1.
  - by apply Q2.
  - intros [= <- <-]. by eapply Q1.
Qed.

Lemma quiet_attempt f : (forall l, calm (f l)) -> quiet (Level.attempt f).
Proof.
  intros Hf l e l'. unfold Level.attempt.
  specialize (Hf l). unfold calm in Hf.
  destruct (f l) as [l1|e1]; [done|]. intros [= <- <-]. congruence.
Qed.

Lemma quiet_horizontal_movement_collision character :
  quiet (Level.horizontal_movement_collision character).
Proof.
  apply quiet_attempt. intros l. apply calm_bind.
  - destruct character; cbn; [done| |]; by apply calm_of_option.
  - intros who _. apply calm_bind; [|done].
    unfold Level.x_advance. apply calm_bind; [apply calm_assign_x | done].
Qed.

Lemma quiet_enemies_horizontal n i : quiet (Level.enemies_horizontal n i).
Proof.
  revert i. induction n as [|n IH]; intros i; cbn.
  - by intros l e l'.
  - apply quiet_andthen; [apply quiet_horizontal_movement_collision | apply IH].
Qed.

Lemma quiet_before_vertical A i : quiet (Level.before_vertical A i).
Proof.
  unfold Level.before_vertical.
  apply quiet_andthen.
  { apply quiet_attempt. intros l. destruct (Level.dust_sprite l) as [d|]; [|done].
    pose proof (calm_particle_update (Level.world_shift l) d) as Hc. unfold calm in *.
    destruct (ParticleEffect.update _ d) as [[d' alive]|]; [done|congruence]. }
  apply quiet_andthen; [by intros l e l'|].
  apply quiet_andthen.
  { apply quiet_attempt. intros l. apply calm_bind; [by apply calm_of_option|].
    intros p _. cbn.
    by repeat (match goal with |- context [if ?b then _ else _] => destruct b end). }
  apply quiet_andthen.
  { apply quiet_attempt. intros l. destruct (Level.player l) as [p|]; [|done].
    apply calm_bind; [apply calm_player_update|].
    intros r _. by destruct (snd r). }
  apply quiet_andthen; [apply quiet_horizontal_movement_collision|].
  intros l e l'. apply quiet_enemies_horizontal.
Qed.

Lemma quiet_save response : quiet (Level.save response).
Proof.
  unfold Level.save. apply quiet_andthen; apply quiet_attempt; intros l.
  - apply calm_bind; [|done]. unfold Level.get_save.
    apply calm_bind; [by apply calm_of_option | done].
  - apply calm_bind.
    + unfold Level.get_save. apply calm_bind; [by apply calm_of_option | done].
    + intros _ _. apply calm_bind; [by apply calm_of_option|].
      intros code _. cbn. by destruct (code =? 200).
Qed.

Lemma vertical_game_over l l' :
  Level.vertical_movement_collision l = (Level.Raised GameOver, l') ->
  Level.player l' = None.
Proof.
  unfold Level.vertical_movement_collision.
  destruct (Level.player l) as [p|]; [|done].
  pose proof (calm_assign_y
                (float_of_Z (Rect.y (Character.rect (Player.base (Player.accelerate p))))
                 + Character.dy (Player.base (Player.accelerate p)))%float
                (Character.rect (Player.base (Player.accelerate p)))) as Hc.
  unfold Player.apply_gravity. unfold calm in Hc.
  destruct (Rect.assign_y _ _) as [r|e]; cbn.
  - destruct (Level.vertical_sweep _ _) as [[p2|] group]; [done|].
    by intros [= <-].
  - intros [= -> _]. done.
Qed.

(** X17: where [GameOver] comes from.  [run] raises [GameOver] only when
    Escape is held at the end of the frame or when the vertical pass has
    met a killing tile, and then the player has left its group: no other
    statement of the frame (a missing animation frame, an empty group, a
    failed save) ends the game this way. *)
Theorem game_over_is_escape_or_death (A : Assets) (i : Level.Input) (l l' : Level.t) :
  Level.run A i l = (Level.Raised GameOver, l') ->
  K_ESCAPE (Level.keys_level i) = true ∨ Level.player l' = None.
Proof.
  unfold Level.run. unfold Level.andthen at 1.
  destruct (Level.before_vertical A i l) as [[|e] l1] eqn:E1.
  2: { intros [= -> _]. by apply quiet_before_vertical in E1. }
  unfold Level.andthen at 1.
  destruct (Level.vertical_movement_collision l1) as [[|e] l2] eqn:E2.
  2: { intros [= -> <-]. right. by eapply vertical_game_over. }
  unfold Level.andthen at 1.
  destruct (Level.create_landing_dust A l2) as [[|e] l3] eqn:E3.
  2: { intros [= -> _]. revert E3. unfold Level.create_landing_dust.
       intros E3. exfalso. revert E3.
       assert (Q : quiet (Level.create_landing_dust A)); [|by intros E3; eapply Q].
       apply quiet_attempt. intros l0. apply calm_bind.
       - unfold Level.player_landed. apply calm_bind; [by apply calm_of_option | done].
       - intros landed _. destruct (landed && _); [|done].
         apply calm_bind; [by apply calm_of_option|]. intros p _.
         destruct (Rect.midbottom _) as [mx my].
         apply calm_bind; [apply calm_particle_new | done]. }
  unfold Level.andthen at 1.
  destruct (Level.display_enemies l3) as [[|e] l4] eqn:E4.
  2: { intros [= -> _]. exfalso. revert E4.
       assert (Q : quiet Level.display_enemies); [|by intros E4; eapply Q].
       apply quiet_attempt. intros l0.
       apply calm_bind; [apply calm_update_enemies | done]. }
  unfold Level.handle_level_keys.
  destruct (K_ESCAPE (Level.keys_level i)); [by left|].
  destruct (K_s (Level.keys_level i)); [|done].
  intros E5. exfalso. by eapply quiet_save.
Qed.

Lemma game_over_is_escape_or_death_witness :
  exists l',
    Level.run sample_assets (Game.input (frame_of right_key))
      (place_player 184 64 1 hazard_level) = (Level.Raised GameOver, l')
    ∧ Level.player l' = None.
Proof.
  eexists. split; [vm_compute; reflexivity|].
  edestruct (game_over_is_escape_or_death sample_assets (Game.input (frame_of right_key))
               (place_player 184 64 1 hazard_level)) as [H|H];
    [vm_compute; reflexivity | discriminate H | exact H].
Defined.

(** ** Tile sheets *)

Lemma traverse_fmap {A B} (f : A -> result B) (g : A -> B) (l : list A) :
  (forall a, a ∈ l -> f a = Ok (g a)) -> traverse f l = Ok (g <$> l).
Proof.
  induction l as [|a l IH]; intros H; cbn; [done|].
  rewrite (H a) by (by left). cbn. rewrite IH; [done|].
  intros b Hb. apply H. by right.
Qed.

Lemma traverse_length {A B} (f : A -> result B) (l : list A) (bs : list B) :
  traverse f l = Ok bs -> length bs = length l.
Proof.
  revert bs. induction l as [|a l IH]; intros bs; cbn; [by intros [= <-]|].
  destruct (f a); [|done]. cbn. destruct (traverse f l) as [bs1|]; [|done]. cbn.
  intros [= <-]. cbn. by rewrite (IH bs1).
Qed.

Lemma traverse_ok_all {A B} (f : A -> result B) (l : list A) (bs : list B) :
  traverse f l = Ok bs -> Forall2 (fun a b => f a = Ok b) l bs.
Proof.
  revert bs. induction l as [|a l IH]; intros bs; cbn; [intros [= <-]; constructor|].
  destruct (f a) as [b|] eqn:Ea; [|done]. cbn.
  destruct (traverse f l) as [bs1|]; [|done]. cbn.
  intros [= <-]. constructor; [done | by apply IH].
Qed.

Lemma traverse_raise {A B} (f : A -> result B) (l : list A) (e : exn) :
  traverse f l = Raise e -> exists a, a ∈ l ∧ f a = Raise e.
Proof.
  induction l as [|a l IH]; cbn; [done|].
  destruct (f a) as [b|e1] eqn:Ea; cbn.
  - destruct (traverse f l) as [bs1|e2]; [done|]. cbn. intros [= ->].
    destruct IH as (a' & Hin & Ha'); [done|]. exists a'. split; [by right | done].
  - intros [= ->]. exists a. split; [by left | done].
Qed.

Lemma traverse_total {A B} (f : A -> result B) (l : list A) :
  (forall a, a ∈ l -> exists b, f a = Ok b) -> exists bs, traverse f l = Ok bs.
Proof.
  intros H. destruct (traverse f l) as [bs|e] eqn:E; [by eexists|].
  apply traverse_raise in E as (a & Hin & Ha).
  destruct (H a Hin) as [b Hb]. congruence.
Qed.

Lemma concat_length_uniform {A} (ls : list (list A)) (n : nat) :
  Forall (fun l => length l = n) ls -> length (concat ls) = (length ls * n)%nat.
Proof.
  induction 1 as [|l ls Hl _ IH]; cbn; [done|]. rewrite length_app, IH, Hl. lia.
Qed.

Lemma elem_of_range (n x : Z) : x ∈ range n <-> 0 <= x < n.
Proof. unfold range. rewrite elem_of_seqZ. lia. Qed.

Lemma length_range (n : Z) : length (range n) = Z.to_nat n.
Proof. unfold range. apply length_seqZ. Qed.

Lemma floordiv_spec (a b q : Z) :
  0 <= a -> 0 < b -> floordiv a b = Some q -> 0 <= q ∧ q * b <= a.
Proof.
  unfold floordiv. intros Ha Hb. destruct (b =? 0) eqn:E; [done|]. intros [= <-].
  split; [by apply Z.div_pos|]. rewrite Z.mul_comm. by apply Z.mul_div_le.
Qed.

Lemma subsurface_inside (sheet : Image) (r : Rect.t) :
  0 <= Rect.x r -> 0 <= Rect.y r ->
  Rect.x r + Rect.w r <= img_w sheet -> Rect.y r + Rect.h r <= img_h sheet ->
  subsurface sheet r = Ok r.
Proof.
  intros H1 H2 H3 H4. unfold subsurface.
  assert (E1 : (Rect.x r <? 0) = false) by (apply Z.ltb_ge; lia).
  assert (E2 : (Rect.y r <? 0) = false) by (apply Z.ltb_ge; lia).
  assert (E3 : (img_w sheet <? Rect.x r + Rect.w r) = false) by (apply Z.ltb_ge; lia).
  assert (E4 : (img_h sheet <? Rect.y r + Rect.h r) = false) by (apply Z.ltb_ge; lia).
  by rewrite E1, E2, E3, E4.
Qed.

Lemma subsurface_spec (sheet : Image) (r : Rect.t) :
  (subsurface sheet r = Ok r
   ∧ 0 <= Rect.x r ∧ 0 <= Rect.y r
   ∧ Rect.x r + Rect.w r <= img_w sheet ∧ Rect.y r + Rect.h r <= img_h sheet)
  ∨ (subsurface sheet r = Raise ValueError
     ∧ ¬ (0 <= Rect.x r ∧ 0 <= Rect.y r
          ∧ Rect.x r + Rect.w r <= img_w sheet ∧ Rect.y r + Rect.h r <= img_h sheet)).
Proof.
  unfold subsurface.
  destruct (Rect.x r <? 0) eqn:E1; [right; apply Z.ltb_lt in E1; split; [done|lia]|].
  destruct (Rect.y r <? 0) eqn:E2; [right; apply Z.ltb_lt in E2; split; [done|lia]|].
  destruct (img_w sheet <? _) eqn:E3; [right; apply Z.ltb_lt in E3; split; [done|lia]|].
  destruct (img_h sheet <? _) eqn:E4; [right; apply Z.ltb_lt in E4; split; [done|lia]|].
  apply Z.ltb_ge in E1, E2, E3, E4. left. cbn. split; [done|lia].
Qed.

(** X18: a tile of the grid.  On a sheet cut into [columns] by [rows]
    tiles, [tile_at(x, y)] for a column [x] and a row [y] of the grid
    never raises: the tile lies inside the sheet, and the tiles of two
    different grid positions do not overlap. *)
Theorem tile_at_in_grid (sheet : Image) (columns rows : Z) (s : TileSheet.t) (x y : Z) :
  0 <= img_w sheet -> 0 <= img_h sheet -> 0 < columns -> 0 < rows ->
  TileSheet.new sheet columns rows = Some s ->
  0 <= x < columns -> 0 <= y < rows ->
  exists r,
    TileSheet.tile_at s x y 0 0 = Ok r
    ∧ Rect.w r = img_w sheet `div` columns ∧ Rect.h r = img_h sheet `div` rows
    ∧ 0 <= Rect.left r ∧ Rect.right r <= img_w sheet
    ∧ 0 <= Rect.top r ∧ Rect.bottom r <= img_h sheet
    ∧ (forall x' y' r', 0 <= x' < columns -> 0 <= y' < rows ->
         TileSheet.tile_at s x' y' 0 0 = Ok r' -> (x', y') ≠ (x, y) ->
         Rect.colliderect r r' = false).
Proof.
  intros HW HH Hc Hr Hnew Hx Hy. unfold TileSheet.new in Hnew.
  destruct (floordiv (img_w sheet) columns) as [tw|] eqn:Ew; [|done].
  destruct (floordiv (img_h sheet) rows) as [th|] eqn:Eh; [|done].
  cbn in Hnew. injection Hnew as <-.
  pose proof (floordiv_spec _ _ _ HW Hc Ew) as [Htw Htw'].
  pose proof (floordiv_spec _ _ _ HH Hr Eh) as [Hth Hth'].
  assert (Etw : tw = img_w sheet `div` columns)
    by (unfold floordiv in Ew; destruct (columns =? 0); congruence).
  assert (Eth : th = img_h sheet `div` rows)
    by (unfold floordiv in Eh; destruct (rows =? 0); congruence).
  assert (Hin : forall a b, 0 <= a < columns -> 0 <= b < rows ->
            TileSheet.tile_at
              {| TileSheet.sheet := sheet; TileSheet.tile_width := tw;
                 TileSheet.tile_height := th |} a b 0 0
            = Ok {| Rect.x := a * tw + 0; Rect.y := b * th + 0;
                    Rect.w := tw; Rect.h := th |}).
  { intros a b Ha Hb. unfold TileSheet.tile_at. cbn.
    apply subsurface_inside; cbn; nia. }
  eexists. split; [by apply Hin|].
  unfold Rect.left, Rect.right, Rect.top, Rect.bottom. cbn.
  split_and!; try done; try nia.
  intros x' y' r' Hx' Hy' Hr' Hne. rewrite Hin in Hr' by done. injection Hr' as <-.
  unfold Rect.colliderect. cbn.
  destruct (_ || _); [done|].
  destruct (decide (x' = x)) as [->|Hxne].
  - assert (y' ≠ y) by congruence.
    assert (E : (Z.min (y * th + 0) (y * th + 0 + th)
                 <? Z.max (y' * th + 0) (y' * th + 0 + th)) = false
                ∨ (Z.min (y' * th + 0) (y' * th + 0 + th)
                   <? Z.max (y * th + 0) (y * th + 0 + th)) = false).
    { destruct (Z.lt_ge_cases y' y); [left | right]; apply Z.ltb_ge; nia. }
    destruct E as [-> | ->]; by rewrite ?andb_false_r.
  - assert (E : (Z.min (x * tw + 0) (x * tw + 0 + tw)
                 <? Z.max (x' * tw + 0) (x' * tw + 0 + tw)) = false
                ∨ (Z.min (x' * tw + 0) (x' * tw + 0 + tw)
                   <? Z.max (x * tw + 0) (x * tw + 0 + tw)) = false).
    { destruct (Z.lt_ge_cases x' x); [left | right]; apply Z.ltb_ge; nia. }
    destruct E as [-> | ->]; by rewrite ?andb_false_r.
Qed.

Lemma tile_at_in_grid_witness :
  exists r,
    TileSheet.tile_at {| TileSheet.sheet := {| img_w := 320; img_h := 192 |};
                         TileSheet.tile_width := 16; TileSheet.tile_height := 16 |}
      1 0 0 0 = Ok r
    ∧ Rect.w r = 16 ∧ Rect.h r = 16.
Proof.
  edestruct (tile_at_in_grid {| img_w := 320; img_h := 192 |} 20 12
               {| TileSheet.sheet := {| img_w := 320; img_h := 192 |};
                  TileSheet.tile_width := 16; TileSheet.tile_height := 16 |} 1 0)
    as (r & Hr & Hw & Hh & _);
    [cbn; lia | cbn; lia | lia | lia | vm_compute; reflexivity | lia | lia |].
  exists r. exact (conj Hr (conj Hw Hh)).
Defined.

Lemma traverse_ok_elem {A B} (f : A -> result B) (l : list A) (bs : list B) (a : A) :
  traverse f l = Ok bs -> a ∈ l -> exists b, f a = Ok b.
Proof.
  revert bs. induction l as [|a' l IH]; intros bs H Hin; [by apply elem_of_nil in Hin|].
  cbn in H. destruct (f a') as [b|] eqn:Ea; [|done]. cbn in H.
  destruct (traverse f l) as [bs1|]; [|done].
  apply elem_of_cons in Hin as [->|Hin]; [by eexists | by eapply IH].
Qed.

Lemma traverse_rows_length {A B} (f : A -> result (list B)) (l : list A)
    (rows : list (list B)) (n : nat) :
  traverse f l = Ok rows ->
  (forall a row, f a = Ok row -> length row = n) ->
  length (concat rows) = (length l * n)%nat.
Proof.
  intros H Hn. rewrite <- (traverse_length _ _ _ H).
  apply concat_length_uniform.
  apply traverse_ok_all in H. induction H as [|a row l rows Hrow _ IH]; constructor;
    [by eapply Hn | done].
Qed.

(** X19: [all_tiles] walks the tile size, not the grid.  It asks for the
    tiles at the columns below [tile_width] and the rows below
    [tile_height], so that, tiles of no width or height apart, it yields
    all of them only on a sheet at least [tile_width] squared wide and
    [tile_height] squared high, and then it yields
    [tile_width * tile_height] tiles whatever [columns] and [rows] were;
    on any other sheet it raises [ValueError]. *)
Theorem all_tiles_walks_the_tile_size (s : TileSheet.t) :
  0 <= TileSheet.tile_width s -> 0 <= TileSheet.tile_height s ->
  ((exists tiles, TileSheet.all_tiles s = Ok tiles)
     <-> TileSheet.tile_width s = 0 ∨ TileSheet.tile_height s = 0
         ∨ (TileSheet.tile_width s * TileSheet.tile_width s <= img_w (TileSheet.sheet s)
            ∧ TileSheet.tile_height s * TileSheet.tile_height s
              <= img_h (TileSheet.sheet s)))
  ∧ (forall tiles, TileSheet.all_tiles s = Ok tiles ->
       length tiles = Z.to_nat (TileSheet.tile_width s * TileSheet.tile_height s))
  ∧ (forall e, TileSheet.all_tiles s = Raise e -> e = ValueError).
Proof.
  destruct s as [sheet tw th]. cbn. intros Htw Hth.
  unfold TileSheet.all_tiles. cbn.
  set (inner := fun y : Z =>
         traverse (fun x : Z =>
                     TileSheet.tile_at {| TileSheet.sheet := sheet;
                                          TileSheet.tile_width := tw;
                                          TileSheet.tile_height := th |} x y 0 0)
           (range tw)).
  split_and!.
  - split.
    + intros [tiles H].
      destruct (traverse inner (range th)) as [rows|] eqn:Erows; [|done].
      destruct (decide (tw = 0)) as [|Hw]; [by left|].
      destruct (decide (th = 0)) as [|Hh]; [by right; left|].
      right; right.
      destruct (traverse_ok_elem _ _ _ (th - 1) Erows) as [row Hrow];
        [apply elem_of_range; lia|].
      destruct (traverse_ok_elem _ _ _ (tw - 1) Hrow) as [r Hr];
        [apply elem_of_range; lia|].
      unfold TileSheet.tile_at in Hr. cbn in Hr.
      match type of Hr with subsurface ?a ?b = _ =>
        destruct (subsurface_spec a b) as [(_ & H1 & H2 & H3 & H4)|[Hbad _]];
          [|congruence] end.
      cbn in H1, H2, H3, H4. split; nia.
    + intros Hsize.
      destruct (traverse_total inner (range th)) as [rows ->]; [|by eexists].
      intros y Hy. apply elem_of_range in Hy.
      apply traverse_total. intros x Hx. apply elem_of_range in Hx.
      eexists. unfold TileSheet.tile_at. cbn.
      apply subsurface_inside; cbn; destruct Hsize as [?|[?|[? ?]]]; nia.
  - intros tiles H.
    destruct (traverse inner (range th)) as [rows|] eqn:Erows; [|done].
    cbn in H. injection H as <-.
    rewrite (traverse_rows_length inner (range th) rows (Z.to_nat tw) Erows).
    + rewrite length_range. rewrite Z2Nat.inj_mul by lia. lia.
    + intros y row Hrow. unfold inner in Hrow.
      apply traverse_length in Hrow. by rewrite Hrow, length_range.
  - intros e H.
    destruct (traverse inner (range th)) as [rows|e1] eqn:Erows; [done|].
    cbn in H. injection H as <-.
    apply traverse_raise in Erows as (y & _ & Hy).
    apply traverse_raise in Hy as (x & _ & Hx).
    unfold TileSheet.tile_at in Hx.
    match type of Hx with subsurface ?a ?b = _ =>
      destruct (subsurface_spec a b) as [(Hok & _)|[Hbad _]]; congruence end.
Qed.

Lemma all_tiles_walks_the_tile_size_witness :
  TileSheet.all_tiles {| TileSheet.sheet := {| img_w := 320; img_h := 192 |};
                         TileSheet.tile_width := 16; TileSheet.tile_height := 16 |}
    = Raise ValueError.
Proof.
  edestruct (all_tiles_walks_the_tile_size
               {| TileSheet.sheet := {| img_w := 320; img_h := 192 |};
                  TileSheet.tile_width := 16; TileSheet.tile_height := 16 |})
    as (_ & _ & Hraise); [cbn; lia | cbn; lia |].
  destruct (TileSheet.all_tiles _) as [tiles|e] eqn:E; [vm_compute in E; discriminate E|].
  by rewrite (Hraise e eq_refl).
Defined.

(** X20: [load_tiles] cuts the whole grid.  For a sheet and positive
    [columns] and [rows] it never raises: it yields [columns * rows]
    tiles, row after row and within a row from left to right, each of
    the sheet's width over [columns] by the sheet's height over [rows]
    and inside the sheet. *)
Theorem load_tiles_cuts_the_grid (sheet : Image) (columns rows : Z) :
  0 <= img_w sheet -> 0 <= img_h sheet -> 0 < columns -> 0 < rows ->
  let tile_width := img_w sheet `div` columns in
  let tile_height := img_h sheet `div` rows in
  exists tiles,
    load_tiles sheet columns rows = Some (Ok tiles)
    ∧ tiles = concat ((fun j => (fun i => {| Rect.x := i * tile_width;
                                              Rect.y := j * tile_height;
                                              Rect.w := tile_width;
                                              Rect.h := tile_height |})
                                  <$> range columns) <$> range rows)
    ∧ length tiles = Z.to_nat (columns * rows)
    ∧ Forall (fun r => 0 <= Rect.left r ∧ Rect.right r <= img_w sheet
                       ∧ 0 <= Rect.top r ∧ Rect.bottom r <= img_h sheet) tiles.
Proof.
  intros HW HH Hc Hr tw th.
  assert (Htw : 0 <= tw ∧ tw * columns <= img_w sheet).
  { subst tw. split; [by apply Z.div_pos|]. rewrite Z.mul_comm. by apply Z.mul_div_le. }
  assert (Hth : 0 <= th ∧ th * rows <= img_h sheet).
  { subst th. split; [by apply Z.div_pos|]. rewrite Z.mul_comm. by apply Z.mul_div_le. }
  unfold load_tiles, floordiv.
  assert (Ec : (columns =? 0) = false) by (apply Z.eqb_neq; lia).
  assert (Er : (rows =? 0) = false) by (apply Z.eqb_neq; lia).
  rewrite Ec, Er. cbn. fold tw th.
  assert (Hgrid : traverse (fun j => traverse (fun i =>
                                subsurface sheet
                                  {| Rect.x := i * tw; Rect.y := j * th;
                                     Rect.w := tw; Rect.h := th |})
                                       (range columns)) (range rows)
                  = Ok ((fun j => (fun i => {| Rect.x := i * tw; Rect.y := j * th;
                                               Rect.w := tw; Rect.h := th |})
                                    <$> range columns) <$> range rows)).
  { apply (traverse_fmap _ (fun j => (fun i => {| Rect.x := i * tw; Rect.y := j * th;
                                                  Rect.w := tw; Rect.h := th |})
                                       <$> range columns)).
    intros j Hj. apply elem_of_range in Hj.
    apply (traverse_fmap _ (fun i => {| Rect.x := i * tw; Rect.y := j * th;
                                        Rect.w := tw; Rect.h := th |})).
    intros i Hi. apply elem_of_range in Hi.
    apply subsurface_inside; cbn; nia. }
  eexists. split; [by rewrite Hgrid|]. split; [done|]. split.
  - rewrite (concat_length_uniform _ (Z.to_nat columns)).
    + rewrite length_fmap, length_range, Z2Nat.inj_mul by lia. lia.
    + apply Forall_fmap, Forall_forall. intros j _. cbn.
      by rewrite length_fmap, length_range.
  - apply Forall_concat, Forall_fmap, Forall_forall. intros j Hj.
    apply elem_of_range in Hj. cbn.
    apply Forall_fmap, Forall_forall. intros i Hi. apply elem_of_range in Hi.
    unfold Rect.left, Rect.right, Rect.top, Rect.bottom. cbn. nia.
Qed.

Lemma load_tiles_cuts_the_grid_witness :
  exists tiles,
    load_tiles {| img_w := 320; img_h := 192 |} 20 12 = Some (Ok tiles)
    ∧ length tiles = 240%nat.
Proof.
  edestruct (load_tiles_cuts_the_grid {| img_w := 320; img_h := 192 |} 20 12)
    as (tiles & Hload & _ & Hlen & _); [cbn; lia | cbn; lia | lia | lia |].
  exists tiles. exact (conj Hload Hlen).
Defined.

(** X21: the named tiles of the two sheets of the level, cut into 20 by
    12 and into 32 by 24 tiles.  [square] and [bullet] load from a sheet
    of any size; [coin], which is taken 8 pixels left of its grid
    position, loads exactly from a map sheet at least 40 pixels wide,
    and raises [ValueError] from a narrower one. *)
Theorem coin_needs_a_wide_sheet (sheet : Image) (s : TileSheet.t) :
  0 <= img_w sheet -> 0 <= img_h sheet ->
  (TileSheet.new sheet 20 12 = Some s ->
     (exists r, TileSheet.square s = Ok r)
     ∧ (40 <= img_w sheet -> exists r, TileSheet.coin s = Ok r)
     ∧ (img_w sheet < 40 -> TileSheet.coin s = Raise ValueError))
  ∧ (TileSheet.new sheet 32 24 = Some s -> exists r, TileSheet.bullet s = Ok r).
Proof.
  intros HW HH.
  assert (Hdiv : forall a b, 0 <= a -> 0 < b -> 0 <= a `div` b ∧ b * (a `div` b) <= a
                             ∧ a < b * (a `div` b) + b).
  { intros a b Ha Hb. split_and!; [by apply Z.div_pos | by apply Z.mul_div_le |].
    pose proof (Z.mod_pos_bound a b Hb). pose proof (Z.div_mod a b). lia. }
  split.
  - intros Hnew. cbn in Hnew. injection Hnew as <-.
    destruct (Hdiv (img_w sheet) 20) as (? & ? & ?); [done|done|].
    destruct (Hdiv (img_h sheet) 12) as (? & ? & ?); [done|done|].
    unfold TileSheet.square, TileSheet.coin, TileSheet.tile_at. cbn.
    split_and!.
    + eexists. apply subsurface_inside; cbn; lia.
    + intros Hwide. eexists. apply subsurface_inside; cbn; lia.
    + intros Hnarrow.
      match goal with |- subsurface ?a ?b = _ =>
        destruct (subsurface_spec a b) as [(_ & Hx & _)|[Hbad _]]; [|done] end.
      cbn in Hx. lia.
  - intros Hnew. cbn in Hnew. injection Hnew as <-.
    destruct (Hdiv (img_w sheet) 32) as (? & ? & ?); [done|done|].
    destruct (Hdiv (img_h sheet) 24) as (? & ? & ?); [done|done|].
    unfold TileSheet.bullet, TileSheet.tile_at. cbn.
    eexists. apply subsurface_inside; cbn; lia.
Qed.

Lemma coin_needs_a_wide_sheet_witness :
  TileSheet.coin {| TileSheet.sheet := {| img_w := 39; img_h := 192 |};
                    TileSheet.tile_width := 1; TileSheet.tile_height := 16 |}
    = Raise ValueError.
Proof.
  edestruct (coin_needs_a_wide_sheet {| img_w := 39; img_h := 192 |}
               {| TileSheet.sheet := {| img_w := 39; img_h := 192 |};
                  TileSheet.tile_width := 1; TileSheet.tile_height := 16 |})
    as [Hmap _]; [cbn; lia | cbn; lia |].
  destruct (Hmap eq_refl) as (_ & _ & Hnarrow).
  apply Hnarrow. cbn. lia.
Defined.

(** ** The save service *)

Lemma posts_snoc str_of_dict l s st :
  Server.posts str_of_dict (l ++ [s]) st
  = snd (Server.save_post str_of_dict s (Server.posts str_of_dict l st)).
Proof. unfold Server.posts. by rewrite foldl_app. Qed.

Lemma posts_spec (str_of_dict : gmap string json -> string)
    (l : list Save.t) (st : Server.t) :
  let st' := Server.posts str_of_dict l st in
  (forall name,
     Server.save name st'
     = match last (filter (fun s => Save.name s = name) l) with
       | Some s => Ok s
       | None => Server.save name st
       end)
  ∧ JsonFile.filename (Server.save_file st') = JsonFile.filename (Server.save_file st)
  ∧ (forall s, last l = Some s ->
       Server.files st' !! JsonFile.filename (Server.save_file st)
       = Some (str_of_dict (Save.to_json s) +:+ String "010" ""))
  ∧ (forall name, name ≠ JsonFile.filename (Server.save_file st) ->
       Server.files st' !! name = Server.files st !! name).
Proof.
  induction l as [|s l IH] using rev_ind; cbn.
  - split_and!; done.
  - destruct IH as (Hget & Hname & Hfile & Hother).
    rewrite posts_snoc.
    set (st1 := Server.posts str_of_dict l st) in *.
    unfold Server.save_post, JsonFile.write, JsonFile.save. cbn.
    split_and!.
    + intros name. unfold Server.save. cbn.
      rewrite filter_app, last_app. cbn.
      destruct (decide (Save.name s = name)) as [->|Hne]; cbn.
      * by rewrite lookup_insert_eq.
      * rewrite lookup_insert_ne by done. apply Hget.
    + done.
    + intros s' Hlast. rewrite last_snoc in Hlast. injection Hlast as <-.
      by rewrite Hname, lookup_insert_eq.
    + intros name Hne. rewrite Hname, lookup_insert_ne by done. by apply Hother.
Qed.

(** X22: the save service keeps the last save of each name in memory,
    and only the last save of all on disk.  After the service has
    started and taken a run of posts, [GET /save] of a name answers with
    the last save posted under that name, and raises [KeyError] for a
    name never posted, also when a save of an earlier run is on disk;
    the file of the service holds the text of the last post alone (with
    no post yet, what it held before the start, or nothing); and no
    other file has changed. *)
Theorem server_keeps_the_last_save (str_of_dict : gmap string json -> string)
    (fs : gmap string string) (l : list Save.t) :
  let st' := Server.posts str_of_dict l (Server.start fs) in
  (forall name,
     Server.save name st'
     = match last (filter (fun s => Save.name s = name) l) with
       | Some s => Ok s
       | None => Raise KeyError
       end)
  ∧ Server.files st' !! "../save.json"
    = Some (match last l with
            | Some s => str_of_dict (Save.to_json s) +:+ String "010" ""
            | None => default "" (fs !! "../save.json")
            end)
  ∧ (forall name, name ≠ "../save.json" -> Server.files st' !! name = fs !! name).
Proof.
  intros st'. subst st'.
  destruct (posts_spec str_of_dict l (Server.start fs)) as (Hget & Hname & Hfile & Hother).
  assert (Hstart : Server.files (Server.start fs) !! "../save.json"
                   = Some (default "" (fs !! "../save.json"))
                 ∧ forall name, name ≠ "../save.json" ->
                     Server.files (Server.start fs) !! name = fs !! name).
  { unfold Server.start, JsonFile.new, JsonFile.create_file. cbn.
    destruct (fs !! "../save.json") as [c|] eqn:E; cbn.
    - by split.
    - split; [by rewrite lookup_insert_eq|].
      intros name Hne. by rewrite lookup_insert_ne. }
  destruct Hstart as [Hs1 Hs2].
  split_and!.
  - intros name. rewrite Hget.
    destruct (last (filter _ l)); [done|].
    unfold Server.save, Server.start, JsonFile.new. cbn. by rewrite lookup_empty.
  - destruct (last l) as [s|] eqn:El.
    + by apply Hfile.
    + apply last_None in El. subst l. exact Hs1.
  - intros name Hne. rewrite Hother; [by apply Hs2|].
    unfold Server.start, JsonFile.new. by cbn.
Qed.

(** ** Enemies and walls *)

Lemma horizontal_sweep_no_turn character is_enemy tiles s :
  (0 <? Character.dx (Level.hs_char s))%float = false ->
  let c' := Level.hs_char (Level.horizontal_sweep character is_enemy tiles s) in
  Character.direction c' = Character.direction (Level.hs_char s)
  ∧ Character.speed c' = Character.speed (Level.hs_char s).
Proof.
  unfold Level.horizontal_sweep. revert s.
  induction tiles as [|sprite tiles IH]; intros s Hdx; cbn; [done|].
  destruct (horizontal_tile_direction character is_enemy s sprite) as [_ Hsame].
  destruct Hsame as [Hd Hs].
  { unfold Level.enemy_turns, PyNum.gt. rewrite Hdx. cbn. by rewrite andb_false_r. }
  destruct (IH (Level.horizontal_tile character is_enemy s sprite)) as [-> ->].
  - unfold Character.dx. by rewrite Hd.
  - done.
Qed.

(** X23: a character is turned round only while it heads right.  When
    [horizontal_movement_collision] is called for a character, enemy or
    player, whose direction.x is not above 0, the character keeps its
    direction and its speed: an enemy heading left is never turned back
    by a wall, and an enemy that stands (direction.x = 0, as
    [spawn_sprites] makes it) is never set in motion. *)
Theorem enemy_never_turns_back (character : Level.objref) (l : Level.t)
    (who : Level.sprite) (c0 : Character.t) :
  Level.deref character l = Ok who ->
  Level.x_advance (Level.sprite_base who) = Ok c0 ->
  (0 <? Character.dx (Level.sprite_base who))%float = false ->
  exists l' who',
    Level.horizontal_movement_collision character l = (Level.Returned, l')
    ∧ Level.deref character l' = Ok who'
    ∧ Character.direction (Level.sprite_base who')
      = Character.direction (Level.sprite_base who)
    ∧ Character.speed (Level.sprite_base who') = Character.speed (Level.sprite_base who).
Proof.
  intros Hd Hx Hdx.
  destruct (horizontal_movement_collision_eq character l who c0 Hd Hx)
    as (l' & Hrun & Hd' & _).
  eexists l', _. split; [done|]. split; [done|].
  assert (Hbase : forall c1, Level.sprite_base (Level.sprite_set_base c1 who) = c1)
    by (intros c1; by destruct who).
  rewrite Hbase.
  assert (H0 : Character.direction c0 = Character.direction (Level.sprite_base who)
               ∧ Character.speed c0 = Character.speed (Level.sprite_base who)).
  { unfold Level.x_advance in Hx.
    destruct (Rect.assign_x _ _) as [r|]; [|done]. cbn in Hx. by injection Hx as <-. }
  destruct H0 as [Hdir0 Hsp0].
  match goal with |- context [Level.clear_flags ?cur ?c] =>
    destruct (clear_flags_spec cur c) as (_ & -> & -> & _) end.
  destruct (horizontal_sweep_no_turn character (Level.is_Enemy who) (Level.tiles l)
              {| Level.hs_char := c0; Level.hs_current_x := Level.current_x l;
                 Level.hs_stdout := Level.stdout l; Level.hs_killed := false |})
    as [-> ->]; [|done].
  cbn. unfold Character.dx. by rewrite Hdir0.
Qed.

Lemma enemy_never_turns_back_witness :
  exists l' who',
    Level.horizontal_movement_collision (Level.EnemyRef 0) sample_level
      = (Level.Returned, l')
    ∧ Level.deref (Level.EnemyRef 0) l' = Ok who'
    ∧ Character.dx (Level.sprite_base who') = 0%float.
Proof.
  edestruct (enemy_never_turns_back (Level.EnemyRef 0) sample_level)
    as (l' & who' & Hrun & Hd & Hdir & _); [vm_compute; reflexivity..|].
  exists l', who'. split; [exact Hrun|]. split; [exact Hd|].
  unfold Character.dx. rewrite Hdir. reflexivity.
Defined.

(** ** The reversal of an enemy *)




(** ** The tile under an enemy *)

(** C10, as the code has it: the square an ['E'] cell spawns has a
    wall's capabilities but is 256 by 256, four cells wide and high,
    where the wall an ['X'] cell spawns in the same place is 64 by 64
    (for a sheet tile of 16 by 16).  With the right key held, the player
    walks on below the wall cell, and is stopped at x = 224, one cell
    before the column of the enemy cell, by the square of the enemy cell
    in the row above. *)
Theorem enemy_tile_blocks_four_cells :
  (exists e, Level.enemies enemy_corner = [Some e]
             ∧ Character.rect (Enemy.base e)
               = {| Rect.x := 256; Rect.y := -64; Rect.w := 40; Rect.h := 40 |})
  ∧ Level.tiles enemy_corner !! 0%nat = Some (enemy_floor_at 256 0)
  ∧ Level.tiles wall_corner !! 0%nat = Some (wall_at sample_assets 256 0)
  ∧ drop 1 (Level.tiles enemy_corner) = drop 1 (Level.tiles wall_corner)
  ∧ capabilities (enemy_floor_at 256 0) = capabilities (wall_at sample_assets 256 0)
  ∧ Square.rect (enemy_floor_at 256 0)
    = {| Rect.x := 256; Rect.y := 0; Rect.w := 256; Rect.h := 256 |}
  ∧ Square.rect (wall_at sample_assets 256 0)
    = {| Rect.x := 256; Rect.y := 0; Rect.w := 64; Rect.h := 64 |}
  ∧ walk_right 28 enemy_corner
    = (Game.Running, Some {| Rect.x := 224; Rect.y := 72; Rect.w := 32; Rect.h := 56 |})
  ∧ walk_right 40 enemy_corner
    = (Game.Running, Some {| Rect.x := 224; Rect.y := 72; Rect.w := 32; Rect.h := 56 |})
  ∧ walk_right 28 wall_corner
    = (Game.Running, Some {| Rect.x := 224; Rect.y := 72; Rect.w := 32; Rect.h := 56 |})
  ∧ walk_right 40 wall_corner
    = (Game.Running, Some {| Rect.x := 320; Rect.y := 72; Rect.w := 32; Rect.h := 56 |}).
Proof.
  split; [eexists; split; vm_compute; reflexivity|].
  split_and!; vm_compute; reflexivity.
Qed.
